(** * Syncly (Demo 1): the storage pool of [syncly.py]

    A shallow embedding of the upload and download paths of
    [learning/rihal/Demo 1/syncly.py] and the properties of its
    placement, metadata and reassembly code.

    The Google Drive accounts ("buckets"), the metadata document
    [metadata.json] and the download directory are explicit state.  Every
    function below follows the source function of the same name, statement by
    statement; what the remote service does is fixed in [Module Remote]. *)

From Stdlib Require Import ZArith List String Ascii Bool Lia Strings.Byte DecimalString PeanoNat
  Permutation Sorted Lists.Finite.
From Stdlib Require DecimalNat DecimalFacts.
Import ListNotations.
Local Open Scope Z_scope.

Definition bytes := list byte.

(** ** Python helpers *)

Module Py.

(** [f"{n}"] for a non-negative integer. *)
Definition str_of_nat (n : nat) : string :=
  NilZero.string_of_uint (Nat.to_uint n).

(** [not s] for a string: the empty string is falsy. *)
Definition falsy (s : string) : bool :=
  match s with EmptyString => true | _ => false end.

(** [sub in s]. *)
Fixpoint contains (sub s : string) : bool :=
  String.prefix sub s ||
  match s with
  | EmptyString => false
  | String _ s' => contains sub s'
  end.

(** [list.sort] and [sorted] are stable: elements with equal keys keep their
    order.  [sort_by le] is the stable insertion sort for the order [le]
    (an element is put before the first element it is [le] to). *)
Section Sort.
Context {A : Type} (le : A -> A -> bool).

Fixpoint insert (x : A) (l : list A) : list A :=
  match l with
  | [] => [x]
  | y :: l' => if le x y then x :: l else y :: insert x l'
  end.

Fixpoint sort_by (l : list A) : list A :=
  match l with
  | [] => []
  | x :: l' => insert x (sort_by l')
  end.
End Sort.

(** [sorted(paths)] on strings: code point order. *)
Definition sorted (l : list string) : list string := sort_by String.leb l.

Inductive Exception :=
| IndexError
| RuntimeError
| TypeError
| FileNotFoundError
| JSONDecodeError
| HttpError (quota : bool)    (* [quota]: the text has "storageQuotaExceeded" *)
| UnicodeDecodeError
| ValueError.

End Py.

(** ** The remote service

    One Google Drive account per bucket.  [quota_limit] and [quota_usage] are
    what [about().get(fields='storageQuota')] reports; [room] is the number of
    bytes the account really still accepts, which may be less than the report
    says (the snapshot can be stale).  A [create] answers with an [HttpError]
    when the account is faulty or the body is larger than [room]; otherwise
    the object is stored under an id no object of the account carries.  A
    [list] answers with the matching objects in the order they were stored. *)

Module Remote.

Record DriveFile := {
  df_id : nat;            (* the opaque file id *)
  df_name : string;
  df_mime : string;
  df_body : bytes }.

Record Drive := {
  about_ok : bool;        (* the capacity query answers *)
  quota_limit : Z;
  quota_usage : Z;
  room : Z;
  create_fault : bool;    (* [files().create] fails for another reason than quota *)
  drive_files : list DriveFile }.

Definition size (b : bytes) : Z := Z.of_nat (List.length b).

(** An id no file of the account carries. *)
Definition fresh_id (d : Drive) : nat :=
  S (list_max (map df_id (drive_files d))).

(** [service.files().create(media_body=..., body={'name': name}).execute()]:
    the new id and the account afterwards, or the [HttpError]. *)
Definition files_create (d : Drive) (name mime : string) (body : bytes)
  : Py.Exception + (nat * Drive) :=
  if create_fault d then inl (Py.HttpError false)
  else if room d <? size body then inl (Py.HttpError true)
  else
    let id := fresh_id d in
    inr (id, {| about_ok := about_ok d;
                quota_limit := quota_limit d;
                quota_usage := quota_usage d + size body;
                room := room d - size body;
                create_fault := create_fault d;
                drive_files := drive_files d ++
                  [{| df_id := id; df_name := name; df_mime := mime; df_body := body |}] |}).

(** [files().get(fileId=...)] / [get_media]. *)
Definition files_get (d : Drive) (id : nat) : option DriveFile :=
  find (fun f => Nat.eqb (df_id f) id) (drive_files d).

(** [files().list(q="name = '...'")]. *)
Definition files_list_named (d : Drive) (name : string) : list DriveFile :=
  filter (fun f => String.eqb (df_name f) name) (drive_files d).

(** [files().list(q="name contains '...'")]. *)
Definition files_list_containing (d : Drive) (sub : string) : list DriveFile :=
  filter (fun f => Py.contains sub (df_name f)) (drive_files d).

End Remote.
Import Remote.

(** ** The metadata document *)

Record ChunkRecord := {
  chunk_name : string;
  file_id : nat;
  bucket : string }.

Record FileRecord := {
  file_name : string;
  chunks : list ChunkRecord }.

(** [metadata.json] as the code can find it: a document the program wrote (an
    array of records, or one record), or one of the ways it can fail to be
    one.  [open(METADATA_FILE, 'r')] reads text, so a file whose bytes are not
    text in the encoding of the platform makes [json.load] raise
    [UnicodeDecodeError], before any JSON is looked at; text that is not JSON
    makes it raise [json.JSONDecodeError].  JSON values that are neither a
    record nor an array of records are not covered. *)
Inductive MetadataFile :=
| MetaMissing                          (* no such file *)
| MetaEmpty                            (* zero bytes *)
| MetaCorrupt                          (* text, [json.load] raises [JSONDecodeError] *)
| MetaUndecodable                      (* not text, [json.load] raises [UnicodeDecodeError] *)
| MetaSingle (r : FileRecord)          (* one record that is not in an array *)
| MetaList (l : list FileRecord).      (* a JSON array of records *)

(** ** The world

    The upload and download paths are followed over a token directory that is
    in order: every bucket id that is used has its token file
    [bucket_<id>.json], holding valid credentials.  Then
    [authenticate_account] takes the first [return]: it reads the token file,
    writes nothing and answers with the service of the account, so the
    listing of TOKEN_DIR is what it was at every call.  What
    [authenticate_account] and [get_all_authenticated_buckets] do over any
    token directory (a token file that is missing, expired or unreadable, a
    file name that is not [bucket_<id>.json]) is followed in [Module Tokens]. *)

Record World := {
  bucket_listing : list string;        (* the bucket ids of the files in TOKEN_DIR, as listed *)
  drive_of : string -> Drive;          (* the account a bucket id is a token for *)
  metadata_file : MetadataFile }.

Definition get_all_authenticated_buckets (w : World) : list string :=
  bucket_listing w.

(** The service [build("drive", "v3", credentials=creds)] answers with, for a
    token file with valid credentials. *)
Definition authenticate_account (w : World) (bucket_number : string) : Drive :=
  drive_of w bucket_number.

(** The world after the account of [b] has become [d]. *)
Definition set_drive (w : World) (b : string) (d : Drive) : World :=
  {| bucket_listing := bucket_listing w;
     drive_of := fun b' => if String.eqb b' b then d else drive_of w b';
     metadata_file := metadata_file w |}.

Definition set_metadata (w : World) (m : MetadataFile) : World :=
  {| bucket_listing := bucket_listing w;
     drive_of := drive_of w;
     metadata_file := m |}.

Definition check_storage (service : Drive) : Z * Z :=
  if about_ok service then (quota_limit service, quota_usage service) else (0, 0).

(** The free space a bucket reports: [total - used] in [upload_file]. *)
Definition reported_free (w : World) (b : string) : Z :=
  let '(total, used) := check_storage (authenticate_account w b) in total - used.

(** ** Upload *)

Definition upload_chunk (service : Drive) (chunk : bytes) (mimetype file_name : string)
    (chunk_index : nat) : Py.Exception + (nat * Drive) :=
  files_create service
    (file_name ++ "_part" ++ Py.str_of_nat (chunk_index + 1))%string mimetype chunk.

Inductive UploadOutcome :=
| UploadComplete                       (* "Upload complete. Metadata updated." *)
| NotEnoughSpace                       (* "Not enough space." and return *)
| UploadRaised (e : Py.Exception)
| UploadDiverged.                      (* the loop bound of the model was too small *)

(** The first loop of [upload_file]: the snapshot of free space. *)
Fixpoint snapshot (w : World) (buckets : list string)
    (free_space : list (Z * string)) (total_free : Z) : list (Z * string) * Z :=
  match buckets with
  | [] => (free_space, total_free)
  | b :: rest =>
      let free := reported_free w b in
      snapshot w rest
        (if free >? 0 then free_space ++ [(free, b)] else free_space)
        (total_free + free)
  end.

(** [free_space.sort(reverse=True, key=lambda x: x[0])]. *)
Definition sort_desc (l : list (Z * string)) : list (Z * string) :=
  Py.sort_by (fun x y => fst x >=? fst y) l.

(** [free_space.sort(reverse=False, key=lambda x: x[0])]. *)
Definition sort_asc (l : list (Z * string)) : list (Z * string) :=
  Py.sort_by (fun x y => fst x <=? fst y) l.

(** The [for i, (bucket_free, bucket_id) in enumerate(free_space)] scan: the
    first entry with [bucket_free > 0], with its index. *)
Fixpoint select_bucket (free_space : list (Z * string)) (i : nat)
    : option (nat * Z * string) :=
  match free_space with
  | [] => None
  | (bucket_free, bucket_id) :: rest =>
      if bucket_free >? 0 then Some (i, bucket_free, bucket_id)
      else select_bucket rest (S i)
  end.

(** [free_space[i][0] = v]. *)
Fixpoint set_free (free_space : list (Z * string)) (i : nat) (v : Z) : list (Z * string) :=
  match free_space, i with
  | [], _ => []
  | (_, b) :: rest, O => (v, b) :: rest
  | e :: rest, S i' => e :: set_free rest i' v
  end.

(** [file.read(n)] with the file position at [offset]. *)
Definition read_at (file : bytes) (offset n : Z) : bytes :=
  firstn (Z.to_nat n) (skipn (Z.to_nat offset) file).

Inductive LoopResult :=
| LoopExit (w : World) (chunks : list ChunkRecord)   (* the loop ended or was left by [break] *)
| LoopRaised (w : World) (e : Py.Exception)
| LoopFuel.

(** The [while offset < file_size] loop of the chunked path.  The bytes of a
    chunk pass through a local file [file_path.partN] that is written before
    and removed after the chunk's upload; that file is not part of the state.
    [fuel] bounds the number of turns. *)
Fixpoint chunk_loop (fuel : nat) (w : World) (file : bytes) (file_name mimetype : string)
    (file_size : Z) (free_space : list (Z * string)) (offset : Z) (chunk_index : nat)
    (chunks : list ChunkRecord) : LoopResult :=
  match fuel with
  | O => LoopFuel
  | S fuel' =>
      if offset <? file_size then
        let free_space := sort_asc free_space in
        match select_bucket free_space 0 with
        | None => LoopExit w chunks
        | Some (selected_index, bucket_free, selected_bucket) =>
            if Py.falsy selected_bucket then LoopExit w chunks
            else
              let chunk_size := Z.min bucket_free (file_size - offset) in
              let chunk := read_at file offset chunk_size in
              let service := authenticate_account w selected_bucket in
              match upload_chunk service chunk mimetype file_name chunk_index with
              | inl (Py.HttpError true) =>
                  (* the entry is set to 0, the inner loop is left, [file_id] is None *)
                  LoopRaised w Py.RuntimeError
              | inl e => LoopRaised w e
              | inr (id, service') =>
                  chunk_loop fuel' (set_drive w selected_bucket service') file file_name
                    mimetype file_size
                    (set_free free_space selected_index (bucket_free - chunk_size))
                    (offset + chunk_size) (S chunk_index)
                    (chunks ++ [{| chunk_name :=
                                     (file_name ++ "_part" ++ Py.str_of_nat (chunk_index + 1))%string;
                                   file_id := id;
                                   bucket := selected_bucket |}])
              end
        end
      else LoopExit w chunks
  end.

(** What the ["#Update metadata"] block binds [existing_metadata] to: the
    array read, a single record wrapped in a list, or [[]] when the file is
    missing or has no bytes or [json.JSONDecodeError] is caught.  For a
    document that is not text nothing is bound, [json.load] raises out of the
    block (see [update_metadata]); [[]] stands in. *)
Definition existing_metadata (m : MetadataFile) : list FileRecord :=
  match m with
  | MetaMissing | MetaEmpty | MetaCorrupt => []
  | MetaUndecodable => []
  | MetaSingle r => [r]
  | MetaList l => l
  end.

(** The ["#Update metadata"] block: read, append, rewrite.  The [except]
    clause names [json.JSONDecodeError] only: a [UnicodeDecodeError] leaves
    the block, and [upload_file], before anything is written. *)
Definition update_metadata (w : World) (metadata : FileRecord) : World * UploadOutcome :=
  match metadata_file w with
  | MetaUndecodable => (w, UploadRaised Py.UnicodeDecodeError)
  | m => (set_metadata w (MetaList (existing_metadata m ++ [metadata])), UploadComplete)
  end.

Definition upload_file (w : World) (file : bytes) (file_name mimetype : string)
    : World * UploadOutcome :=
  let file_size := size file in
  let buckets := get_all_authenticated_buckets w in
  let '(free_space, total_free) := snapshot w buckets [] 0 in
  if total_free <? file_size then (w, NotEnoughSpace)
  else
    let free_space := sort_desc free_space in
    match free_space with
    | [] => (w, UploadRaised Py.IndexError)
    | (best_free, best_bucket) :: _ =>
        if best_free >=? file_size then
          match files_create (authenticate_account w best_bucket) file_name mimetype file with
          | inl e => (w, UploadRaised e)
          | inr (id, service') =>
              update_metadata (set_drive w best_bucket service')
                {| file_name := file_name;
                   chunks := [{| chunk_name := file_name; file_id := id;
                                 bucket := best_bucket |}] |}
          end
        else
          match chunk_loop (S (List.length free_space)) w file file_name mimetype file_size
                  free_space 0 0 [] with
          | LoopExit w' chunks =>
              update_metadata w' {| file_name := file_name; chunks := chunks |}
          | LoopRaised w' e => (w', UploadRaised e)
          | LoopFuel => (w, UploadDiverged)
          end
    end.

(** ** Download *)

(** The download directory [save_path]: file name to contents.  Every path the
    code builds is [os.path.join(save_path, name)], so a path is modelled by
    its name, and sorting paths is sorting names. *)
Definition Dir := string -> option bytes.

Definition write (dir : Dir) (name : string) (b : bytes) : Dir :=
  fun n => if String.eqb n name then Some b else dir n.

(** [os.remove(path)]: [None] when there is no such file. *)
Definition remove (dir : Dir) (name : string) : option Dir :=
  match dir name with
  | None => None
  | Some _ => Some (fun n => if String.eqb n name then None else dir n)
  end.

(** [for path in chunk_paths: os.remove(path)]: the directory the loop leaves
    and whether it came to its end; [false]: a path was not there
    ([FileNotFoundError]), the paths before it are removed all the same. *)
Fixpoint remove_all (paths : list string) (dir : Dir) : Dir * bool :=
  match paths with
  | [] => (dir, true)
  | p :: rest =>
      match remove dir p with
      | None => (dir, false)
      | Some dir' => remove_all rest dir'
      end
  end.

(** The path the object was saved under, or [None] after "Download error". *)
Definition download_file (service : Drive) (id : nat) (dir : Dir) : Dir * option string :=
  match files_get service id with
  | Some f => (write dir (df_name f) (df_body f), Some (df_name f))
  | None => (dir, None)
  end.

(** The bodies of the files at [paths], one after the other, up to the first
    path that is not there; [false]: a path was not there. *)
Fixpoint read_chunks (dir : Dir) (paths : list string) : bytes * bool :=
  match paths with
  | [] => ([], true)
  | p :: rest =>
      match dir p with
      | Some b => let '(bs, ok) := read_chunks dir rest in ((b ++ bs)%list, ok)
      | None => ([], false)
      end
  end.

(** [merge_chunks]: the merged file is opened for writing first, which
    empties it, then every chunk of [sorted(file_paths)] is appended.
    [false]: a chunk file was not there; [open] raises [FileNotFoundError],
    the [with] block closes the merged file, which keeps the chunks written
    before.  A chunk path that is the merged path itself is read as the empty
    file: what has been written is then still in the buffer of the writer
    (that is so as long as less than a buffer of bytes has been written). *)
Definition merge_chunks (file_paths : list string) (merged_file_path : string) (dir : Dir)
    : Dir * bool :=
  let '(body, ok) := read_chunks (write dir merged_file_path []) (Py.sorted file_paths) in
  (write dir merged_file_path body, ok).

Inductive DownloadOutcome :=
| MetadataNotFound                     (* "Metadata not found." *)
| NotInMetadata                        (* "File not found in metadata." *)
| Fetched (path : option string)       (* one object fetched directly *)
| ChunkFailed                          (* "Failed to download chunk." *)
| FileDownloaded                       (* "File downloaded: ..." *)
| ScanMerged                           (* parts found by the scan were merged *)
| FileNotFound                         (* "File not found." *)
| DownloadRaised (e : Py.Exception).

(** The first record of [l] named [name]. *)
Definition lookup (l : list FileRecord) (name : string) : option FileRecord :=
  find (fun md => String.eqb (file_name md) name) l.

(** Whether a record of [l] is named [name]. *)
Definition has_record (l : list FileRecord) (name : string) : bool :=
  existsb (fun md => String.eqb (file_name md) name) l.

(** The [for chunk in chunks] loop of [download_using_metadata]. *)
Fixpoint download_chunks (w : World) (chunks : list ChunkRecord) (dir : Dir)
    (chunk_paths : list string) : Dir * option (list string) :=
  match chunks with
  | [] => (dir, Some chunk_paths)
  | chunk :: rest =>
      let service := authenticate_account w (bucket chunk) in
      match download_file service (file_id chunk) dir with
      | (dir', Some downloaded_path) =>
          download_chunks w rest dir' (chunk_paths ++ [downloaded_path])
      | (dir', None) => (dir', None)
      end
  end.

(** The merge and clean-up both download paths end with. *)
Definition merge_and_clean (to_merge chunk_paths : list string) (merged_path : string)
    (dir : Dir) (done : DownloadOutcome) : Dir * DownloadOutcome :=
  match merge_chunks to_merge merged_path dir with
  | (dir', false) => (dir', DownloadRaised Py.FileNotFoundError)
  | (dir', true) =>
      match remove_all chunk_paths dir' with
      | (dir'', false) => (dir'', DownloadRaised Py.FileNotFoundError)
      | (dir'', true) => (dir'', done)
      end
  end.

Definition is_single (chunks : list ChunkRecord) (name : string) : option ChunkRecord :=
  match chunks with
  | [chunk] => if String.eqb (chunk_name chunk) name then Some chunk else None
  | _ => None
  end.

Definition download_using_metadata (w : World) (file_name : string) (dir : Dir)
    : Dir * DownloadOutcome :=
  match metadata_file w with
  | MetaMissing => (dir, MetadataNotFound)
  | MetaEmpty | MetaCorrupt => (dir, DownloadRaised Py.JSONDecodeError)
  | MetaUndecodable => (dir, DownloadRaised Py.UnicodeDecodeError)
  | MetaSingle _ => (dir, DownloadRaised Py.TypeError)
  | MetaList metadata_list =>
      match lookup metadata_list file_name with
      | None => (dir, NotInMetadata)
      | Some target_metadata =>
          let chunks := chunks target_metadata in
          match is_single chunks file_name with
          | Some chunk =>
              let service := authenticate_account w (bucket chunk) in
              let '(dir', path) := download_file service (file_id chunk) dir in
              (dir', Fetched path)
          | None =>
              match download_chunks w chunks dir [] with
              | (dir', None) => (dir', ChunkFailed)
              | (dir', Some chunk_paths) =>
                  merge_and_clean (Py.sorted chunk_paths) chunk_paths file_name dir'
                    FileDownloaded
              end
          end
      end
  end.

(** The [for part in sorted(parts, key=lambda x: x['name'])] loop of the scan. *)
Fixpoint download_parts (service : Drive) (parts : list DriveFile) (dir : Dir)
    (chunk_paths : list string) : Dir * list string :=
  match parts with
  | [] => (dir, chunk_paths)
  | part :: rest =>
      match download_file service (df_id part) dir with
      | (dir', Some downloaded) => download_parts service rest dir' (chunk_paths ++ [downloaded])
      | (dir', None) => download_parts service rest dir' chunk_paths
      end
  end.

(** The [for bucket in buckets] loop of [download_from_all_buckets]. *)
Fixpoint scan_buckets (w : World) (buckets : list string) (file_name : string) (dir : Dir)
    : Dir * DownloadOutcome :=
  match buckets with
  | [] => (dir, FileNotFound)
  | b :: rest =>
      let service := authenticate_account w b in
      match files_list_named service file_name with
      | f :: _ =>
          let '(dir', path) := download_file service (df_id f) dir in
          (dir', Fetched path)
      | [] =>
          match files_list_containing service (file_name ++ "_part")%string with
          | [] => scan_buckets w rest file_name dir
          | parts =>
              let by_name := Py.sort_by (fun x y => String.leb (df_name x) (df_name y)) parts in
              match download_parts service by_name dir [] with
              | (dir', []) => scan_buckets w rest file_name dir'
              | (dir', chunk_paths) =>
                  merge_and_clean chunk_paths chunk_paths file_name dir' ScanMerged
              end
          end
      end
  end.

Definition download_from_all_buckets (w : World) (file_name : string) (dir : Dir)
    : Dir * DownloadOutcome :=
  let scan := scan_buckets w (get_all_authenticated_buckets w) file_name dir in
  match metadata_file w with
  | MetaMissing => scan
  | MetaEmpty | MetaCorrupt => scan                 (* "Corrupted metadata." *)
  | MetaUndecodable => (dir, DownloadRaised Py.UnicodeDecodeError)
  | MetaSingle _ => (dir, DownloadRaised Py.TypeError)
  | MetaList metadata_list =>
      if has_record metadata_list file_name
      then download_using_metadata w file_name dir
      else scan
  end.

(** ** Quantities the statements are about *)

(** The sum of the free space all listed buckets report. *)
Definition total_free (w : World) : Z :=
  fold_right Z.add 0 (map (reported_free w) (bucket_listing w)).

(** The candidate list after the snapshot: the buckets reporting [free > 0],
    in listing order. *)
Definition candidates (w : World) : list (Z * string) :=
  map (fun b => (reported_free w b, b))
      (filter (fun b => reported_free w b >? 0) (bucket_listing w)).

(** The sum of the entries of a free-space table. *)
Definition table_sum (t : list (Z * string)) : Z :=
  fold_right Z.add 0 (map fst t).

(** The documents the code reads as the empty sequence: the file is missing,
    has no bytes, or holds text that is not JSON. *)
Definition unreadable (m : MetadataFile) : bool :=
  match m with
  | MetaMissing | MetaEmpty | MetaCorrupt => true
  | _ => false
  end.

(** ** Worlds of the scenarios *)

(** An account with [free] bytes, reporting them truthfully, holding nothing. *)
Definition plain_drive (free : Z) : Drive :=
  {| about_ok := true; quota_limit := free; quota_usage := 0; room := free;
     create_fault := false; drive_files := [] |}.

(** An account that reports [free] bytes but accepts only [real]. *)
Definition stale_drive (free real : Z) : Drive :=
  {| about_ok := true; quota_limit := free; quota_usage := 0; room := real;
     create_fault := false; drive_files := [] |}.

(** An account over its quota: it reports [used] bytes in use of [limit]. *)
Definition used_drive (limit used : Z) : Drive :=
  {| about_ok := true; quota_limit := limit; quota_usage := used; room := limit - used;
     create_fault := false; drive_files := [] |}.

(** The world whose buckets are the keys of [accounts], with no metadata. *)
Fixpoint account_of (accounts : list (string * Drive)) (b : string) : Drive :=
  match accounts with
  | [] => plain_drive 0
  | (b', d) :: rest => if String.eqb b b' then d else account_of rest b
  end.

Definition pool (accounts : list (string * Drive)) (m : MetadataFile) : World :=
  {| bucket_listing := map fst accounts;
     drive_of := account_of accounts;
     metadata_file := m |}.

Definition no_files : Dir := fun _ => None.

Definition two_small : World :=
  pool [("1", plain_drive 2); ("2", plain_drive 3)]%string MetaMissing.

Definition six_bytes : bytes := [x01; x02; x03; x04; x05; x06].

Definition over_quota : World := pool [("1", used_drive 10 15)]%string MetaMissing.

Definition all_full : World :=
  pool [("1", plain_drive 0); ("2", used_drive 7 7)]%string MetaMissing.

Definition one_negative : World :=
  pool [("1", plain_drive 10); ("2", used_drive 0 8)]%string MetaMissing.

Definition five_bytes : bytes := [x01; x02; x03; x04; x05].

Definition ten_and_five : World :=
  pool [("A", plain_drive 10); ("B", plain_drive 5)]%string MetaMissing.

(** Upload [file] as [name], then download [name] into an empty directory:
    both outcomes and the bytes found under [name]. *)
Definition round_trip (w : World) (file : bytes) (name mimetype : string)
    : UploadOutcome * DownloadOutcome * option bytes :=
  let '(w', up) := upload_file w file name mimetype in
  let '(dir, down) := download_from_all_buckets w' name no_files in
  (up, down, dir name).

(** The record appended last to the document. *)
Definition last_record (w : World) : option FileRecord :=
  last (map Some (existing_metadata (metadata_file w))) None.

(** Ten buckets of one free byte each. *)
Definition ten_singles : World :=
  pool (map (fun b => (b, plain_drive 1))
            ["1"; "2"; "3"; "4"; "5"; "6"; "7"; "8"; "9"; "10"]%string) MetaMissing.

Definition ten_bytes : bytes := [x01; x02; x03; x04; x05; x06; x07; x08; x09; x0a].

(** Bucket 1 reports 10 free bytes and accepts none; buckets 2 and 3 hold 10 each. *)
Definition one_stale : World :=
  pool [("1", stale_drive 10 0); ("2", plain_drive 10); ("3", plain_drive 10)]%string
       MetaMissing.

Definition fifteen_bytes : bytes :=
  [x01; x02; x03; x04; x05; x06; x07; x08; x09; x0a; x0b; x0c; x0d; x0e; x0f].

(** TOKEN_DIR holds [bucket_1.json] and [bucket_.json]: the second id is the
    empty string. *)
Definition unnamed_bucket : World :=
  pool [("1", plain_drive 3); ("", plain_drive 5)]%string MetaMissing.

Definition eight_bytes : bytes := [x01; x02; x03; x04; x05; x06; x07; x08].

Definition twelve_bytes : bytes :=
  [x01; x02; x03; x04; x05; x06; x07; x08; x09; x0a; x0b; x0c].




(** The label [upload_chunk] puts behind the file name for chunk [chunk_index]. *)
Definition part_suffix (chunk_index : nat) : string :=
  ("_part" ++ Py.str_of_nat (chunk_index + 1))%string.

(** The chunk names of a file of [n] chunks, in creation order. *)
Definition part_names (name : string) (n : nat) : list string :=
  map (fun k => (name ++ part_suffix k)%string) (seq 0 n).

(** The chunks of the record appended last. *)
Definition uploaded_chunks (w : World) : list ChunkRecord :=
  match last_record w with
  | Some r => chunks r
  | None => []
  end.

(** Chunk [c] can be fetched from its bucket: the object carries the chunk's
    name and [body]. *)
Definition stored (w : World) (c : ChunkRecord) (body : bytes) : Prop :=
  exists f, files_get (authenticate_account w (bucket c)) (file_id c) = Some f /\
            df_name f = chunk_name c /\ df_body f = body.


(** [ten_and_five] after a 6-byte file was uploaded as "f". *)
Definition after_first : World := fst (upload_file ten_and_five six_bytes "f" "m").

(** The number of entries above 0 in a free-space table. *)
Fixpoint count_pos (t : list (Z * string)) : nat :=
  match t with
  | [] => O
  | (f, _) :: rest => if f >? 0 then S (count_pos rest) else count_pos rest
  end.

(** The world a run of the chunk loop ends in, when it ends. *)
Definition loop_world (r : LoopResult) : option World :=
  match r with
  | LoopExit w _ => Some w
  | LoopRaised w _ => Some w
  | LoopFuel => None
  end.

(** A bucket whose capacity query fails, beside one that holds 8 bytes. *)
Definition silent_drive : Drive :=
  {| about_ok := false; quota_limit := 100; quota_usage := 0; room := 100;
     create_fault := false; drive_files := [] |}.

Definition one_silent : World :=
  pool [("1", silent_drive); ("2", plain_drive 8)]%string MetaMissing.

(** ** The storage summary and the file listing *)

(** [check_all_storage]: the totals it prints, in bytes (the printout divides
    by [1024**3] and rounds), or [None] after "No authenticated buckets
    found.". *)
Definition check_all_storage (w : World) : option (Z * Z) :=
  match get_all_authenticated_buckets w with
  | [] => None
  | buckets =>
      Some (fold_left
              (fun '(total_storage, total_used) bucket =>
                 let '(storage, used) := check_storage (authenticate_account w bucket) in
                 (total_storage + storage, total_used + used))
              buckets (0, 0))
  end.

(** [if query:] for an optional string: [None] and the empty string are falsy. *)
Definition given (query : option string) : bool :=
  match query with
  | Some q => negb (Py.falsy q)
  | None => false
  end.

(** The objects a listing with the filter of [list_drive_files] matches:
    [name contains 'query'] when there is a query, every object otherwise. *)
Definition matching (service : Drive) (query : option string) : list DriveFile :=
  match query with
  | Some q => if Py.falsy q then drive_files service else files_list_containing service q
  | None => drive_files service
  end.

(** The [while True] loop of [list_drive_files] over the pages the service
    answers with, in order; every page but the last comes with a
    [nextPageToken].  [max_results] is [None] or a number; [None] and 0 are
    falsy. *)
Fixpoint list_drive_files_loop (pages : list (list DriveFile)) (all_files : list DriveFile)
    (max_results : option nat) : list DriveFile :=
  match pages with
  | [] => all_files
  | page :: rest =>
      let all_files := (all_files ++ page)%list in
      match max_results with
      | Some (S m) =>
          if (S m <=? List.length all_files)%nat then firstn (S m) all_files
          else list_drive_files_loop rest all_files max_results
      | _ => list_drive_files_loop rest all_files max_results
      end
  end.

(** [pageSize=100]: the matching objects, 100 to a page. *)
Fixpoint pages_of (fuel : nat) (l : list DriveFile) : list (list DriveFile) :=
  match fuel, l with
  | O, _ => []
  | _, [] => []
  | S k, _ => firstn 100 l :: pages_of k (skipn 100 l)
  end.

Definition list_drive_files (service : Drive) (max_results : option nat)
    (query : option string) : list DriveFile :=
  let found := matching service query in
  list_drive_files_loop (pages_of (List.length found) found) [] max_results.

(** A local variable of a Python function: not yet assigned, or assigned. *)
Inductive Local (A : Type) :=
| Unbound
| Bound (v : A).
Arguments Unbound {A}.
Arguments Bound {A} v.

(** One line of the listing: name, id, MIME type, size, URL. *)
Definition Row : Type := string * nat * string * Z * string.

Definition row_of (file : DriveFile) : Row :=
  (df_name file, df_id file, df_mime file, size (df_body file),
   ("https://drive.google.com/file/d/" ++ Py.str_of_nat (df_id file) ++ "/view")%string).

Definition row_name (r : Row) : string :=
  let '(name, _, _, _, _) := r in name.

(** The menu of [list_files_from_all_buckets]: [choice] is the stripped input. *)
Definition max_files_of (choice : string) : option nat :=
  if String.eqb choice "1" then Some 50%nat
  else if String.eqb choice "2" then Some 100%nat
  else if String.eqb choice "3" then Some 500%nat
  else if String.eqb choice "4" then None
  else Some 100%nat.

(** The [for bucket in bucket_numbers] loop: the rows collected and the number
    of buckets whose [try] block ended in the [except] branch.  Reading
    [max_files] while it is unbound raises [UnboundLocalError], an
    [Exception]. *)
Fixpoint collect_rows (w : World) (buckets : list string) (max_files : Local (option nat))
    (query : option string) (all_files : list Row) (errors : nat) : list Row * nat :=
  match buckets with
  | [] => (all_files, errors)
  | bucket :: rest =>
      let service := authenticate_account w bucket in
      match max_files with
      | Unbound => collect_rows w rest max_files query all_files (S errors)
      | Bound limit =>
          let files := list_drive_files service limit query in
          collect_rows w rest max_files query (all_files ++ map row_of files)%list errors
      end
  end.

(** [enumerate(l, start=start)]. *)
Fixpoint enumerate {A : Type} (l : list A) (start : nat) : list (nat * A) :=
  match l with
  | [] => []
  | x :: l' => (start, x) :: enumerate l' (S start)
  end.

(** The [while start_index < total_files] loop: the pages displayed, each the
    numbered rows it shows.  [more k] says whether the answer to the prompt
    after page [k], stripped and in lower case, is ['y']. *)
Fixpoint show_pages (fuel : nat) (all_files : list Row) (start_index : nat)
    (more : nat -> bool) (shown : nat) : list (list (nat * Row)) :=
  match fuel with
  | O => []
  | S k =>
      if (start_index <? List.length all_files)%nat then
        enumerate (firstn 30 (skipn start_index all_files)) (start_index + 1)
        :: (if (start_index + 30 <? List.length all_files)%nat then
              if more shown then show_pages k all_files (start_index + 30) more (S shown)
              else []
            else [])
      else []
  end.

Record Listing := {
  bucket_errors : nat;                    (* "Error retrieving files ..." lines *)
  displayed : list (list (nat * Row)) }.  (* the pages shown *)

(** [None]: "No authenticated buckets found. Please add a new bucket first.". *)
Definition list_files_from_all_buckets (w : World) (query : option string)
    (choice : string) (more : nat -> bool) : option Listing :=
  match get_all_authenticated_buckets w with
  | [] => None
  | bucket_numbers =>
      let max_files := if given query then Unbound else Bound (max_files_of choice) in
      let '(all_files, errors) := collect_rows w bucket_numbers max_files query [] O in
      let all_files := Py.sort_by (fun x y => String.leb (row_name x) (row_name y)) all_files in
      Some {| bucket_errors := errors;
              displayed := show_pages (List.length all_files) all_files 0 more 0 |}
  end.

(** [search_files]: [keyword] is the stripped input; [None] when it is empty
    and nothing is done. *)
Definition search_files (w : World) (keyword : string) (choice : string)
    (more : nat -> bool) : option (option Listing) :=
  if Py.falsy keyword then None
  else Some (list_files_from_all_buckets w (Some keyword) choice more).

(** A bucket of 65 objects named [n0] ... [n64]. *)
Definition many_files : World :=
  pool [("1",
         {| about_ok := true; quota_limit := 1000; quota_usage := 65; room := 935;
            create_fault := false;
            drive_files :=
              map (fun k => {| df_id := S k;
                               df_name := ("n" ++ Py.str_of_nat k)%string;
                               df_mime := "m"; df_body := [x00] |})
                  (seq 0 65) |})]%string MetaMissing.

(** ** The token directory *)

Module Tokens.

(** [s.replace(old, new)] for a non-empty [old]: every occurrence of [old],
    from the left and without overlap, becomes [new].  [skip] counts the
    characters of a found occurrence that are still to be passed over. *)
Fixpoint replace_from (old new : string) (skip : nat) (s : string) : string :=
  match s with
  | EmptyString => EmptyString
  | String c s' =>
      match skip with
      | S k => replace_from old new k s'
      | O =>
          if String.prefix old s
          then (new ++ replace_from old new (String.length old - 1) s')%string
          else String c (replace_from old new 0 s')
      end
  end.

Definition replace (old new s : string) : string := replace_from old new 0 s.

(** What a token file holds, as far as [authenticate_account] can tell. *)
Inductive TokenFile :=
| Valid          (* [from_authorized_user_file] answers, and [creds.valid] *)
| Expired        (* it answers with credentials that are not valid *)
| Unparseable.   (* it raises [ValueError]: the file holds no credentials *)

(** TOKEN_DIR: its files, each name once. *)
Definition TokenDir := list (string * TokenFile).

(** [os.path.exists(path)] and what the file holds. *)
Definition lookup_file (dir : TokenDir) (path : string) : option TokenFile :=
  match find (fun e => String.eqb (fst e) path) dir with
  | Some (_, t) => Some t
  | None => None
  end.

(** [with open(path, "w") as f: f.write(...)]: the file is created when it is
    not there, and rewritten when it is. *)
Definition write_file (dir : TokenDir) (path : string) (t : TokenFile) : TokenDir :=
  match lookup_file dir path with
  | Some _ => map (fun e => if String.eqb (fst e) path then (path, t) else e) dir
  | None => (dir ++ [(path, t)])%list
  end.

(** [f.replace(".json", "").replace("bucket_", "")]. *)
Definition bucket_id (f : string) : string :=
  replace "bucket_" "" (replace ".json" "" f).

(** [f"bucket_{bucket_number}.json"], a name in TOKEN_DIR. *)
Definition token_path (bucket_number : string) : string :=
  ("bucket_" ++ bucket_number ++ ".json")%string.

(** The log-in flow ([from_client_secrets_file], [run_local_server]): it
    answers with fresh credentials, which are valid, or raises. *)
Inductive Flow :=
| Granted
| Refused (e : Py.Exception).

(** What [authenticate_account] does to TOKEN_DIR, or what it raises.  A token
    file that is there is read first: one that holds no credentials makes
    [from_authorized_user_file] raise [ValueError], and nothing is written;
    one with valid credentials is used as it is.  When the file is not there
    or its credentials are not valid, the log-in flow runs and its
    credentials are written to the token file. *)
Definition authenticate_account (dir : TokenDir) (flow : Flow) (bucket_number : string)
    : Py.Exception + TokenDir :=
  let token_path := token_path bucket_number in
  match lookup_file dir token_path with
  | Some Unparseable => inl Py.ValueError
  | Some Valid => inr dir
  | Some Expired | None =>
      match flow with
      | Refused e => inl e
      | Granted => inr (write_file dir token_path Valid)
      end
  end.

(** [os.listdir] returns the names of a directory "in arbitrary order":
    [listdir] stands for the order it returns them in. *)
Section Listing.
Variable listdir : TokenDir -> list string.

Definition get_all_authenticated_buckets (dir : TokenDir) : list string :=
  map bucket_id (filter (String.prefix "bucket_") (listdir dir)).

(** The number [add_new_bucket] announces ("Bucket n added.") and the
    directory afterwards, or what [authenticate_account] raises; then nothing
    is announced. *)
Definition add_new_bucket (dir : TokenDir) (flow : Flow) : Py.Exception + (nat * TokenDir) :=
  let bucket_number := (List.length (get_all_authenticated_buckets dir) + 1)%nat in
  match authenticate_account dir flow (Py.str_of_nat bucket_number) with
  | inl e => inl e
  | inr dir' => inr (bucket_number, dir')
  end.

End Listing.

(** [listdir] returns every name of the directory once. *)
Definition lists (listdir : TokenDir -> list string) : Prop :=
  forall dir : TokenDir, Permutation (listdir dir) (map fst dir).

(** No character of [s] is [c]. *)
Fixpoint without (c : ascii) (s : string) : bool :=
  match s with
  | EmptyString => true
  | String x s' => negb (Ascii.eqb x c) && without c s'
  end.

(** Every character of [s] is a decimal digit. *)
Fixpoint all_digits (s : string) : bool :=
  match s with
  | EmptyString => true
  | String x s' =>
      (Ascii.leb "0" x && Ascii.leb x "9") && all_digits s'
  end.

End Tokens.

(** The object [upload_chunk] creates for chunk [c] with the bytes [body]. *)
Definition chunk_object (mimetype : string) (cb : ChunkRecord * bytes) : DriveFile :=
  {| df_id := file_id (fst cb); df_name := chunk_name (fst cb); df_mime := mimetype;
     df_body := snd cb |}.

(** The chunks of [placed] that went to bucket [b]. *)
Definition on_bucket (b : string) (placed : list (ChunkRecord * bytes))
    : list (ChunkRecord * bytes) :=
  filter (fun cb => String.eqb (bucket (fst cb)) b) placed.

(** [placed] tells what a run of the chunk loop has put where: the chunks of
    the record [cs] with their bytes; each bucket holds what it held in [w0]
    followed by the objects of its chunks; every chunk is fetched by its id,
    is shorter than the file, sits on a bucket of [ids] and is named
    [name_part...]. *)
Definition placed_in (w0 w : World) (file : bytes) (name mimetype : string)
    (ids : list string) (cs : list ChunkRecord) (placed : list (ChunkRecord * bytes)) : Prop :=
  cs = map fst placed /\
  (forall b, drive_files (drive_of w b) =
             (drive_files (drive_of w0 b) ++ map (chunk_object mimetype) (on_bucket b placed))%list) /\
  (forall cb, In cb placed ->
     files_get (drive_of w (bucket (fst cb))) (file_id (fst cb))
       = Some (chunk_object mimetype cb) /\
     size (snd cb) < size file /\
     In (bucket (fst cb)) ids /\
     exists k, chunk_name (fst cb) = (name ++ part_suffix k)%string).

(** ** The turns of the chunk loop *)






(** * Properties *)

(** ** The stable sort *)

Section SortFacts.
Context {A : Type} (le : A -> A -> bool).

Lemma insert_perm (x : A) (l : list A) : Permutation (Py.insert le x l) (x :: l).
Proof.
  induction l as [|y l IH]; simpl.
  - apply Permutation_refl.
  - destruct (le x y).
    + apply Permutation_refl.
    + apply perm_trans with (y :: x :: l).
      * now apply perm_skip.
      * apply perm_swap.
Qed.

Lemma sort_by_perm (l : list A) : Permutation (Py.sort_by le l) l.
Proof.
  induction l as [|x l IH]; simpl.
  - apply perm_nil.
  - apply perm_trans with (x :: Py.sort_by le l).
    + apply insert_perm.
    + now apply perm_skip.
Qed.

Lemma sort_by_length (l : list A) : List.length (Py.sort_by le l) = List.length l.
Proof. apply Permutation_length, sort_by_perm. Qed.

(** A list whose neighbours are in order is left as it is. *)
Lemma sort_by_sorted (l : list A) :
  LocallySorted (fun x y => le x y = true) l -> Py.sort_by le l = l.
Proof.
  induction 1 as [|x|x y l Hs IH Hxy]; simpl in *; try reflexivity.
  rewrite IH. simpl. now rewrite Hxy.
Qed.

Hypothesis le_total : forall x y, le x y = true \/ le y x = true.
Hypothesis le_trans : forall x y z, le x y = true -> le y z = true -> le x z = true.

Lemma insert_sorted (x : A) (l : list A) :
  StronglySorted (fun a b => le a b = true) l ->
  StronglySorted (fun a b => le a b = true) (Py.insert le x l).
Proof.
  induction 1 as [|y l Hs IH Hy]; simpl.
  - constructor; constructor.
  - destruct (le x y) eqn:Hxy.
    + constructor.
      * now constructor.
      * constructor; [assumption|].
        eapply Forall_impl; [|exact Hy]. intros z Hz. now apply le_trans with y.
    + constructor; [assumption|].
      eapply Permutation_Forall.
      * symmetry. apply insert_perm.
      * constructor; [|assumption].
        destruct (le_total x y) as [H|H]; [congruence|assumption].
Qed.

Lemma sort_by_strongly_sorted (l : list A) :
  StronglySorted (fun a b => le a b = true) (Py.sort_by le l).
Proof.
  induction l as [|x l IH]; simpl.
  - constructor.
  - now apply insert_sorted.
Qed.
End SortFacts.

Lemma sort_desc_perm (t : list (Z * string)) : Permutation (sort_desc t) t.
Proof. apply sort_by_perm. Qed.

Lemma sort_asc_perm (t : list (Z * string)) : Permutation (sort_asc t) t.
Proof. apply sort_by_perm. Qed.

Lemma sort_desc_sorted (t : list (Z * string)) :
  StronglySorted (fun a b => (fst a >=? fst b) = true) (sort_desc t).
Proof.
  apply sort_by_strongly_sorted.
  - intros x y. rewrite !Z.geb_le. lia.
  - intros x y z. rewrite !Z.geb_le. lia.
Qed.

Lemma sort_asc_sorted (t : list (Z * string)) :
  StronglySorted (fun a b => (fst a <=? fst b) = true) (sort_asc t).
Proof.
  apply sort_by_strongly_sorted.
  - intros x y. rewrite !Z.leb_le. lia.
  - intros x y z. rewrite !Z.leb_le. lia.
Qed.

(** The head of the descending sort carries the largest free space. *)
Lemma sort_desc_head (t : list (Z * string)) (f : Z) (b : string) (rest : list (Z * string)) :
  sort_desc t = (f, b) :: rest ->
  In (f, b) t /\ forall e, In e t -> fst e <= f.
Proof.
  intros Hs. split.
  - apply (Permutation_in _ (sort_desc_perm t)). rewrite Hs. now left.
  - intros e He.
    apply (Permutation_in _ (Permutation_sym (sort_desc_perm t))) in He.
    pose proof (sort_desc_sorted t) as Hsorted. rewrite Hs in Hsorted, He.
    inversion Hsorted as [|? ? _ Hall]; subst.
    destruct He as [<-|He]; [simpl; lia|].
    rewrite Forall_forall in Hall. specialize (Hall e He). simpl in Hall.
    now apply Z.geb_le in Hall.
Qed.

Lemma table_sum_perm (t t' : list (Z * string)) :
  Permutation t t' -> table_sum t = table_sum t'.
Proof.
  unfold table_sum. induction 1; simpl; lia.
Qed.

(** ** The snapshot *)

Lemma snapshot_spec (w : World) (buckets : list string) (acc : list (Z * string)) (t : Z) :
  snapshot w buckets acc t =
  (acc ++ map (fun b => (reported_free w b, b))
            (filter (fun b => reported_free w b >? 0) buckets),
   t + fold_right Z.add 0 (map (reported_free w) buckets)).
Proof.
  revert acc t. induction buckets as [|b rest IH]; intros acc t; simpl.
  - now rewrite app_nil_r, Z.add_0_r.
  - rewrite IH. destruct (reported_free w b >? 0); simpl.
    + rewrite <- app_assoc. simpl. f_equal. lia.
    + f_equal. lia.
Qed.

Lemma snapshot_listing (w : World) :
  snapshot w (get_all_authenticated_buckets w) [] 0 = (candidates w, total_free w).
Proof.
  unfold get_all_authenticated_buckets. rewrite snapshot_spec. reflexivity.
Qed.

Lemma candidates_In (w : World) (f : Z) (b : string) :
  In (f, b) (candidates w) <->
  In b (bucket_listing w) /\ f = reported_free w b /\ 0 < f.
Proof.
  unfold candidates. rewrite in_map_iff. split.
  - intros (b' & Heq & Hin). inversion Heq; subst.
    apply filter_In in Hin. destruct Hin as [Hin Hpos].
    apply Z.gtb_lt in Hpos. auto.
  - intros (Hin & -> & Hpos). exists b. split; [reflexivity|].
    apply filter_In. split; [assumption|]. now apply Z.gtb_lt.
Qed.

(** The positive reports alone make up at least the total. *)
Lemma total_free_le_candidates (w : World) : total_free w <= table_sum (candidates w).
Proof.
  unfold total_free, candidates, table_sum.
  induction (bucket_listing w) as [|b l IH]; simpl; [lia|].
  destruct (reported_free w b >? 0) eqn:H; simpl.
  - lia.
  - rewrite Z.gtb_ltb in H. apply Z.ltb_ge in H. lia.
Qed.

(** ** The pre-flight check and the whole-file path *)

(** C3 (pre-flight guarantee).  When the free space of all buckets together is
    less than the size of the file, [upload_file] prints "Not enough space."
    and returns with the world as it found it: no account has a new object and
    the metadata document is the one that was there. *)
Theorem preflight_rejects (w : World) (file : bytes) (name mimetype : string) :
  total_free w < size file ->
  upload_file w file name mimetype = (w, NotEnoughSpace).
Proof.
  intros H. unfold upload_file. rewrite snapshot_listing.
  apply Z.ltb_lt in H. now rewrite H.
Qed.

Lemma preflight_rejects_witness :
  total_free two_small < size six_bytes /\
  upload_file two_small six_bytes "f" "m" = (two_small, NotEnoughSpace).
Proof.
  split.
  - vm_compute. reflexivity.
  - apply (preflight_rejects two_small six_bytes "f" "m"). vm_compute. reflexivity.
Defined.

Lemma candidates_nil (w : World) :
  (forall b, In b (bucket_listing w) -> reported_free w b <= 0) -> candidates w = [].
Proof.
  intros H. destruct (candidates w) as [|[f b] rest] eqn:E; [reflexivity|].
  assert (Hin : In (f, b) (candidates w)) by (rewrite E; now left).
  apply candidates_In in Hin. destruct Hin as (Hin & -> & Hpos).
  specialize (H b Hin). lia.
Qed.

(** C10, as stated, fails where a bucket reports less than nothing: its only
    bucket is 5 bytes over its quota, every report is [<= 0], and the zero-byte
    upload is turned away by the pre-flight check, with no [IndexError]. *)
Lemma empty_file_over_quota :
  (forall b, In b (bucket_listing over_quota) -> reported_free over_quota b <= 0) /\
  upload_file over_quota [] "f" "m" = (over_quota, NotEnoughSpace) /\
  snd (upload_file over_quota [] "f" "m") <> UploadRaised Py.IndexError.
Proof.
  split; [|split].
  - intros b [<-|[]]. vm_compute. discriminate.
  - reflexivity.
  - vm_compute. discriminate.
Qed.

(** C10 (amended).  A zero-byte file, every bucket reporting [free <= 0], and
    the reports summing to no less than 0 (so each reports exactly 0, or there
    is no bucket): the pre-flight check passes, the candidate list is empty and
    [free_space[0]] raises [IndexError]; nothing was written. *)
Theorem empty_file_index_error (w : World) (name mimetype : string) :
  (forall b, In b (bucket_listing w) -> reported_free w b <= 0) ->
  0 <= total_free w ->
  candidates w = [] /\
  upload_file w [] name mimetype = (w, UploadRaised Py.IndexError).
Proof.
  intros Hall Htot. pose proof (candidates_nil w Hall) as Hc. split; [assumption|].
  unfold upload_file. rewrite snapshot_listing, Hc.
  replace (total_free w <? size []) with false; [reflexivity|].
  symmetry. apply Z.ltb_ge. exact Htot.
Qed.

Lemma empty_file_index_error_witness :
  candidates all_full = [] /\
  upload_file all_full [] "f" "m" = (all_full, UploadRaised Py.IndexError).
Proof.
  apply (empty_file_index_error all_full "f" "m").
  - intros b [<-|[<-|[]]]; vm_compute; discriminate.
  - vm_compute. discriminate.
Defined.

(** C7, as stated, fails in two places.  With every bucket reporting 0 bytes a
    zero-byte file fits "some bucket" ([0 >= 0]) yet the upload raises
    [IndexError]; and with bucket 1 reporting 10 bytes and bucket 2 being 8
    bytes over its quota, a 5-byte file fits bucket 1 yet the pre-flight check
    ([10 - 8 < 5]) turns the upload away. *)
Lemma whole_file_not_written :
  (exists b, In b (bucket_listing all_full) /\ size [] <= reported_free all_full b) /\
  upload_file all_full [] "f" "m" = (all_full, UploadRaised Py.IndexError) /\
  (exists b, In b (bucket_listing one_negative) /\
             size five_bytes <= reported_free one_negative b) /\
  upload_file one_negative five_bytes "f" "m" = (one_negative, NotEnoughSpace).
Proof.
  repeat split.
  - exists "1"%string. split; [now left|]. vm_compute. discriminate.
  - exists "1"%string. split; [now left|]. vm_compute. discriminate.
Qed.

Lemma files_create_ok (d d' : Drive) (name mime : string) (body : bytes) (id : nat) :
  files_create d name mime body = inr (id, d') ->
  id = fresh_id d /\
  drive_files d' =
    (drive_files d ++ [{| df_id := id; df_name := name; df_mime := mime; df_body := body |}])%list.
Proof.
  unfold files_create. destruct (create_fault d); [discriminate|].
  destruct (room d <? size body); [discriminate|].
  intros H. inversion H; subst. simpl. auto.
Qed.

(** C7 (amended).  When the pre-flight check passes and some bucket reports
    free space that is positive and at least the size of the file, the upload
    goes to a bucket [best] whose report is the largest of all, as one object
    named as the file and holding all its bytes; when the account accepts it,
    the record appended to the metadata has exactly one chunk, named as the
    file (a metadata document that is not text makes the update raise
    [UnicodeDecodeError] instead, the object being stored).  When the account
    refuses, its error leaves [upload_file]. *)
Theorem whole_file_fast_path (w : World) (file : bytes) (name mimetype b : string) :
  In b (bucket_listing w) ->
  0 < reported_free w b ->
  size file <= reported_free w b ->
  size file <= total_free w ->
  exists best,
    In best (bucket_listing w) /\
    (forall b', In b' (bucket_listing w) -> reported_free w b' <= reported_free w best) /\
    (forall id service',
        files_create (authenticate_account w best) name mimetype file = inr (id, service') ->
        drive_files service' =
          (drive_files (authenticate_account w best) ++
             [{| df_id := id; df_name := name; df_mime := mimetype; df_body := file |}])%list) /\
    upload_file w file name mimetype =
      match files_create (authenticate_account w best) name mimetype file with
      | inl e => (w, UploadRaised e)
      | inr (id, service') =>
          match metadata_file w with
          | MetaUndecodable =>
              (set_drive w best service', UploadRaised Py.UnicodeDecodeError)
          | _ =>
              (set_metadata (set_drive w best service')
                 (MetaList (existing_metadata (metadata_file w) ++
                              [{| file_name := name;
                                  chunks := [{| chunk_name := name; file_id := id;
                                                bucket := best |}] |}])),
               UploadComplete)
          end
      end.
Proof.
  intros Hin Hpos Hfit Htot.
  assert (Hcand : In (reported_free w b, b) (candidates w))
    by (apply candidates_In; auto).
  destruct (sort_desc (candidates w)) as [|[f best] rest] eqn:Hs.
  - apply (Permutation_in _ (Permutation_sym (sort_desc_perm _))) in Hcand.
    rewrite Hs in Hcand. destruct Hcand.
  - destruct (sort_desc_head _ _ _ _ Hs) as [Hbest Hmax].
    apply candidates_In in Hbest. destruct Hbest as (Hbin & Hf & Hfpos).
    exists best. split; [assumption|]. split; [|split].
    + intros b' Hb'. rewrite <- Hf.
      destruct (Z_lt_le_dec 0 (reported_free w b')) as [Hp|Hn]; [|lia].
      apply (Hmax (reported_free w b', b')). apply candidates_In; auto.
    + intros id service' Hc. now apply files_create_ok in Hc.
    + unfold upload_file. rewrite snapshot_listing, Hs.
      replace (total_free w <? size file) with false by (symmetry; apply Z.ltb_ge; lia).
      specialize (Hmax _ Hcand). simpl in Hmax.
      replace (f >=? size file) with true by (symmetry; apply Z.geb_le; lia).
      destruct (files_create (authenticate_account w best) name mimetype file)
        as [e|[id service']]; [reflexivity|].
      unfold update_metadata. cbn [metadata_file set_drive].
      destruct (metadata_file w); reflexivity.
Qed.

Lemma whole_file_fast_path_witness :
  exists best,
    In best (bucket_listing ten_and_five) /\
    (forall b', In b' (bucket_listing ten_and_five) ->
                reported_free ten_and_five b' <= reported_free ten_and_five best) /\
    (forall id service',
        files_create (authenticate_account ten_and_five best) "f" "m" six_bytes
          = inr (id, service') ->
        drive_files service' =
          (drive_files (authenticate_account ten_and_five best) ++
             [{| df_id := id; df_name := "f"; df_mime := "m"; df_body := six_bytes |}])%list) /\
    upload_file ten_and_five six_bytes "f" "m" =
      match files_create (authenticate_account ten_and_five best) "f" "m" six_bytes with
      | inl e => (ten_and_five, UploadRaised e)
      | inr (id, service') =>
          match metadata_file ten_and_five with
          | MetaUndecodable =>
              (set_drive ten_and_five best service', UploadRaised Py.UnicodeDecodeError)
          | _ =>
              (set_metadata (set_drive ten_and_five best service')
                 (MetaList (existing_metadata (metadata_file ten_and_five) ++
                              [{| file_name := "f";
                                  chunks := [{| chunk_name := "f"; file_id := id;
                                                bucket := best |}] |}])),
               UploadComplete)
          end
      end.
Proof.
  apply (whole_file_fast_path ten_and_five six_bytes "f" "m" "A").
  - now left.
  - vm_compute. reflexivity.
  - vm_compute. discriminate.
  - vm_compute. discriminate.
Defined.

(** ** Defects *)

(** C2 (numeric chunk ordering), at a failing input.  Ten buckets of one free
    byte and a ten-byte file: the upload records [f_part1 ... f_part10] in
    creation order, and the download merges the chunk files in the order
    [sorted] gives their names, [f_part10] between [f_part1] and [f_part2]:
    the tenth byte comes out second. *)
Theorem ten_chunks_merged_by_name :
  (let w := fst (upload_file ten_singles ten_bytes "f" "m") in
   option_map (fun r => map chunk_name (chunks r)) (last_record w) =
     Some ["f_part1"; "f_part2"; "f_part3"; "f_part4"; "f_part5"; "f_part6"; "f_part7";
           "f_part8"; "f_part9"; "f_part10"]%string) /\
  Py.sorted ["f_part1"; "f_part2"; "f_part3"; "f_part4"; "f_part5"; "f_part6"; "f_part7";
             "f_part8"; "f_part9"; "f_part10"]%string =
    ["f_part1"; "f_part10"; "f_part2"; "f_part3"; "f_part4"; "f_part5"; "f_part6";
     "f_part7"; "f_part8"; "f_part9"]%string /\
  round_trip ten_singles ten_bytes "f" "m" =
    (UploadComplete, FileDownloaded,
     Some [x01; x0a; x02; x03; x04; x05; x06; x07; x08; x09]).
Proof. repeat split; vm_compute; reflexivity. Qed.

(** A chunk refused for quota ends the upload: the entry is set to 0, the
    inner loop is left with [file_id] still [None], and [RuntimeError] is
    raised.  No other bucket is tried. *)
Lemma chunk_loop_quota (fuel : nat) (w : World) (file : bytes) (name mimetype : string)
    (file_size : Z) (free_space : list (Z * string)) (offset : Z) (chunk_index : nat)
    (chunks : list ChunkRecord) (i : nat) (bucket_free : Z) (b : string) :
  offset < file_size ->
  select_bucket (sort_asc free_space) 0 = Some (i, bucket_free, b) ->
  Py.falsy b = false ->
  upload_chunk (authenticate_account w b)
    (read_at file offset (Z.min bucket_free (file_size - offset))) mimetype name chunk_index
    = inl (Py.HttpError true) ->
  chunk_loop (S fuel) w file name mimetype file_size free_space offset chunk_index chunks
    = LoopRaised w Py.RuntimeError.
Proof.
  intros Hlt Hsel Hb Hup. simpl.
  apply Z.ltb_lt in Hlt. rewrite Hlt, Hsel, Hb, Hup. reflexivity.
Qed.

(** C4 (quota failover), at a failing input.  Bucket 1 reports 10 free bytes
    but refuses the write for quota; buckets 2 and 3 hold 20 bytes together,
    enough for the 15-byte file.  The upload raises [RuntimeError]; nothing is
    written to buckets 2 and 3 and no record is appended. *)
Theorem quota_failure_not_retried :
  reported_free one_stale "2" + reported_free one_stale "3" >= size fifteen_bytes /\
  upload_file one_stale fifteen_bytes "f" "m" = (one_stale, UploadRaised Py.RuntimeError).
Proof. split; vm_compute; [discriminate|reflexivity]. Qed.

(** The [break] of the chunk loop: with bytes left and no entry above 0 the
    loop is left with the chunks written so far. *)
Lemma chunk_loop_exhausted (fuel : nat) (w : World) (file : bytes) (name mimetype : string)
    (file_size : Z) (free_space : list (Z * string)) (offset : Z) (chunk_index : nat)
    (chunks : list ChunkRecord) :
  offset < file_size ->
  (forall e, In e free_space -> fst e <= 0) ->
  chunk_loop (S fuel) w file name mimetype file_size free_space offset chunk_index chunks
    = LoopExit w chunks.
Proof.
  intros Hlt Hall. simpl. apply Z.ltb_lt in Hlt. rewrite Hlt.
  assert (Hs : forall e, In e (sort_asc free_space) -> fst e <= 0).
  { intros e He. apply Hall. now apply (Permutation_in _ (sort_asc_perm free_space)). }
  assert (Hnone : forall t k, (forall e, In e t -> fst e <= 0) -> select_bucket t k = None).
  { induction t as [|[f b] t IH]; intros k Ht; simpl; [reflexivity|].
    replace (f >? 0) with false.
    - apply IH. intros e He. apply Ht. now right.
    - symmetry. rewrite Z.gtb_ltb. apply Z.ltb_ge. apply (Ht (f, b)). now left. }
  now rewrite Hnone.
Qed.

(** A bucket whose id is the empty string (TOKEN_DIR holds [bucket_.json]).
    Bucket 1 has 3 bytes free and the bucket [''] has 5: after one 3-byte
    chunk of an 8-byte file the selection finds the entry of [''], which
    [if not selected_bucket] takes for no bucket at all; the loop is left by
    its [break] and the metadata update below it still runs: a record with
    that one chunk is appended and the upload reports completion. *)
Lemma empty_id_upload_recorded :
  snd (upload_file unnamed_bucket eight_bytes "f" "m") = UploadComplete /\
  metadata_file (fst (upload_file unnamed_bucket eight_bytes "f" "m")) =
    MetaList [{| file_name := "f";
                 chunks := [{| chunk_name := "f_part1"; file_id := 1; bucket := "1" |}] |}] /\
  map df_body (drive_files (drive_of (fst (upload_file unnamed_bucket eight_bytes "f" "m")) "1"))
    = [[x01; x02; x03]] /\
  drive_files (drive_of (fst (upload_file unnamed_bucket eight_bytes "f" "m")) "") = [].
Proof. repeat split. Qed.

(** C9 (fallback scan), at a failing input.  The 12-byte file is uploaded in
    two chunks, [f_part1] (5 bytes) to B and [f_part2] (7 bytes) to A; then the
    metadata document is lost.  The scan asks A first, finds [f_part2] there,
    merges what A holds and returns: the file it leaves has the last 7 bytes
    only. *)
Theorem scan_stops_at_first_bucket :
  let w := fst (upload_file ten_and_five twelve_bytes "f" "m") in
  map df_name (drive_files (drive_of w "A")) = ["f_part2"%string] /\
  map df_name (drive_files (drive_of w "B")) = ["f_part1"%string] /\
  let '(dir, down) := download_from_all_buckets (set_metadata w MetaMissing) "f" no_files in
  down = ScanMerged /\
  dir "f"%string = Some [x06; x07; x08; x09; x0a; x0b; x0c].
Proof. vm_compute. repeat split. Qed.

(** ** The metadata update *)

(** The metadata update completes exactly when the document is text. *)
Lemma update_metadata_decodable (w : World) (r : FileRecord) :
  metadata_file w <> MetaUndecodable ->
  update_metadata w r =
    (set_metadata w (MetaList (existing_metadata (metadata_file w) ++ [r])), UploadComplete).
Proof.
  unfold update_metadata. destruct (metadata_file w); intros H; try reflexivity.
  now contradiction H.
Qed.

Lemma update_metadata_undecodable (w : World) (r : FileRecord) :
  metadata_file w = MetaUndecodable ->
  update_metadata w r = (w, UploadRaised Py.UnicodeDecodeError).
Proof. unfold update_metadata. now intros ->. Qed.

Lemma update_metadata_frame (w : World) (r : FileRecord) :
  bucket_listing (fst (update_metadata w r)) = bucket_listing w /\
  drive_of (fst (update_metadata w r)) = drive_of w /\
  (snd (update_metadata w r) <> UploadComplete ->
   metadata_file (fst (update_metadata w r)) = metadata_file w) /\
  (snd (update_metadata w r) = UploadComplete ->
   metadata_file (fst (update_metadata w r)) =
     MetaList (existing_metadata (metadata_file w) ++ [r])).
Proof.
  unfold update_metadata.
  destruct (metadata_file w) eqn:Hm; cbn [fst snd bucket_listing drive_of metadata_file set_metadata];
    repeat split; try reflexivity; try discriminate; try (intros H; now contradiction H);
    auto.
Qed.

Lemma update_metadata_outcome (w : World) (r : FileRecord) :
  snd (update_metadata w r) = UploadComplete \/
  snd (update_metadata w r) = UploadRaised Py.UnicodeDecodeError.
Proof. unfold update_metadata. destruct (metadata_file w); auto. Qed.

Lemma update_metadata_returns (w : World) (r : FileRecord) :
  snd (update_metadata w r) <> UploadDiverged.
Proof. unfold update_metadata. destruct (metadata_file w); discriminate. Qed.

Lemma update_metadata_complete (w : World) (r : FileRecord) (w' : World) :
  update_metadata w r = (w', UploadComplete) ->
  w' = set_metadata w (MetaList (existing_metadata (metadata_file w) ++ [r])).
Proof.
  unfold update_metadata. destruct (metadata_file w); intros H; now inversion H.
Qed.

Lemma update_metadata_text (w : World) (r : FileRecord) (w' : World) :
  update_metadata w r = (w', UploadComplete) -> metadata_file w <> MetaUndecodable.
Proof.
  unfold update_metadata. destruct (metadata_file w); intros H; now inversion H.
Qed.


Lemma chunk_loop_metadata (m : MetadataFile) (file : bytes) (name mimetype : string)
    (file_size : Z) (fuel : nat) :
  forall (w : World) (free_space : list (Z * string)) (offset : Z) (chunk_index : nat)
         (chunks : list ChunkRecord),
  chunk_loop fuel (set_metadata w m) file name mimetype file_size free_space offset
    chunk_index chunks =
  match chunk_loop fuel w file name mimetype file_size free_space offset chunk_index chunks with
  | LoopExit w' c => LoopExit (set_metadata w' m) c
  | LoopRaised w' e => LoopRaised (set_metadata w' m) e
  | LoopFuel => LoopFuel
  end.
Proof.
  induction fuel as [|fuel IH]; intros w free_space offset chunk_index chunks;
    [reflexivity|].
  cbn [chunk_loop]. destruct (offset <? file_size); [|reflexivity].
  destruct (select_bucket (sort_asc free_space) 0) as [[[i f] b]|]; [|reflexivity].
  destruct (Py.falsy b); [reflexivity|].
  change (authenticate_account (set_metadata w m) b) with (authenticate_account w b).
  destruct (upload_chunk (authenticate_account w b)
              (read_at file offset (Z.min f (file_size - offset))) mimetype name chunk_index)
    as [[| | | | |[|]| |]|[id service']]; try reflexivity.
  apply (IH (set_drive w b service')).
Qed.

(** ** The chunk loop *)

Lemma read_at_size (file : bytes) (offset n : Z) :
  0 <= offset -> 0 <= n -> offset + n <= size file -> size (read_at file offset n) = n.
Proof.
  unfold size, read_at. intros Ho Hn Hle.
  rewrite length_firstn, length_skipn. lia.
Qed.

Lemma upload_chunk_ok (d : Drive) (chunk : bytes) (mimetype name : string) (chunk_index : nat) :
  create_fault d = false ->
  size chunk <= room d ->
  upload_chunk d chunk mimetype name chunk_index =
    inr (fresh_id d,
         {| about_ok := about_ok d;
            quota_limit := quota_limit d;
            quota_usage := quota_usage d + size chunk;
            room := room d - size chunk;
            create_fault := create_fault d;
            drive_files := drive_files d ++
              [{| df_id := fresh_id d;
                  df_name := (name ++ "_part" ++ Py.str_of_nat (chunk_index + 1))%string;
                  df_mime := mimetype;
                  df_body := chunk |}] |}).
Proof.
  intros Hf Hr. unfold upload_chunk, files_create. rewrite Hf.
  replace (room d <? size chunk) with false by (symmetry; apply Z.ltb_ge; lia).
  reflexivity.
Qed.

(** What the selection scan returns: the entries before the selected one are
    not above 0, the selected one is. *)
Lemma select_bucket_spec (t : list (Z * string)) :
  forall (k i : nat) (f : Z) (b : string),
  select_bucket t k = Some (i, f, b) ->
  exists pre post,
    t = (pre ++ (f, b) :: post)%list /\ i = (k + List.length pre)%nat /\ 0 < f /\
    forall e, In e pre -> fst e <= 0.
Proof.
  induction t as [|[f0 b0] t IH]; intros k i f b H; simpl in H; [discriminate|].
  destruct (f0 >? 0) eqn:Hpos.
  - inversion H; subst. exists [], t. simpl. repeat split.
    + lia.
    + now apply Z.gtb_lt.
    + intros e [].
  - destruct (IH _ _ _ _ H) as (pre & post & -> & -> & Hf & Hpre).
    exists ((f0, b0) :: pre), post. simpl. repeat split.
    + lia.
    + assumption.
    + intros e [<-|He]; [|now apply Hpre].
      simpl. rewrite Z.gtb_ltb in Hpos. now apply Z.ltb_ge in Hpos.
Qed.

Lemma select_bucket_nth (t : list (Z * string)) (i : nat) (f : Z) (b : string) :
  select_bucket t 0 = Some (i, f, b) -> nth_error t i = Some (f, b).
Proof.
  intros H. destruct (select_bucket_spec _ _ _ _ _ H) as (pre & post & -> & -> & _ & _).
  simpl. rewrite nth_error_app2 by lia. now rewrite Nat.sub_diag.
Qed.

(** On the table sorted by free space the selected entry is the smallest of
    those above 0. *)
Lemma select_smallest (free_space : list (Z * string)) (i : nat) (f : Z) (b : string) :
  select_bucket (sort_asc free_space) 0 = Some (i, f, b) ->
  0 < f /\ In (f, b) free_space /\
  forall e, In e free_space -> 0 < fst e -> f <= fst e.
Proof.
  intros H. destruct (select_bucket_spec _ _ _ _ _ H) as (pre & post & Ht & _ & Hf & Hpre).
  pose proof (sort_asc_sorted free_space) as Hsorted. rewrite Ht in Hsorted.
  split; [assumption|]. split.
  - apply (Permutation_in _ (sort_asc_perm free_space)). rewrite Ht.
    apply in_or_app. right. now left.
  - intros e He Hpos.
    apply (Permutation_in _ (Permutation_sym (sort_asc_perm free_space))) in He.
    rewrite Ht in He. apply in_app_or in He. destruct He as [He|[<-|He]].
    + specialize (Hpre e He). lia.
    + simpl. lia.
    + clear - Hsorted He. induction pre as [|p pre IH]; simpl in Hsorted.
      * inversion Hsorted as [|? ? _ Hall]; subst.
        rewrite Forall_forall in Hall. specialize (Hall e He).
        simpl in Hall. now apply Z.leb_le in Hall.
      * inversion Hsorted; subst. auto.
Qed.

Lemma chunk_loop_done (fuel : nat) (w : World) (file : bytes) (name mimetype : string)
    (file_size : Z) (free_space : list (Z * string)) (offset : Z) (chunk_index : nat)
    (chunks : list ChunkRecord) :
  file_size <= offset ->
  chunk_loop (S fuel) w file name mimetype file_size free_space offset chunk_index chunks
    = LoopExit w chunks.
Proof.
  intros H. cbn [chunk_loop].
  replace (offset <? file_size) with false by (symmetry; apply Z.ltb_ge; lia).
  reflexivity.
Qed.

(** One turn of the loop whose chunk is accepted. *)
Lemma chunk_loop_step (fuel : nat) (w : World) (file : bytes) (name mimetype : string)
    (file_size : Z) (free_space : list (Z * string)) (offset : Z) (chunk_index : nat)
    (chunks : list ChunkRecord) (i : nat) (bucket_free : Z) (b : string)
    (id : nat) (service' : Drive) :
  offset < file_size ->
  select_bucket (sort_asc free_space) 0 = Some (i, bucket_free, b) ->
  Py.falsy b = false ->
  upload_chunk (authenticate_account w b)
    (read_at file offset (Z.min bucket_free (file_size - offset))) mimetype name chunk_index
    = inr (id, service') ->
  chunk_loop (S fuel) w file name mimetype file_size free_space offset chunk_index chunks =
  chunk_loop fuel (set_drive w b service') file name mimetype file_size
    (set_free (sort_asc free_space) i
       (bucket_free - Z.min bucket_free (file_size - offset)))
    (offset + Z.min bucket_free (file_size - offset)) (S chunk_index)
    (chunks ++ [{| chunk_name := (name ++ "_part" ++ Py.str_of_nat (chunk_index + 1))%string;
                   file_id := id;
                   bucket := b |}]).
Proof.
  intros Hlt Hsel Hb Hup. cbn [chunk_loop].
  apply Z.ltb_lt in Hlt. rewrite Hlt, Hsel, Hb, Hup. reflexivity.
Qed.

Lemma read_at_all (file : bytes) : read_at file 0 (size file) = file.
Proof.
  unfold read_at, size. rewrite Nat2Z.id. simpl. apply firstn_all.
Qed.

Lemma read_at_app (file : bytes) (offset a b : Z) :
  0 <= offset -> 0 <= a -> 0 <= b ->
  (read_at file offset a ++ read_at file (offset + a) b)%list = read_at file offset (a + b).
Proof.
  intros Ho Ha Hb. unfold read_at.
  rewrite !Z2Nat.inj_add by lia.
  rewrite (Nat.add_comm (Z.to_nat offset) (Z.to_nat a)), <- skipn_skipn.
  generalize (skipn (Z.to_nat offset) file). intros l.
  generalize (Z.to_nat a) (Z.to_nat b). clear. intros n m. revert l.
  induction n as [|n IH]; intros l; simpl; [reflexivity|].
  destruct l as [|x l]; simpl.
  - now destruct m.
  - now rewrite IH.
Qed.

(** One turn of the loop against an account that takes the chunk. *)
Lemma chunk_loop_step_ok (fuel : nat) (w : World) (file : bytes) (name mimetype : string)
    (free_space : list (Z * string)) (offset : Z) (chunk_index : nat)
    (chunks : list ChunkRecord) (i : nat) (bucket_free chunk_size : Z) (b : string) :
  0 <= offset ->
  offset < size file ->
  select_bucket (sort_asc free_space) 0 = Some (i, bucket_free, b) ->
  Py.falsy b = false ->
  chunk_size = Z.min bucket_free (size file - offset) ->
  create_fault (authenticate_account w b) = false ->
  chunk_size <= room (authenticate_account w b) ->
  chunk_loop (S fuel) w file name mimetype (size file) free_space offset chunk_index chunks =
  chunk_loop fuel
    (set_drive w b
       {| about_ok := about_ok (authenticate_account w b);
          quota_limit := quota_limit (authenticate_account w b);
          quota_usage := quota_usage (authenticate_account w b)
                         + size (read_at file offset chunk_size);
          room := room (authenticate_account w b) - size (read_at file offset chunk_size);
          create_fault := create_fault (authenticate_account w b);
          drive_files := drive_files (authenticate_account w b) ++
            [{| df_id := fresh_id (authenticate_account w b);
                df_name := (name ++ "_part" ++ Py.str_of_nat (chunk_index + 1))%string;
                df_mime := mimetype;
                df_body := read_at file offset chunk_size |}] |})
    file name mimetype (size file)
    (set_free (sort_asc free_space) i (bucket_free - chunk_size))
    (offset + chunk_size) (S chunk_index)
    (chunks ++ [{| chunk_name := (name ++ "_part" ++ Py.str_of_nat (chunk_index + 1))%string;
                   file_id := fresh_id (authenticate_account w b);
                   bucket := b |}]).
Proof.
  intros Ho Hlt Hsel Hb Hc Hf Hr.
  destruct (select_bucket_spec _ _ _ _ _ Hsel) as (_ & _ & _ & _ & Hpos & _).
  assert (Hsz : size (read_at file offset chunk_size) = chunk_size)
    by (apply read_at_size; lia).
  subst chunk_size.
  pose proof (upload_chunk_ok (authenticate_account w b)
                (read_at file offset (Z.min bucket_free (size file - offset)))
                mimetype name chunk_index Hf) as Hup.
  rewrite Hsz in Hup. specialize (Hup Hr).
  rewrite Hsz.
  pose proof (chunk_loop_step fuel w file name mimetype (size file) free_space offset
                chunk_index chunks i bucket_free b _ _ Hlt Hsel Hb Hup) as Hstep.
  rewrite Hstep. reflexivity.
Qed.




(** ** Chunk names and their order *)



Lemma append_inj (p x y : string) : (p ++ x)%string = (p ++ y)%string -> x = y.
Proof.
  induction p as [|c p IH]; simpl; intros H; [assumption|].
  inversion H. auto.
Qed.

Lemma append_empty (p : string) : (p ++ "")%string = p.
Proof. induction p as [|c p IH]; simpl; congruence. Qed.






Lemma part_suffix_not_empty (k : nat) : part_suffix k <> ""%string.
Proof. unfold part_suffix. discriminate. Qed.

Lemma part_names_other (name : string) (n : nat) : ~ In name (part_names name n).
Proof.
  unfold part_names. rewrite in_map_iff. intros (k & H & _).
  rewrite <- (append_empty name) in H at 2. apply append_inj in H.
  now apply part_suffix_not_empty in H.
Qed.
(** ** What an upload leaves on the accounts *)

Lemma fresh_id_unused (d : Drive) (f : DriveFile) :
  In f (drive_files d) -> Nat.eqb (df_id f) (fresh_id d) = false.
Proof.
  intros Hin. apply Nat.eqb_neq. unfold fresh_id.
  assert (H : (df_id f <= list_max (map df_id (drive_files d)))%nat).
  { pose proof (proj1 (list_max_le (map df_id (drive_files d)) _) (Nat.le_refl _)) as Hall.
    rewrite Forall_forall in Hall. apply Hall. now apply in_map. }
  lia.
Qed.

Lemma find_app_new (files : list DriveFile) (x : DriveFile) (id : nat) :
  (forall f, In f files -> Nat.eqb (df_id f) id = false) ->
  Nat.eqb (df_id x) id = true ->
  find (fun f => Nat.eqb (df_id f) id) (files ++ [x]) = Some x.
Proof.
  induction files as [|y files IH]; intros Hall Hx; simpl.
  - now rewrite Hx.
  - rewrite (Hall y) by now left. apply IH; [|assumption].
    intros f Hf. apply Hall. now right.
Qed.

Lemma find_app_old (files : list DriveFile) (x f : DriveFile) (id : nat) :
  find (fun f => Nat.eqb (df_id f) id) files = Some f ->
  find (fun f => Nat.eqb (df_id f) id) (files ++ [x]) = Some f.
Proof.
  induction files as [|y files IH]; simpl; [discriminate|].
  destruct (Nat.eqb (df_id y) id); [trivial|exact IH].
Qed.

Lemma files_get_created (d d' : Drive) (name mime : string) (body : bytes) (id : nat) :
  files_create d name mime body = inr (id, d') ->
  files_get d' id =
    Some {| df_id := id; df_name := name; df_mime := mime; df_body := body |}.
Proof.
  intros H. destruct (files_create_ok _ _ _ _ _ _ H) as [-> Hfiles].
  unfold files_get. rewrite Hfiles. apply find_app_new.
  - intros f Hf. now apply fresh_id_unused.
  - simpl. apply Nat.eqb_refl.
Qed.

Lemma files_get_kept (d d' : Drive) (name mime : string) (body : bytes) (id id0 : nat)
    (f : DriveFile) :
  files_create d name mime body = inr (id, d') ->
  files_get d id0 = Some f -> files_get d' id0 = Some f.
Proof.
  intros H Hget. destruct (files_create_ok _ _ _ _ _ _ H) as [_ Hfiles].
  unfold files_get in *. rewrite Hfiles. now apply find_app_old.
Qed.

Lemma stored_kept (w : World) (c : ChunkRecord) (body0 : bytes) (b : string) (d' : Drive)
    (name mime : string) (body : bytes) (id : nat) :
  files_create (authenticate_account w b) name mime body = inr (id, d') ->
  stored w c body0 -> stored (set_drive w b d') c body0.
Proof.
  intros Hc (f & Hget & Hname & Hbody). exists f. repeat split; try assumption.
  change (files_get (if String.eqb (bucket c) b then d' else drive_of w (bucket c))
            (file_id c) = Some f).
  destruct (String.eqb_spec (bucket c) b) as [E|_]; [|assumption].
  rewrite E in Hget. eapply files_get_kept; eassumption.
Qed.

Lemma stored_new (w : World) (b : string) (d' : Drive) (name mime : string) (body : bytes)
    (id : nat) :
  files_create (authenticate_account w b) name mime body = inr (id, d') ->
  stored (set_drive w b d') {| chunk_name := name; file_id := id; bucket := b |} body.
Proof.
  intros Hc.
  exists {| df_id := id; df_name := name; df_mime := mime; df_body := body |}.
  split; [|split].
  - change (files_get (if String.eqb b b then d' else drive_of w b) id =
            Some {| df_id := id; df_name := name; df_mime := mime; df_body := body |}).
    rewrite String.eqb_refl. eapply files_get_created. exact Hc.
  - reflexivity.
  - reflexivity.
Qed.

(** ** The invariant of the chunk loop *)

Lemma table_sum_nonpos (t : list (Z * string)) :
  (forall e, In e t -> fst e <= 0) -> table_sum t <= 0.
Proof.
  unfold table_sum. induction t as [|e t IH]; intros H; simpl; [lia|].
  pose proof (H e (or_introl eq_refl)).
  assert (fold_right Z.add 0 (map fst t) <= 0) by (apply IH; intros; apply H; now right).
  lia.
Qed.

Lemma select_bucket_none (t : list (Z * string)) :
  forall k, select_bucket t k = None -> forall e, In e t -> fst e <= 0.
Proof.
  induction t as [|[f b] t IH]; intros k H e He; simpl in *; [contradiction|].
  destruct (f >? 0) eqn:Hf; [discriminate|].
  destruct He as [<-|He]; [|eapply IH; eassumption].
  simpl. rewrite Z.gtb_ltb in Hf. now apply Z.ltb_ge in Hf.
Qed.

Lemma set_free_In (t : list (Z * string)) :
  forall (i : nat) (v : Z) (e : Z * string),
  In e (set_free t i v) ->
  In e t \/ (fst e = v /\ exists old, In (old, snd e) t).
Proof.
  induction t as [|[f b] t IH]; intros i v e H; simpl in H; [contradiction|].
  destruct i as [|i]; simpl in H.
  - destruct H as [<-|H]; [|left; now right].
    right. split; [reflexivity|]. exists f. now left.
  - destruct H as [<-|H]; [left; now left|].
    destruct (IH _ _ _ H) as [Hin|[Hv [old Hold]]].
    + left. now right.
    + right. split; [assumption|]. exists old. now right.
Qed.

Lemma table_sum_set_free (t : list (Z * string)) :
  forall (i : nat) (v f : Z) (b : string),
  nth_error t i = Some (f, b) ->
  table_sum (set_free t i v) = table_sum t - f + v.
Proof.
  unfold table_sum.
  induction t as [|[f0 b0] t IH]; intros i v f b H; destruct i as [|i]; simpl in H;
    try discriminate.
  - inversion H; subst. simpl. lia.
  - simpl. rewrite (IH _ _ _ _ H). lia.
Qed.

Lemma falsy_named (b : string) : b <> ""%string -> Py.falsy b = false.
Proof. destruct b; [congruence|reflexivity]. Qed.

Lemma part_names_S (name : string) (n : nat) :
  part_names name (S n) = (part_names name n ++ [(name ++ part_suffix n)%string])%list.
Proof. unfold part_names. now rewrite seq_S, map_app. Qed.

(** A loop that ends without raising has placed every byte: the chunks it
    recorded are named [..._part1], [..._part2], ... in creation order, each
    can be fetched from its bucket, and their bodies, one after the other, are
    the file.  (With bytes left there is an entry above 0: the [break] is not
    taken.) *)
Lemma chunk_loop_complete (file : bytes) (name mimetype : string) (fuel : nat) :
  forall (w : World) (free_space : list (Z * string)) (offset : Z) (cs : list ChunkRecord)
         (bodies : list bytes) (w1 : World) (cs1 : list ChunkRecord),
  0 <= offset <= size file ->
  (forall e, In e free_space -> 0 <= fst e /\ snd e <> ""%string) ->
  size file - offset <= table_sum free_space ->
  map chunk_name cs = part_names name (List.length cs) ->
  Forall2 (stored w) cs bodies ->
  List.concat bodies = read_at file 0 offset ->
  chunk_loop fuel w file name mimetype (size file) free_space offset (List.length cs) cs
    = LoopExit w1 cs1 ->
  metadata_file w1 = metadata_file w /\
  map chunk_name cs1 = part_names name (List.length cs1) /\
  exists bodies1, Forall2 (stored w1) cs1 bodies1 /\ List.concat bodies1 = file.
Proof.
  induction fuel as [|fuel IH];
    intros w fs offset cs bodies w1 cs1 Ho Hfs Hsum Hnames Hst Hcat H; [discriminate|].
  cbn [chunk_loop] in H.
  destruct (offset <? size file) eqn:Hlt.
  - apply Z.ltb_lt in Hlt.
    destruct (select_bucket (sort_asc fs) 0) as [[[i f] b]|] eqn:Hsel.
    + destruct (select_smallest _ _ _ _ Hsel) as (Hpos & Hin & _).
      pose proof (select_bucket_nth _ _ _ _ Hsel) as Hnth.
      destruct (Hfs _ Hin) as [_ Hb]. simpl in Hb.
      rewrite (falsy_named _ Hb) in H.
      set (c := Z.min f (size file - offset)) in *.
      destruct (upload_chunk (authenticate_account w b) (read_at file offset c) mimetype
                  name (List.length cs)) as [e|[id d']] eqn:Hup.
      * destruct e as [| | | | |[|]| |]; discriminate.
      * assert (Hlen : S (List.length cs) =
                       List.length (cs ++ [{| chunk_name :=
                                                (name ++ "_part" ++
                                                 Py.str_of_nat (List.length cs + 1))%string;
                                              file_id := id; bucket := b |}]))
          by (rewrite length_app; simpl; lia).
        rewrite Hlen in H.
        apply (IH _ _ _ _ (bodies ++ [read_at file offset c])%list) in H.
        -- destruct H as (Hm & Hn & Hb1). split; [exact Hm|]. split; assumption.
        -- lia.
        -- intros e He. apply set_free_In in He.
           destruct He as [He|[Hv [old Hold]]].
           ++ apply Hfs. now apply (Permutation_in _ (sort_asc_perm fs)).
           ++ split; [lia|].
              apply (Permutation_in _ (sort_asc_perm fs)) in Hold.
              now destruct (Hfs _ Hold).
        -- rewrite (table_sum_set_free _ _ _ _ _ Hnth),
             (table_sum_perm _ _ (sort_asc_perm fs)). lia.
        -- rewrite map_app, <- Hlen, part_names_S, Hnames. reflexivity.
        -- apply Forall2_app.
           ++ eapply Forall2_impl; [|exact Hst].
              intros c0 b0 Hc0. eapply stored_kept; eassumption.
           ++ constructor; [|constructor]. eapply stored_new. exact Hup.
        -- rewrite concat_app, Hcat. simpl. rewrite app_nil_r.
           rewrite <- (read_at_app file 0 offset c) by lia. reflexivity.
    + exfalso.
      pose proof (select_bucket_none _ _ Hsel) as Hall.
      apply table_sum_nonpos in Hall.
      rewrite (table_sum_perm _ _ (sort_asc_perm fs)) in Hall. lia.
  - inversion H; subst. apply Z.ltb_ge in Hlt.
    assert (offset = size file) by lia. subst offset.
    split; [reflexivity|]. split; [assumption|].
    exists bodies. split; [assumption|]. rewrite Hcat. apply read_at_all.
Qed.

(** ** Reassembly *)









(** ** Round trip *)

Lemma upload_complete_inv (w : World) (file : bytes) (name mimetype : string) (w' : World) :
  upload_file w file name mimetype = (w', UploadComplete) ->
  size file <= total_free w /\
  ((exists best id service',
       files_create (authenticate_account w best) name mimetype file = inr (id, service') /\
       w' = set_metadata (set_drive w best service')
              (MetaList (existing_metadata (metadata_file w) ++
                           [{| file_name := name;
                               chunks := [{| chunk_name := name; file_id := id;
                                             bucket := best |}] |}]))) \/
   (exists w1 cs,
       chunk_loop (S (List.length (sort_desc (candidates w)))) w file name mimetype
         (size file) (sort_desc (candidates w)) 0 0 [] = LoopExit w1 cs /\
       w' = set_metadata w1
              (MetaList (existing_metadata (metadata_file w1) ++
                           [{| file_name := name; chunks := cs |}])))).
Proof.
  unfold upload_file. rewrite snapshot_listing.
  destruct (total_free w <? size file) eqn:Hpre; [discriminate|].
  apply Z.ltb_ge in Hpre. intros H. split; [assumption|].
  destruct (sort_desc (candidates w)) as [|[best_free best] rest]; [discriminate|].
  destruct (best_free >=? size file).
  - destruct (files_create (authenticate_account w best) name mimetype file)
      as [e|[id service']] eqn:Hc; [discriminate|].
    left. exists best, id, service'. split; [exact Hc|].
    now apply update_metadata_complete in H.
  - destruct (chunk_loop (S (List.length ((best_free, best) :: rest))) w file name mimetype
                (size file) ((best_free, best) :: rest) 0 0 []) as [w1 cs|w1 e|] eqn:Hl;
      try discriminate.
    right. exists w1, cs. split; [reflexivity|].
    now apply update_metadata_complete in H.
Qed.



Lemma uploaded_chunks_last (w : World) (l : list FileRecord) (r : FileRecord) :
  uploaded_chunks (set_metadata w (MetaList (l ++ [r]))) = chunks r.
Proof.
  unfold uploaded_chunks, last_record, set_metadata, existing_metadata.
  cbn [metadata_file]. rewrite map_app. cbn [map]. now rewrite last_last.
Qed.






(** ** The loop bound *)

Lemma count_pos_perm (t t' : list (Z * string)) :
  Permutation t t' -> count_pos t = count_pos t'.
Proof.
  induction 1 as [|[f b] t t' _ IH|[f b] [f' b'] t|t t' t'' _ IH1 _ IH2]; simpl.
  - reflexivity.
  - now rewrite IH.
  - destruct (f >? 0), (f' >? 0); reflexivity.
  - congruence.
Qed.

Lemma count_pos_le_length (t : list (Z * string)) : (count_pos t <= List.length t)%nat.
Proof.
  induction t as [|[f b] t IH]; simpl; [lia|]. destruct (f >? 0); lia.
Qed.

Lemma count_pos_set_free_zero (t : list (Z * string)) :
  forall (i : nat) (f : Z) (b : string),
  nth_error t i = Some (f, b) -> 0 < f ->
  S (count_pos (set_free t i 0)) = count_pos t.
Proof.
  induction t as [|[f0 b0] t IH]; intros i f b H Hf; destruct i as [|i]; simpl in H;
    try discriminate.
  - inversion H; subst. simpl.
    replace (f >? 0) with true by (symmetry; now apply Z.gtb_lt). reflexivity.
  - simpl. rewrite <- (IH _ _ _ H Hf). destruct (f0 >? 0); reflexivity.
Qed.

(** The bound [upload_file] gives the loop is enough: every turn either
    empties an entry or places the last byte. *)
Lemma chunk_loop_bound (file : bytes) (name mimetype : string) (file_size : Z) (fuel : nat) :
  forall (w : World) (free_space : list (Z * string)) (offset : Z) (chunk_index : nat)
         (chunks : list ChunkRecord),
  (file_size <= offset /\ (1 <= fuel)%nat) \/ (count_pos free_space < fuel)%nat ->
  chunk_loop fuel w file name mimetype file_size free_space offset chunk_index chunks
    <> LoopFuel.
Proof.
  induction fuel as [|fuel IH]; intros w fs offset chunk_index chunks H.
  - exfalso. destruct H as [[_ H]|H]; lia.
  - cbn [chunk_loop]. destruct (offset <? file_size) eqn:Hlt; [|discriminate].
    apply Z.ltb_lt in Hlt. destruct H as [[H _]|H]; [lia|].
    destruct (select_bucket (sort_asc fs) 0) as [[[i f] b]|] eqn:Hsel; [|discriminate].
    destruct (Py.falsy b); [discriminate|].
    destruct (upload_chunk (authenticate_account w b)
                (read_at file offset (Z.min f (file_size - offset))) mimetype name
                chunk_index) as [[| | | | |[|]| |]|[id d']]; try discriminate.
    destruct (select_smallest _ _ _ _ Hsel) as (Hpos & _ & _).
    pose proof (select_bucket_nth _ _ _ _ Hsel) as Hnth.
    pose proof (count_pos_set_free_zero _ _ _ _ Hnth Hpos) as Hcount.
    rewrite (count_pos_perm _ _ (sort_asc_perm fs)) in Hcount.
    apply IH.
    destruct (Z_le_gt_dec f (file_size - offset)) as [Hle|Hgt].
    + right. rewrite Z.min_l by assumption. rewrite Z.sub_diag. lia.
    + left. rewrite Z.min_r by lia. lia.
Qed.

(** X20.  [upload_file] always returns: the placement loop ends within one
    turn per candidate bucket and one more, since every turn either empties an
    entry of the free-space table or places the last byte. *)
Lemma upload_file_returns (w : World) (file : bytes) (name mimetype : string) :
  snd (upload_file w file name mimetype) <> UploadDiverged.
Proof.
  unfold upload_file. rewrite snapshot_listing.
  destruct (total_free w <? size file); [discriminate|].
  destruct (sort_desc (candidates w)) as [|[best_free best] rest]; [discriminate|].
  destruct (best_free >=? size file).
  - destruct (files_create (authenticate_account w best) name mimetype file)
      as [e|[id service']]; [discriminate|apply update_metadata_returns].
  - pose proof (chunk_loop_bound file name mimetype (size file)
                  (S (List.length ((best_free, best) :: rest))) w
                  ((best_free, best) :: rest) 0 0 []) as Hb.
    destruct (chunk_loop (S (List.length ((best_free, best) :: rest))) w file name mimetype
                (size file) ((best_free, best) :: rest) 0 0 []) as [w1 cs|w1 e|];
      [apply update_metadata_returns|discriminate|].
    exfalso. apply Hb; [|reflexivity]. right.
    pose proof (count_pos_le_length ((best_free, best) :: rest)). lia.
Qed.

(** ** The scan over the buckets *)

Lemma files_get_listed (d : Drive) (p : DriveFile) :
  In p (drive_files d) -> files_get d (df_id p) <> None.
Proof.
  intros Hin Hnone. unfold files_get in Hnone.
  pose proof (find_none _ _ Hnone p Hin) as H. simpl in H.
  now rewrite Nat.eqb_refl in H.
Qed.

Lemma download_parts_acc (service : Drive) (parts : list DriveFile) :
  forall (dir : Dir) (acc : list string),
  exists more, snd (download_parts service parts dir acc) = (acc ++ more)%list.
Proof.
  induction parts as [|p parts IH]; intros dir acc; simpl.
  - exists []. now rewrite app_nil_r.
  - unfold download_file. destruct (files_get service (df_id p)) as [f|].
    + destruct (IH (write dir (df_name f) (df_body f)) (acc ++ [df_name f])%list)
        as [more Hmore].
      exists (df_name f :: more). rewrite Hmore, <- app_assoc. reflexivity.
    + apply IH.
Qed.

Lemma download_parts_some (service : Drive) (p : DriveFile) (parts : list DriveFile)
    (dir : Dir) :
  In p (drive_files service) ->
  snd (download_parts service (p :: parts) dir []) <> [].
Proof.
  intros Hin. simpl. unfold download_file.
  destruct (files_get service (df_id p)) as [f|] eqn:Hget;
    [|now apply files_get_listed in Hget].
  destruct (download_parts_acc service parts (write dir (df_name f) (df_body f))
              [df_name f]) as [more Hmore].
  rewrite Hmore. discriminate.
Qed.

(** The scan ends at the first bucket that holds a part: what the buckets
    listed after it hold is never asked for. *)
Lemma scan_ends_at_first_parts (w : World) (b : string) (rest : list string)
    (name : string) (dir : Dir) :
  files_list_named (authenticate_account w b) name = [] ->
  files_list_containing (authenticate_account w b) (name ++ "_part")%string <> [] ->
  scan_buckets w (b :: rest) name dir = scan_buckets w [b] name dir.
Proof.
  intros Hnamed Hparts. cbn [scan_buckets]. rewrite Hnamed.
  destruct (files_list_containing (authenticate_account w b) (name ++ "_part")%string)
    as [|p parts] eqn:Hl; [contradiction|].
  set (by_name := Py.sort_by (fun x y => String.leb (df_name x) (df_name y)) (p :: parts)).
  assert (Hin : forall q, In q by_name -> In q (drive_files (authenticate_account w b))).
  { intros q Hq. apply (Permutation_in _ (sort_by_perm _ _)) in Hq.
    rewrite <- Hl in Hq. unfold files_list_containing in Hq.
    now apply filter_In in Hq. }
  assert (Hne : by_name <> []).
  { intros E. pose proof (sort_by_length (fun x y => String.leb (df_name x) (df_name y))
                            (p :: parts)) as Hlen.
    fold by_name in Hlen. rewrite E in Hlen. discriminate. }
  destruct by_name as [|q qs]; [contradiction|].
  pose proof (download_parts_some (authenticate_account w b) q qs dir
                (Hin q (or_introl eq_refl))) as Hsome.
  destruct (download_parts (authenticate_account w b) (q :: qs) dir []) as [dir' [|c cs]];
    [contradiction|reflexivity].
Qed.

(** * Further properties of the code *)

(** ** What an upload leaves alone *)

Lemma files_get_app (files more : list DriveFile) (id : nat) (f : DriveFile) :
  find (fun f => Nat.eqb (df_id f) id) files = Some f ->
  find (fun f => Nat.eqb (df_id f) id) (files ++ more) = Some f.
Proof.
  induction files as [|y files IH]; simpl; [discriminate|].
  destruct (Nat.eqb (df_id y) id); [trivial|exact IH].
Qed.

Lemma select_bucket_listed (fs : list (Z * string)) (i : nat) (f : Z) (b : string) :
  select_bucket (sort_asc fs) 0 = Some (i, f, b) -> In b (map snd fs).
Proof.
  intros H. destruct (select_smallest _ _ _ _ H) as (_ & Hin & _).
  apply in_map_iff. exists (f, b). auto.
Qed.

Lemma set_free_ids (t : list (Z * string)) :
  forall (i : nat) (v : Z), map snd (set_free t i v) = map snd t.
Proof.
  induction t as [|[f b] t IH]; intros [|i] v; simpl; try reflexivity.
  now rewrite IH.
Qed.

(** The loop only adds objects, and only to buckets of its table; it leaves
    the listing and the metadata document alone. *)
Lemma chunk_loop_frame (file : bytes) (name mimetype : string) (file_size : Z) (fuel : nat) :
  forall (w : World) (fs : list (Z * string)) (offset : Z) (chunk_index : nat)
         (cs : list ChunkRecord) (w1 : World),
  loop_world (chunk_loop fuel w file name mimetype file_size fs offset chunk_index cs)
    = Some w1 ->
  metadata_file w1 = metadata_file w /\
  bucket_listing w1 = bucket_listing w /\
  (forall b, exists more,
      drive_files (drive_of w1 b) = (drive_files (drive_of w b) ++ more)%list) /\
  (forall b, ~ In b (map snd fs) -> drive_of w1 b = drive_of w b).
Proof.
  induction fuel as [|fuel IH]; intros w fs offset chunk_index cs w1 H; [discriminate|].
  assert (Hsame : metadata_file w = metadata_file w /\
                  bucket_listing w = bucket_listing w /\
                  (forall b, exists more,
                      drive_files (drive_of w b) = (drive_files (drive_of w b) ++ more)%list) /\
                  (forall b, ~ In b (map snd fs) -> drive_of w b = drive_of w b)).
  { repeat split. intros b. exists []. now rewrite app_nil_r. }
  cbn [chunk_loop] in H.
  destruct (offset <? file_size); [|inversion H; subst; exact Hsame].
  destruct (select_bucket (sort_asc fs) 0) as [[[i f] b]|] eqn:Hsel;
    [|inversion H; subst; exact Hsame].
  destruct (Py.falsy b); [inversion H; subst; exact Hsame|].
  destruct (upload_chunk (authenticate_account w b)
              (read_at file offset (Z.min f (file_size - offset))) mimetype name chunk_index)
    as [e|[id d']] eqn:Hup.
  - destruct e as [| | | | |[|]| |]; inversion H; subst; exact Hsame.
  - apply IH in H. destruct H as (Hm & Hl & Hfiles & Hother).
    unfold upload_chunk in Hup. apply files_create_ok in Hup. destruct Hup as [_ Hnew].
    split; [exact Hm|]. split; [exact Hl|]. split.
    + intros b0. destruct (Hfiles b0) as [more Hmore]. rewrite Hmore.
      change (drive_of (set_drive w b d') b0)
        with (if String.eqb b0 b then d' else drive_of w b0).
      destruct (String.eqb_spec b0 b) as [->|_].
      * unfold authenticate_account in Hnew. rewrite Hnew, <- app_assoc. eexists. reflexivity.
      * exists more. reflexivity.
    + intros b0 Hb0. rewrite Hother.
      * change (drive_of (set_drive w b d') b0)
          with (if String.eqb b0 b then d' else drive_of w b0).
        destruct (String.eqb_spec b0 b) as [->|_]; [|reflexivity].
        exfalso. apply Hb0. eapply select_bucket_listed. exact Hsel.
      * rewrite set_free_ids.
        intros Hin. apply Hb0.
        apply (Permutation_in _ (Permutation_map snd (sort_asc_perm fs))). exact Hin.
Qed.

Lemma upload_file_frame (w : World) (file : bytes) (name mimetype : string) :
  bucket_listing (fst (upload_file w file name mimetype)) = bucket_listing w /\
  (forall b, exists more,
      drive_files (drive_of (fst (upload_file w file name mimetype)) b) =
      (drive_files (drive_of w b) ++ more)%list) /\
  (forall b, ~ In b (map snd (candidates w)) ->
             drive_of (fst (upload_file w file name mimetype)) b = drive_of w b) /\
  (snd (upload_file w file name mimetype) <> UploadComplete ->
   metadata_file (fst (upload_file w file name mimetype)) = metadata_file w) /\
  (snd (upload_file w file name mimetype) = UploadComplete ->
   exists r, file_name r = name /\
             metadata_file (fst (upload_file w file name mimetype)) =
               MetaList (existing_metadata (metadata_file w) ++ [r])).
Proof.
  assert (Hsame : forall o, o <> UploadComplete ->
            bucket_listing (fst (w, o)) = bucket_listing w /\
            (forall b, exists more,
                drive_files (drive_of (fst (w, o)) b) = (drive_files (drive_of w b) ++ more)%list) /\
            (forall b, ~ In b (map snd (candidates w)) -> drive_of (fst (w, o)) b = drive_of w b) /\
            (snd (w, o) <> UploadComplete -> metadata_file (fst (w, o)) = metadata_file w) /\
            (snd (w, o) = UploadComplete ->
             exists r, file_name r = name /\
                       metadata_file (fst (w, o)) =
                         MetaList (existing_metadata (metadata_file w) ++ [r]))).
  { intros o Ho. simpl. repeat split; try contradiction.
    intros b. exists []. now rewrite app_nil_r. }
  unfold upload_file. rewrite snapshot_listing.
  destruct (total_free w <? size file); [apply Hsame; discriminate|].
  destruct (sort_desc (candidates w)) as [|[best_free best] rest] eqn:Hs;
    [apply Hsame; discriminate|].
  assert (Hids : forall b, In b (map snd ((best_free, best) :: rest)) ->
                           In b (map snd (candidates w))).
  { intros b Hb. rewrite <- Hs in Hb.
    apply (Permutation_in _ (Permutation_map snd (sort_desc_perm (candidates w)))). exact Hb. }
  destruct (best_free >=? size file).
  - destruct (files_create (authenticate_account w best) name mimetype file)
      as [e|[id service']] eqn:Hc; [apply Hsame; discriminate|].
    apply files_create_ok in Hc. destruct Hc as [_ Hnew].
    set (r := {| file_name := name;
                 chunks := [{| chunk_name := name; file_id := id; bucket := best |}] |}).
    destruct (update_metadata_frame (set_drive w best service') r) as (Hl1 & Hd1 & Hn1 & Hc1).
    rewrite Hl1, Hd1. split; [reflexivity|]. split; [|split; [|split]].
    + intros b.
      change (drive_of (set_drive w best service') b)
        with (if String.eqb b best then service' else drive_of w b).
      destruct (String.eqb_spec b best) as [->|_].
      * unfold authenticate_account in Hnew. rewrite Hnew. eexists. reflexivity.
      * exists []. now rewrite app_nil_r.
    + intros b Hb.
      change (drive_of (set_drive w best service') b)
        with (if String.eqb b best then service' else drive_of w b).
      destruct (String.eqb_spec b best) as [->|_]; [|reflexivity].
      exfalso. apply Hb, Hids. now left.
    + exact Hn1.
    + intros H. exists r. split; [reflexivity|]. exact (Hc1 H).
  - pose proof (chunk_loop_frame file name mimetype (size file)
                  (S (List.length ((best_free, best) :: rest))) w
                  ((best_free, best) :: rest) 0 0 []) as Hframe.
    destruct (chunk_loop (S (List.length ((best_free, best) :: rest))) w file name mimetype
                (size file) ((best_free, best) :: rest) 0 0 []) as [w1 cs|w1 e|];
      [| |apply Hsame; discriminate].
    + destruct (Hframe w1 eq_refl) as (Hm & Hl & Hfiles & Hother).
      set (r := {| file_name := name; chunks := cs |}).
      destruct (update_metadata_frame w1 r) as (Hl1 & Hd1 & Hn1 & Hc1).
      rewrite Hl1, Hd1.
      split; [exact Hl|]. split; [exact Hfiles|]. split; [|split].
      * intros b Hb. apply Hother. intros Hin. apply Hb, Hids, Hin.
      * intros H. rewrite (Hn1 H). exact Hm.
      * intros H. exists r. split; [reflexivity|]. rewrite (Hc1 H), Hm. reflexivity.
    + destruct (Hframe w1 eq_refl) as (Hm & Hl & Hfiles & Hother).
      cbn [fst snd]. split; [exact Hl|]. split; [exact Hfiles|]. split; [|split].
      * intros b Hb. apply Hother. intros Hin. apply Hb, Hids, Hin.
      * intros _. exact Hm.
      * discriminate.
Qed.

(** X1.  An upload, however it ends, only adds to the accounts: every account
    holds the objects it held, in the same order, followed by the new ones,
    and every object that could be fetched before can be fetched after,
    unchanged. *)
Theorem upload_only_adds (w : World) (file : bytes) (name mimetype b : string) :
  (exists more,
      drive_files (drive_of (fst (upload_file w file name mimetype)) b) =
      (drive_files (drive_of w b) ++ more)%list) /\
  (forall id f,
      files_get (drive_of w b) id = Some f ->
      files_get (drive_of (fst (upload_file w file name mimetype)) b) id = Some f).
Proof.
  destruct (upload_file_frame w file name mimetype) as (_ & Hfiles & _).
  split; [apply Hfiles|].
  intros id f Hget. destruct (Hfiles b) as [more Hmore].
  unfold files_get in *. rewrite Hmore. now apply files_get_app.
Qed.

(** X2.  An upload writes to no bucket but those that are listed and report
    free space above 0.  Among the buckets left alone are those whose capacity
    query fails: [check_storage] answers (0, 0) for them. *)
Theorem upload_writes_candidates_only (w : World) (file : bytes) (name mimetype b : string) :
  ~ (In b (bucket_listing w) /\ 0 < reported_free w b) ->
  drive_of (fst (upload_file w file name mimetype)) b = drive_of w b.
Proof.
  intros Hb. destruct (upload_file_frame w file name mimetype) as (_ & _ & Hother & _).
  apply Hother. intros Hin. apply Hb.
  apply in_map_iff in Hin. destruct Hin as ([f b'] & Heq & Hin). simpl in Heq. subst b'.
  apply candidates_In in Hin. destruct Hin as (Hin & Hf & Hpos).
  subst f. split; assumption.
Qed.

Lemma upload_writes_candidates_only_witness :
  drive_of (fst (upload_file one_silent five_bytes "f" "m")) "1" = drive_of one_silent "1".
Proof.
  apply (upload_writes_candidates_only one_silent five_bytes "f" "m" "1").
  intros [_ H]. vm_compute in H. discriminate.
Defined.

(** ** The metadata document across uploads *)

Lemma lookup_app (l l' : list FileRecord) (n : string) (r : FileRecord) :
  lookup l n = Some r -> lookup (l ++ l') n = Some r.
Proof.
  unfold lookup. induction l as [|r0 l IH]; simpl; [discriminate|].
  destruct (String.eqb (file_name r0) n); [trivial|exact IH].
Qed.

Lemma lookup_has_record (l : list FileRecord) (n : string) (r : FileRecord) :
  lookup l n = Some r -> has_record l n = true.
Proof.
  unfold lookup, has_record. induction l as [|r0 l IH]; simpl; [discriminate|].
  destruct (String.eqb (file_name r0) n); [reflexivity|exact IH].
Qed.

(** X3.  The metadata document is only ever appended to, and only by an upload
    that completes: an upload that ends any other way leaves the document as
    it was (also a corrupt one), and one that completes rewrites it as the
    records it held followed by one record with the uploaded name.  A name
    that had a record keeps the record it had as its first match, also when
    the upload was under that very name. *)
Theorem upload_metadata_append_only (w : World) (file : bytes) (name mimetype : string) :
  (snd (upload_file w file name mimetype) <> UploadComplete ->
   metadata_file (fst (upload_file w file name mimetype)) = metadata_file w) /\
  (snd (upload_file w file name mimetype) = UploadComplete ->
   exists r, file_name r = name /\
             metadata_file (fst (upload_file w file name mimetype)) =
               MetaList (existing_metadata (metadata_file w) ++ [r])) /\
  (forall n r0,
      lookup (existing_metadata (metadata_file w)) n = Some r0 ->
      lookup (existing_metadata (metadata_file (fst (upload_file w file name mimetype)))) n
        = Some r0).
Proof.
  destruct (upload_file_frame w file name mimetype) as (_ & _ & _ & Hfail & Hdone).
  split; [exact Hfail|]. split; [exact Hdone|].
  intros n r0 Hl.
  destruct (snd (upload_file w file name mimetype)) eqn:Ho;
    try (rewrite Hfail by discriminate; exact Hl).
  destruct (Hdone eq_refl) as (r & _ & Hm). rewrite Hm. simpl. now apply lookup_app.
Qed.

Lemma download_chunks_same (w w' : World) (cs : list ChunkRecord) :
  (forall b id f, files_get (drive_of w b) id = Some f ->
                  files_get (drive_of w' b) id = Some f) ->
  (forall c, In c cs -> files_get (drive_of w (bucket c)) (file_id c) <> None) ->
  forall (dir : Dir) (acc : list string),
  download_chunks w' cs dir acc = download_chunks w cs dir acc.
Proof.
  intros Hkeep. induction cs as [|c cs IH]; intros Hall dir acc; simpl; [reflexivity|].
  unfold download_file, authenticate_account.
  destruct (files_get (drive_of w (bucket c)) (file_id c)) as [f|] eqn:Hget.
  - rewrite (Hkeep _ _ _ Hget). apply IH. intros c0 Hc0. apply Hall. now right.
  - exfalso. apply (Hall c); [now left|exact Hget].
Qed.

(** X4.  Uploads do not disturb what is recorded: when the document is an
    array, a name has a record in it and every chunk of that record can be
    fetched, then after any upload, of any file under any name and however it
    ends, a download of that name does exactly what it did before. *)
Theorem upload_preserves_downloads (w : World) (file : bytes) (name mimetype : string)
    (l : list FileRecord) (n : string) (r0 : FileRecord) (dir : Dir) :
  metadata_file w = MetaList l ->
  lookup l n = Some r0 ->
  (forall c, In c (chunks r0) -> files_get (drive_of w (bucket c)) (file_id c) <> None) ->
  download_from_all_buckets (fst (upload_file w file name mimetype)) n dir =
  download_from_all_buckets w n dir.
Proof.
  intros Hm Hl Hall.
  destruct (upload_file_frame w file name mimetype) as (_ & Hfiles & _ & Hfail & Hdone).
  assert (Hkeep : forall b id f,
            files_get (drive_of w b) id = Some f ->
            files_get (drive_of (fst (upload_file w file name mimetype)) b) id = Some f).
  { intros b id f Hget. destruct (Hfiles b) as [more Hmore].
    unfold files_get in *. rewrite Hmore. now apply files_get_app. }
  assert (Hm' : exists l', metadata_file (fst (upload_file w file name mimetype)) = MetaList l'
                           /\ lookup l' n = Some r0).
  { destruct (snd (upload_file w file name mimetype)) eqn:Ho;
      try (exists l; rewrite Hfail by discriminate; auto).
    destruct (Hdone eq_refl) as (r & _ & Hr). rewrite Hm in Hr. simpl in Hr.
    exists (l ++ [r])%list. split; [exact Hr|]. now apply lookup_app. }
  destruct Hm' as (l' & Hm' & Hl').
  unfold download_from_all_buckets, download_using_metadata.
  rewrite Hm, Hm', Hl, Hl', (lookup_has_record _ _ _ Hl), (lookup_has_record _ _ _ Hl').
  destruct (is_single (chunks r0) n) as [c|] eqn:Hsingle.
  - assert (Hc : In c (chunks r0)).
    { unfold is_single in Hsingle. destruct (chunks r0) as [|c0 [|c1 cs]]; try discriminate.
      destruct (String.eqb (chunk_name c0) n); inversion Hsingle. now left. }
    unfold download_file, authenticate_account.
    destruct (files_get (drive_of w (bucket c)) (file_id c)) as [f|] eqn:Hget.
    + now rewrite (Hkeep _ _ _ Hget).
    + exfalso. apply (Hall c Hc). exact Hget.
  - now rewrite (download_chunks_same w _ (chunks r0) Hkeep Hall).
Qed.

Lemma upload_preserves_downloads_witness :
  download_from_all_buckets (fst (upload_file after_first five_bytes "f" "m")) "f" no_files =
  download_from_all_buckets after_first "f" no_files.
Proof.
  apply (upload_preserves_downloads after_first five_bytes "f" "m"
           [{| file_name := "f";
               chunks := [{| chunk_name := "f"; file_id := 1; bucket := "A" |}] |}]
           "f" {| file_name := "f";
                  chunks := [{| chunk_name := "f"; file_id := 1; bucket := "A" |}] |}
           no_files).
  - reflexivity.
  - reflexivity.
  - intros c [<-|[]]. vm_compute. discriminate.
Defined.

(** ** What a completed upload has placed *)

(** X5.  Coverage: when every bucket id is a non-empty string and the upload
    completes, every chunk of the appended record can be fetched from the
    bucket the record names, under the chunk's name, and the bodies of the
    chunks, in the order of the record, are the bytes of the file, each byte
    once.  The chunks are either the one object named as the file, or
    [name_part1], [name_part2], ... in that order. *)
Theorem upload_covers_file (w : World) (file : bytes) (name mimetype : string) (w' : World) :
  upload_file w file name mimetype = (w', UploadComplete) ->
  (forall b, In b (bucket_listing w) -> b <> ""%string) ->
  exists bodies,
    Forall2 (stored w') (uploaded_chunks w') bodies /\
    List.concat bodies = file /\
    (map chunk_name (uploaded_chunks w') = [name] \/
     map chunk_name (uploaded_chunks w') =
       part_names name (List.length (uploaded_chunks w'))).
Proof.
  intros Hup Hids.
  destruct (upload_complete_inv _ _ _ _ _ Hup)
    as [Hfit [(best & id & service' & Hc & ->)|(w1 & cs & Hloop & ->)]];
    rewrite uploaded_chunks_last; cbn [chunks].
  - exists [file]. split; [|split].
    + constructor; [|constructor].
      change (stored (set_drive w best service')
                {| chunk_name := name; file_id := id; bucket := best |} file).
      eapply stored_new. exact Hc.
    + simpl. apply app_nil_r.
    + now left.
  - destruct (chunk_loop_complete file name mimetype
                (S (List.length (sort_desc (candidates w)))) w (sort_desc (candidates w))
                0 [] [] w1 cs) as (_ & Hnames & bodies & Hst & Hcat).
    + pose proof (Zle_0_nat (List.length file)). unfold size. lia.
    + intros [f b] He. apply (Permutation_in _ (sort_desc_perm _)) in He.
      apply candidates_In in He. destruct He as (Hin & _ & Hpos).
      split; [simpl; lia|]. simpl. now apply Hids.
    + rewrite (table_sum_perm _ _ (sort_desc_perm _)).
      pose proof (total_free_le_candidates w). lia.
    + reflexivity.
    + constructor.
    + reflexivity.
    + exact Hloop.
    + exists bodies. split; [exact Hst|]. split; [exact Hcat|]. now right.
Qed.

Lemma upload_covers_file_witness :
  exists bodies,
    Forall2 (stored (fst (upload_file ten_and_five twelve_bytes "f" "m")))
      (uploaded_chunks (fst (upload_file ten_and_five twelve_bytes "f" "m"))) bodies /\
    List.concat bodies = twelve_bytes /\
    (map chunk_name (uploaded_chunks (fst (upload_file ten_and_five twelve_bytes "f" "m")))
       = ["f"%string] \/
     map chunk_name (uploaded_chunks (fst (upload_file ten_and_five twelve_bytes "f" "m"))) =
       part_names "f"
         (List.length (uploaded_chunks (fst (upload_file ten_and_five twelve_bytes "f" "m"))))).
Proof.
  apply (upload_covers_file ten_and_five twelve_bytes "f" "m").
  - reflexivity.
  - intros b [<-|[<-|[]]]; discriminate.
Defined.

Lemma chunk_loop_count (file : bytes) (name mimetype : string) (file_size : Z) (fuel : nat) :
  forall (w : World) (fs : list (Z * string)) (offset : Z) (chunk_index : nat)
         (cs : list ChunkRecord) (w1 : World) (cs1 : list ChunkRecord),
  chunk_loop fuel w file name mimetype file_size fs offset chunk_index cs = LoopExit w1 cs1 ->
  (List.length cs1 <= List.length cs + count_pos fs)%nat.
Proof.
  induction fuel as [|fuel IH]; intros w fs offset chunk_index cs w1 cs1 H; [discriminate|].
  cbn [chunk_loop] in H.
  destruct (offset <? file_size) eqn:Hlt; [|inversion H; subst; lia].
  apply Z.ltb_lt in Hlt.
  destruct (select_bucket (sort_asc fs) 0) as [[[i f] b]|] eqn:Hsel;
    [|inversion H; subst; lia].
  destruct (Py.falsy b); [inversion H; subst; lia|].
  destruct (upload_chunk (authenticate_account w b)
              (read_at file offset (Z.min f (file_size - offset))) mimetype name chunk_index)
    as [[| | | | |[|]| |]|[id d']]; try discriminate.
  destruct (select_smallest _ _ _ _ Hsel) as (Hpos & _ & _).
  pose proof (select_bucket_nth _ _ _ _ Hsel) as Hnth.
  pose proof (count_pos_set_free_zero _ _ _ _ Hnth Hpos) as Hcount.
  rewrite (count_pos_perm _ _ (sort_asc_perm fs)) in Hcount.
  destruct (Z_le_gt_dec f (file_size - offset)) as [Hle|Hgt].
  - rewrite Z.min_l in H by assumption. rewrite Z.sub_diag in H.
    apply IH in H. rewrite length_app in H. simpl in H. lia.
  - rewrite Z.min_r in H by lia.
    destruct fuel as [|fuel]; [discriminate|]. cbn [chunk_loop] in H.
    replace (offset + (file_size - offset) <? file_size) with false in H
      by (symmetry; apply Z.ltb_ge; lia).
    inversion H; subst. rewrite length_app. simpl. lia.
Qed.

(** X6.  A completed upload records at most as many chunks as there are
    buckets reporting free space above 0: a bucket is either drained by its
    chunk or takes the last one. *)
Theorem upload_chunk_count (w : World) (file : bytes) (name mimetype : string) (w' : World) :
  upload_file w file name mimetype = (w', UploadComplete) ->
  (List.length (uploaded_chunks w') <= List.length (candidates w))%nat.
Proof.
  intros Hup.
  destruct (upload_complete_inv _ _ _ _ _ Hup)
    as [Hfit [(best & id & service' & Hc & ->)|(w1 & cs & Hloop & ->)]];
    rewrite uploaded_chunks_last; cbn [chunks].
  - unfold upload_file in Hup. rewrite snapshot_listing in Hup.
    destruct (total_free w <? size file); [discriminate|].
    pose proof (Permutation_length (sort_desc_perm (candidates w))) as Hlen.
    destruct (sort_desc (candidates w)); [discriminate|]. simpl in *. lia.
  - apply chunk_loop_count in Hloop. simpl in Hloop.
    rewrite (count_pos_perm _ _ (sort_desc_perm _)) in Hloop.
    pose proof (count_pos_le_length (candidates w)). lia.
Qed.

Lemma upload_chunk_count_witness :
  (List.length (uploaded_chunks (fst (upload_file ten_singles ten_bytes "f" "m")))
   <= List.length (candidates ten_singles))%nat.
Proof.
  apply (upload_chunk_count ten_singles ten_bytes "f" "m"). reflexivity.
Defined.

(** ** Uploads that must complete *)

Lemma set_free_In_nodup (t : list (Z * string)) :
  forall (i : nat) (v f : Z) (b : string) (e : Z * string),
  NoDup (map snd t) ->
  nth_error t i = Some (f, b) ->
  In e (set_free t i v) ->
  e = (v, b) \/ (In e t /\ snd e <> b).
Proof.
  induction t as [|[f0 b0] t IH]; intros i v f b e Hnd Hnth He; [destruct i; discriminate|].
  simpl in Hnd. inversion Hnd as [|? ? Hb0 Hnd']; subst.
  destruct i as [|i]; simpl in Hnth, He.
  - inversion Hnth; subst. destruct He as [<-|He]; [now left|].
    right. split; [now right|]. intros E. apply Hb0. rewrite <- E. now apply in_map.
  - destruct He as [<-|He].
    + right. split; [now left|]. simpl. intros E. apply Hb0. rewrite E.
      apply nth_error_In in Hnth. now apply (in_map snd) in Hnth.
    + destruct (IH _ _ _ _ _ Hnd' Hnth He) as [->|[Hin Hne]]; [now left|].
      right. split; [now right|assumption].
Qed.

Lemma table_sum_positive (t : list (Z * string)) (k : nat) :
  0 < table_sum t -> select_bucket t k <> None.
Proof.
  intros Hsum Hnone. pose proof (table_sum_nonpos t (select_bucket_none t k Hnone)). lia.
Qed.

(** With accounts that take what the table promises, the loop ends by itself
    and does not raise. *)
Lemma chunk_loop_progress (file : bytes) (name mimetype : string) (fuel : nat) :
  forall (w : World) (fs : list (Z * string)) (offset : Z) (chunk_index : nat)
         (cs : list ChunkRecord),
  0 <= offset ->
  NoDup (map snd fs) ->
  (forall e, In e fs ->
     snd e <> ""%string /\ 0 <= fst e <= room (drive_of w (snd e)) /\
     create_fault (drive_of w (snd e)) = false) ->
  size file - offset <= table_sum fs ->
  (size file <= offset /\ (1 <= fuel)%nat) \/ (count_pos fs < fuel)%nat ->
  exists w1 cs1,
    chunk_loop fuel w file name mimetype (size file) fs offset chunk_index cs
      = LoopExit w1 cs1.
Proof.
  induction fuel as [|fuel IH]; intros w fs offset chunk_index cs Ho Hnd Hfs Hsum Hfuel.
  - exfalso. destruct Hfuel as [[_ H]|H]; lia.
  - destruct (Z_lt_le_dec offset (size file)) as [Hlt|Hge];
      [|rewrite chunk_loop_done by assumption; eauto].
    destruct Hfuel as [[H _]|Hfuel]; [lia|].
    destruct (select_bucket (sort_asc fs) 0) as [[[i f] b]|] eqn:Hsel.
    + destruct (select_smallest _ _ _ _ Hsel) as (Hpos & Hin & _).
      pose proof (select_bucket_nth _ _ _ _ Hsel) as Hnth.
      destruct (Hfs _ Hin) as (Hb & Hroom & Hfault). simpl in Hb, Hroom, Hfault.
      assert (Hnd' : NoDup (map snd (sort_asc fs))).
      { eapply Permutation_NoDup; [|exact Hnd].
        apply Permutation_map, Permutation_sym, sort_asc_perm. }
      set (c := Z.min f (size file - offset)).
      assert (Hc : 0 < c /\ c <= f /\ c <= size file - offset) by (unfold c; lia).
      assert (Hmin : c = Z.min f (size file - offset)) by reflexivity.
      clearbody c.
      assert (Hsz : size (read_at file offset c) = c) by (apply read_at_size; lia).
      rewrite (chunk_loop_step_ok fuel w file name mimetype fs offset chunk_index cs
                 i f c b Ho Hlt Hsel (falsy_named _ Hb) Hmin Hfault)
        by (unfold authenticate_account; lia).
      apply IH.
      * lia.
      * rewrite set_free_ids. exact Hnd'.
      * intros e He.
        destruct (set_free_In_nodup _ _ _ _ _ _ Hnd' Hnth He) as [->|[Hin' Hne]].
        -- cbn [fst snd].
           change (drive_of (set_drive w b ?d) b) with
             (if String.eqb b b then d else drive_of w b).
           rewrite String.eqb_refl. cbn [room create_fault]. rewrite Hsz.
           unfold authenticate_account. repeat split; try assumption; lia.
        -- apply (Permutation_in _ (sort_asc_perm fs)) in Hin'.
           destruct (Hfs _ Hin') as (Hb' & Hroom' & Hfault').
           change (drive_of (set_drive w b ?d) (snd e)) with
             (if String.eqb (snd e) b then d else drive_of w (snd e)).
           destruct (String.eqb_spec (snd e) b) as [E|_]; [contradiction|].
           exact (conj Hb' (conj Hroom' Hfault')).
      * rewrite (table_sum_set_free _ _ _ _ _ Hnth),
          (table_sum_perm _ _ (sort_asc_perm fs)). lia.
      * pose proof (count_pos_set_free_zero _ _ _ _ Hnth Hpos) as Hcount.
        rewrite (count_pos_perm _ _ (sort_asc_perm fs)) in Hcount.
        destruct (Z_le_gt_dec f (size file - offset)) as [Hle|Hgt].
        -- right. replace (f - c) with 0 by lia. lia.
        -- left. lia.
    + exfalso. apply (table_sum_positive (sort_asc fs) 0); [|exact Hsel].
      rewrite (table_sum_perm _ _ (sort_asc_perm fs)). lia.
Qed.

Lemma candidates_NoDup (w : World) :
  NoDup (bucket_listing w) -> NoDup (map snd (candidates w)).
Proof.
  intros H. unfold candidates. rewrite map_map. simpl. rewrite map_id.
  now apply NoDup_filter.
Qed.

Lemma upload_completes_core (w : World) (file : bytes) (name mimetype : string) :
  NoDup (bucket_listing w) ->
  (forall b, In b (bucket_listing w) -> b <> ""%string) ->
  (forall b, In b (bucket_listing w) -> 0 < reported_free w b ->
     create_fault (drive_of w b) = false /\ reported_free w b <= room (drive_of w b)) ->
  size file <= total_free w ->
  (exists b, In b (bucket_listing w) /\ 0 < reported_free w b) ->
  snd (upload_file w file name mimetype) =
    match metadata_file w with
    | MetaUndecodable => UploadRaised Py.UnicodeDecodeError
    | _ => UploadComplete
    end.
Proof.
  intros Hnd Hids Hhonest Hfit (b0 & Hb0 & Hpos0).
  assert (Hcand : In (reported_free w b0, b0) (candidates w)) by (apply candidates_In; auto).
  unfold upload_file. rewrite snapshot_listing.
  replace (total_free w <? size file) with false by (symmetry; apply Z.ltb_ge; lia).
  destruct (sort_desc (candidates w)) as [|[best_free best] rest] eqn:Hs.
  - apply (Permutation_in _ (Permutation_sym (sort_desc_perm _))) in Hcand.
    rewrite Hs in Hcand. destruct Hcand.
  - assert (Hentries : forall e, In e ((best_free, best) :: rest) ->
              snd e <> ""%string /\ 0 <= fst e <= room (drive_of w (snd e)) /\
              create_fault (drive_of w (snd e)) = false).
    { intros [f b] He. rewrite <- Hs in He.
      apply (Permutation_in _ (sort_desc_perm _)) in He.
      apply candidates_In in He. destruct He as (Hin & -> & Hpos).
      destruct (Hhonest b Hin Hpos) as [Hf Hr]. simpl.
      split; [now apply Hids|]. split; [lia|assumption]. }
    destruct (best_free >=? size file) eqn:Hbest.
    + apply Z.geb_le in Hbest.
      destruct (Hentries (best_free, best) (or_introl eq_refl)) as (_ & Hroom & Hfault).
      simpl in Hroom, Hfault.
      unfold files_create, authenticate_account. rewrite Hfault.
      replace (room (drive_of w best) <? size file) with false
        by (symmetry; apply Z.ltb_ge; lia).
      unfold update_metadata. cbn [metadata_file set_drive].
      destruct (metadata_file w); reflexivity.
    + destruct (chunk_loop_progress file name mimetype
                  (S (List.length ((best_free, best) :: rest))) w
                  ((best_free, best) :: rest) 0 0 []) as (w1 & cs1 & Hloop).
      * lia.
      * rewrite <- Hs. eapply Permutation_NoDup; [|exact (candidates_NoDup w Hnd)].
        apply Permutation_map, Permutation_sym, sort_desc_perm.
      * exact Hentries.
      * rewrite <- Hs, (table_sum_perm _ _ (sort_desc_perm _)).
        pose proof (total_free_le_candidates w). lia.
      * right. pose proof (count_pos_le_length ((best_free, best) :: rest)). lia.
      * destruct (chunk_loop_frame file name mimetype (size file)
                    (S (List.length ((best_free, best) :: rest))) w
                    ((best_free, best) :: rest) 0 0 [] w1) as (Hm & _);
          [now rewrite Hloop|].
        rewrite Hloop. unfold update_metadata. rewrite Hm.
        destruct (metadata_file w); reflexivity.
Qed.



(** ** Round trip, from what the upload is given *)




(** ** Where the chunks go *)

Lemma chunk_loop_buckets (file : bytes) (name mimetype : string) (file_size : Z) (fuel : nat) :
  forall (w : World) (fs : list (Z * string)) (offset : Z) (chunk_index : nat)
         (cs : list ChunkRecord) (w1 : World) (cs1 : list ChunkRecord),
  NoDup (map snd fs) ->
  NoDup (map bucket cs) ->
  (forall c e, In c cs -> In e fs -> snd e = bucket c -> fst e <= 0) ->
  chunk_loop fuel w file name mimetype file_size fs offset chunk_index cs = LoopExit w1 cs1 ->
  NoDup (map bucket cs1).
Proof.
  induction fuel as [|fuel IH]; intros w fs offset chunk_index cs w1 cs1 Hnd Hcs Hzero H;
    [discriminate|].
  cbn [chunk_loop] in H.
  destruct (offset <? file_size) eqn:Hlt; [|inversion H; subst; exact Hcs].
  apply Z.ltb_lt in Hlt.
  destruct (select_bucket (sort_asc fs) 0) as [[[i f] b]|] eqn:Hsel;
    [|inversion H; subst; exact Hcs].
  destruct (Py.falsy b); [inversion H; subst; exact Hcs|].
  destruct (upload_chunk (authenticate_account w b)
              (read_at file offset (Z.min f (file_size - offset))) mimetype name chunk_index)
    as [[| | | | |[|]| |]|[id d']]; try discriminate.
  destruct (select_smallest _ _ _ _ Hsel) as (Hpos & Hin & _).
  pose proof (select_bucket_nth _ _ _ _ Hsel) as Hnth.
  assert (Hnew : NoDup (map bucket
                          (cs ++ [{| chunk_name := (name ++ "_part" ++
                                                    Py.str_of_nat (chunk_index + 1))%string;
                                     file_id := id; bucket := b |}]))).
  { rewrite map_app. simpl. apply NoDup_app; [exact Hcs|repeat constructor; intros []|].
    intros x Hx [<-|[]]. apply in_map_iff in Hx. destruct Hx as (c & Hc & Hcin).
    pose proof (Hzero c (f, b) Hcin Hin (eq_sym Hc)). simpl in *. lia. }
  assert (Hnd' : NoDup (map snd (sort_asc fs))).
  { eapply Permutation_NoDup; [|exact Hnd].
    apply Permutation_map, Permutation_sym, sort_asc_perm. }
  destruct (Z_le_gt_dec f (file_size - offset)) as [Hle|Hgt].
  - rewrite Z.min_l in H by assumption. rewrite Z.sub_diag in H.
    apply IH in H; [exact H| |exact Hnew|].
    + now rewrite set_free_ids.
    + intros c e Hc He Hb.
      destruct (set_free_In_nodup _ _ _ _ _ _ Hnd' Hnth He) as [->|[Hin' Hne]];
        [simpl; lia|].
      apply (Permutation_in _ (sort_asc_perm fs)) in Hin'.
      apply in_app_or in Hc. destruct Hc as [Hc|[<-|[]]].
      * now apply (Hzero c e).
      * simpl in Hb. contradiction.
  - rewrite Z.min_r in H by lia.
    destruct fuel as [|fuel]; [discriminate|]. cbn [chunk_loop] in H.
    replace (offset + (file_size - offset) <? file_size) with false in H
      by (symmetry; apply Z.ltb_ge; lia).
    inversion H; subst. exact Hnew.
Qed.

(** X9.  With distinct bucket ids, a completed upload puts every chunk on a
    bucket of its own: no two chunks of the record name the same bucket. *)
Theorem upload_one_chunk_per_bucket (w : World) (file : bytes) (name mimetype : string)
    (w' : World) :
  upload_file w file name mimetype = (w', UploadComplete) ->
  NoDup (bucket_listing w) ->
  NoDup (map bucket (uploaded_chunks w')).
Proof.
  intros Hup Hnd.
  destruct (upload_complete_inv _ _ _ _ _ Hup)
    as [_ [(best & id & service' & _ & ->)|(w1 & cs & Hloop & ->)]];
    rewrite uploaded_chunks_last; cbn [chunks].
  - simpl. repeat constructor. intros [].
  - apply (chunk_loop_buckets _ _ _ _ _ _ _ _ _ _ _ _) in Hloop; [exact Hloop| |constructor|].
    + eapply Permutation_NoDup; [|exact (candidates_NoDup w Hnd)].
      apply Permutation_map, Permutation_sym, sort_desc_perm.
    + intros c e [].
Qed.

Lemma upload_one_chunk_per_bucket_witness :
  NoDup (map bucket (uploaded_chunks (fst (upload_file ten_and_five twelve_bytes "f" "m")))).
Proof.
  apply (upload_one_chunk_per_bucket ten_and_five twelve_bytes "f" "m").
  - reflexivity.
  - constructor; [intros [H|[]]; discriminate|]. constructor; [intros []|constructor].
Defined.

(** ** The merge does not see the order it is given *)

Lemma compare_le_trans (a : string) :
  forall b c : string,
  String.compare a b <> Gt -> String.compare b c <> Gt -> String.compare a c <> Gt.
Proof.
  induction a as [|x a IH]; intros [|y b] [|z c]; simpl; try congruence.
  unfold Ascii.compare.
  destruct (N.compare_spec (N_of_ascii x) (N_of_ascii y)) as [Exy|Lxy|Gxy];
    try congruence;
    destruct (N.compare_spec (N_of_ascii y) (N_of_ascii z)) as [Eyz|Lyz|Gyz];
    try congruence; intros H1 H2.
  - rewrite Exy, Eyz, N.compare_refl. now apply IH with b.
  - rewrite Exy. apply N.compare_lt_iff in Lyz. rewrite Lyz. discriminate.
  - rewrite <- Eyz. apply N.compare_lt_iff in Lxy. rewrite Lxy. discriminate.
  - assert (L : (N_of_ascii x < N_of_ascii z)%N) by (eapply N.lt_trans; eassumption).
    apply N.compare_lt_iff in L. rewrite L. discriminate.
Qed.

Lemma leb_trans (a b c : string) :
  String.leb a b = true -> String.leb b c = true -> String.leb a c = true.
Proof.
  unfold String.leb. intros H1 H2.
  pose proof (compare_le_trans a b c) as H.
  destruct (String.compare a b); destruct (String.compare b c);
    destruct (String.compare a c); try discriminate; try reflexivity;
    exfalso; apply H; congruence.
Qed.

Lemma insert_insert (x y : string) (l : list string) :
  Py.insert String.leb x (Py.insert String.leb y l) =
  Py.insert String.leb y (Py.insert String.leb x l).
Proof.
  induction l as [|z l IH]; simpl.
  - destruct (String.leb x y) eqn:Hxy, (String.leb y x) eqn:Hyx; try reflexivity.
    + now rewrite (String.leb_antisym _ _ Hxy Hyx).
    + destruct (String.leb_total x y); congruence.
  - destruct (String.leb y z) eqn:Hyz, (String.leb x z) eqn:Hxz; simpl.
    + destruct (String.leb x y) eqn:Hxy, (String.leb y x) eqn:Hyx;
        rewrite ?Hxz, ?Hyz; try reflexivity.
      * now rewrite (String.leb_antisym _ _ Hxy Hyx).
      * destruct (String.leb_total x y); congruence.
    + destruct (String.leb x y) eqn:Hxy.
      * rewrite (leb_trans _ _ _ Hxy Hyz) in Hxz. discriminate.
      * now rewrite Hxz, Hyz.
    + destruct (String.leb y x) eqn:Hyx.
      * rewrite (leb_trans _ _ _ Hyx Hxz) in Hyz. discriminate.
      * now rewrite Hxz, Hyz.
    + now rewrite Hxz, Hyz, IH.
Qed.

Lemma sorted_perm (l l' : list string) : Permutation l l' -> Py.sorted l = Py.sorted l'.
Proof.
  unfold Py.sorted. induction 1; simpl.
  - reflexivity.
  - congruence.
  - apply insert_insert.
  - congruence.
Qed.

Lemma sorted_idempotent (l : list string) : Py.sorted (Py.sorted l) = Py.sorted l.
Proof.
  apply sort_by_sorted.
  pose proof (sort_by_strongly_sorted String.leb String.leb_total leb_trans l) as H.
  apply Sorted_LocallySorted_iff, StronglySorted_Sorted, H.
Qed.

(** X10.  [merge_chunks] does not see the order of the paths it is given: for
    any two orders of the same paths it leaves the same merged file, the chunk
    files joined in the order of their names.  So the order in which
    [download_using_metadata] fetched the chunks (the order of the record)
    never reaches the merged file, and the [sorted] it applies before the call
    changes nothing. *)
Theorem merge_chunks_order_blind (paths paths' : list string) (merged : string) (dir : Dir) :
  Permutation paths paths' ->
  merge_chunks paths merged dir = merge_chunks paths' merged dir /\
  merge_chunks (Py.sorted paths) merged dir = merge_chunks paths merged dir.
Proof.
  intros H. unfold merge_chunks. split.
  - now rewrite (sorted_perm _ _ H).
  - now rewrite sorted_idempotent.
Qed.

Lemma merge_chunks_order_blind_witness :
  merge_chunks ["b"; "a"]%string "m" (write (write no_files "a" [x01]) "b" [x02]) =
  merge_chunks ["a"; "b"]%string "m" (write (write no_files "a" [x01]) "b" [x02]) /\
  merge_chunks (Py.sorted ["b"; "a"]%string) "m" (write (write no_files "a" [x01]) "b" [x02]) =
  merge_chunks ["b"; "a"]%string "m" (write (write no_files "a" [x01]) "b" [x02]).
Proof.
  apply (merge_chunks_order_blind ["b"; "a"]%string ["a"; "b"]%string "m").
  apply perm_swap.
Defined.

(** ** The scan after a whole-file upload *)

Lemma chunk_loop_names (file : bytes) (name mimetype : string) (file_size : Z) (fuel : nat) :
  forall (w : World) (fs : list (Z * string)) (offset : Z) (cs : list ChunkRecord)
         (w1 : World) (cs1 : list ChunkRecord),
  map chunk_name cs = part_names name (List.length cs) ->
  chunk_loop fuel w file name mimetype file_size fs offset (List.length cs) cs
    = LoopExit w1 cs1 ->
  map chunk_name cs1 = part_names name (List.length cs1).
Proof.
  induction fuel as [|fuel IH]; intros w fs offset cs w1 cs1 Hnames H; [discriminate|].
  cbn [chunk_loop] in H.
  destruct (offset <? file_size); [|inversion H; subst; exact Hnames].
  destruct (select_bucket (sort_asc fs) 0) as [[[i f] b]|];
    [|inversion H; subst; exact Hnames].
  destruct (Py.falsy b); [inversion H; subst; exact Hnames|].
  destruct (upload_chunk (authenticate_account w b)
              (read_at file offset (Z.min f (file_size - offset))) mimetype name
              (List.length cs)) as [[| | | | |[|]| |]|[id d']]; try discriminate.
  assert (Hlen : S (List.length cs) =
                 List.length (cs ++ [{| chunk_name :=
                                          (name ++ "_part" ++
                                           Py.str_of_nat (List.length cs + 1))%string;
                                        file_id := id; bucket := b |}]))
    by (rewrite length_app; simpl; lia).
  rewrite Hlen in H. apply IH in H; [exact H|].
  rewrite map_app, <- Hlen, part_names_S, Hnames. reflexivity.
Qed.

(** A completed upload whose record is the one chunk named as the file went
    the whole-file way, to a listed bucket. *)
Lemma upload_complete_whole (w : World) (file : bytes) (name mimetype : string) (w' : World) :
  upload_file w file name mimetype = (w', UploadComplete) ->
  map chunk_name (uploaded_chunks w') = [name] ->
  exists best id service',
    In best (bucket_listing w) /\
    files_create (authenticate_account w best) name mimetype file = inr (id, service') /\
    w' = set_metadata (set_drive w best service')
           (MetaList (existing_metadata (metadata_file w) ++
                        [{| file_name := name;
                            chunks := [{| chunk_name := name; file_id := id;
                                          bucket := best |}] |}])).
Proof.
  unfold upload_file. rewrite snapshot_listing.
  destruct (total_free w <? size file); [discriminate|].
  destruct (sort_desc (candidates w)) as [|[best_free best] rest] eqn:Hs; [discriminate|].
  destruct (sort_desc_head _ _ _ _ Hs) as [Hbest _].
  apply candidates_In in Hbest. destruct Hbest as (Hin & _ & _).
  destruct (best_free >=? size file).
  - destruct (files_create (authenticate_account w best) name mimetype file)
      as [e|[id service']] eqn:Hc; [discriminate|].
    intros H _. apply update_metadata_complete in H. subst w'.
    exists best, id, service'. split; [assumption|]. split; [exact Hc|reflexivity].
  - destruct (chunk_loop (S (List.length ((best_free, best) :: rest))) w file name mimetype
                (size file) ((best_free, best) :: rest) 0 0 []) as [w1 cs|w1 e|] eqn:Hl;
      try discriminate.
    intros H Hnames. apply update_metadata_complete in H. subst w'. exfalso.
    rewrite uploaded_chunks_last in Hnames. cbn [chunks] in Hnames.
    apply (chunk_loop_names file name mimetype (size file) _ w _ 0 []) in Hl;
      [|reflexivity].
    apply (part_names_other name (List.length cs)). rewrite <- Hl, Hnames. now left.
Qed.

(** X11.  The scan restores a whole-file upload: when no listed bucket held an
    object named as the file or with a name containing [name_part], the upload
    wrote the file as one object, and the metadata document was then lost
    (the file is missing, has no bytes, or holds text that is not JSON),
    [download_from_all_buckets] finds the object by its name and leaves
    exactly the uploaded bytes under that name.  When the document has become
    bytes that are not text, there is no scan: [json.load] raises
    [UnicodeDecodeError], which leaves [download_from_all_buckets], and
    nothing is fetched. *)
Theorem scan_restores_whole_file (w : World) (file : bytes) (name mimetype : string)
    (w' : World) (m : MetadataFile) (dir : Dir) :
  upload_file w file name mimetype = (w', UploadComplete) ->
  map chunk_name (uploaded_chunks w') = [name] ->
  (forall b, In b (bucket_listing w) ->
     files_list_named (drive_of w b) name = [] /\
     files_list_containing (drive_of w b) (name ++ "_part")%string = []) ->
  unreadable m = true ->
  download_from_all_buckets (set_metadata w' m) name dir =
    (write dir name file, Fetched (Some name)) /\
  download_from_all_buckets (set_metadata w' MetaUndecodable) name dir =
    (dir, DownloadRaised Py.UnicodeDecodeError).
Proof.
  intros Hup Hone Hclean Hm. split; [|reflexivity].
  destruct (upload_complete_whole _ _ _ _ _ Hup Hone)
    as (best & id & service' & Hin & Hc & ->).
  assert (Hscan : forall l,
            In best l -> (forall b, In b l -> In b (bucket_listing w)) ->
            scan_buckets
              (set_metadata
                 (set_metadata (set_drive w best service')
                    (MetaList (existing_metadata (metadata_file w) ++
                                 [{| file_name := name;
                                     chunks := [{| chunk_name := name; file_id := id;
                                                   bucket := best |}] |}]))) m)
              l name dir = (write dir name file, Fetched (Some name))).
  { induction l as [|b l IH]; intros Hbest Hl; [destruct Hbest|].
    cbn [scan_buckets].
    change (authenticate_account (set_metadata (set_metadata (set_drive w best service') _) m) b)
      with (if String.eqb b best then service' else drive_of w b).
    destruct (String.eqb_spec b best) as [->|Hne].
    - destruct (files_create_ok _ _ _ _ _ _ Hc) as [_ Hfiles].
      destruct (Hclean best Hin) as [Hnamed _].
      unfold files_list_named, authenticate_account in *. rewrite Hfiles, filter_app.
      rewrite Hnamed. simpl.
      rewrite String.eqb_refl. simpl.
      unfold download_file. rewrite (files_get_created _ _ _ _ _ _ Hc). reflexivity.
    - destruct (Hclean b (Hl b (or_introl eq_refl))) as [Hnamed Hparts].
      rewrite Hnamed, Hparts. apply IH.
      + destruct Hbest as [E|Hbest]; [congruence|assumption].
      + intros b0 Hb0. apply Hl. now right. }
  unfold download_from_all_buckets.
  change (get_all_authenticated_buckets (set_metadata _ m)) with (bucket_listing w).
  cbn [metadata_file set_metadata].
  destruct m; try discriminate; now apply Hscan.
Qed.

Lemma scan_restores_whole_file_witness :
  download_from_all_buckets
    (set_metadata (fst (upload_file ten_and_five six_bytes "f" "m")) MetaCorrupt) "f" no_files
  = (write no_files "f" six_bytes, Fetched (Some "f"%string)) /\
  download_from_all_buckets
    (set_metadata (fst (upload_file ten_and_five six_bytes "f" "m")) MetaUndecodable)
    "f" no_files
  = (no_files, DownloadRaised Py.UnicodeDecodeError).
Proof.
  apply (scan_restores_whole_file ten_and_five six_bytes "f" "m").
  - reflexivity.
  - reflexivity.
  - intros b [<-|[<-|[]]]; split; reflexivity.
  - reflexivity.
Defined.

(** ** The storage summary *)

Lemma check_all_storage_fold (w : World) (buckets : list string) (s u : Z) :
  fold_left
    (fun '(total_storage, total_used) bucket =>
       let '(storage, used) := check_storage (authenticate_account w bucket) in
       (total_storage + storage, total_used + used))
    buckets (s, u)
  = (s + fold_right Z.add 0 (map (fun b => fst (check_storage (authenticate_account w b))) buckets),
     u + fold_right Z.add 0 (map (fun b => snd (check_storage (authenticate_account w b))) buckets)).
Proof.
  revert s u. induction buckets as [|b buckets IH]; intros s u; simpl.
  - now rewrite !Z.add_0_r.
  - destruct (check_storage (authenticate_account w b)) as [storage used]. rewrite IH.
    simpl. f_equal; lia.
Qed.

Lemma total_free_split (w : World) (buckets : list string) :
  fold_right Z.add 0 (map (reported_free w) buckets) =
  fold_right Z.add 0 (map (fun b => fst (check_storage (authenticate_account w b))) buckets)
  - fold_right Z.add 0 (map (fun b => snd (check_storage (authenticate_account w b))) buckets).
Proof.
  induction buckets as [|b buckets IH]; simpl; [reflexivity|].
  rewrite IH. unfold reported_free.
  destruct (check_storage (authenticate_account w b)) as [storage used]. simpl. lia.
Qed.

Lemma upload_not_enough_space (w : World) (file : bytes) (name mimetype : string) :
  snd (upload_file w file name mimetype) = NotEnoughSpace <-> total_free w < size file.
Proof.
  unfold upload_file. rewrite snapshot_listing.
  destruct (total_free w <? size file) eqn:Hpre.
  - apply Z.ltb_lt in Hpre. simpl. tauto.
  - apply Z.ltb_ge in Hpre. split; [|lia]. intros H. exfalso.
    destruct (sort_desc (candidates w)) as [|[best_free best] rest]; [discriminate|].
    destruct (best_free >=? size file).
    + destruct (files_create (authenticate_account w best) name mimetype file)
        as [e|[id service']]; [discriminate|].
      destruct (update_metadata_outcome (set_drive w best service')
                  {| file_name := name;
                     chunks := [{| chunk_name := name; file_id := id; bucket := best |}] |});
        congruence.
    + destruct (chunk_loop (S (List.length ((best_free, best) :: rest))) w file name mimetype
                  (size file) ((best_free, best) :: rest) 0 0 []) as [w1 cs|w1 e|];
        try discriminate.
      destruct (update_metadata_outcome w1 {| file_name := name; chunks := cs |});
        congruence.
Qed.

(** X12.  The storage summary and the pre-flight check of [upload_file] use
    the same figure: "Total Free" of [check_all_storage] (before it is
    rounded to GB) is total storage minus total used over all listed buckets,
    a bucket whose capacity query fails counting as (0, 0), and an upload
    answers "Not enough space." exactly when the file is larger than that
    figure.  Without a bucket there is no summary. *)
Theorem storage_summary_is_preflight (w : World) :
  (check_all_storage w = None <-> bucket_listing w = []) /\
  forall storage used,
    check_all_storage w = Some (storage, used) ->
    storage - used = total_free w /\
    forall file name mimetype,
      snd (upload_file w file name mimetype) = NotEnoughSpace <->
      storage - used < size file.
Proof.
  unfold check_all_storage, get_all_authenticated_buckets. split.
  - destruct (bucket_listing w); split; intros H; try reflexivity; discriminate.
  - intros storage used H.
    assert (Hsum : storage - used = total_free w).
    { destruct (bucket_listing w) as [|b l] eqn:Hl; [discriminate|].
      rewrite check_all_storage_fold in H. inversion H; subst.
      unfold total_free. rewrite Hl, total_free_split. simpl. lia. }
    split; [exact Hsum|]. intros file name mimetype. rewrite Hsum.
    apply upload_not_enough_space.
Qed.

(** ** Listing the objects of an account *)

Lemma list_drive_files_loop_spec (pages : list (list DriveFile)) :
  forall (acc : list DriveFile) (max_results : option nat),
  (forall m, max_results = Some (S m) -> (List.length acc < S m)%nat) ->
  list_drive_files_loop pages acc max_results =
  match max_results with
  | Some (S m) => firstn (S m) (acc ++ List.concat pages)
  | _ => (acc ++ List.concat pages)%list
  end.
Proof.
  induction pages as [|page rest IH]; intros acc max_results Hacc;
    cbn [list_drive_files_loop List.concat].
  - rewrite app_nil_r. destruct max_results as [[|m]|]; try reflexivity.
    symmetry. apply firstn_all2. specialize (Hacc m eq_refl). lia.
  - rewrite app_assoc. destruct max_results as [[|m]|].
    + apply (IH (acc ++ page)%list (Some O)). discriminate.
    + destruct (S m <=? List.length (acc ++ page))%nat eqn:Hfull.
      * apply Nat.leb_le in Hfull.
        rewrite (firstn_app (S m) (acc ++ page)%list (List.concat rest)).
        replace (S m - List.length (acc ++ page))%nat with O by lia.
        now rewrite firstn_O, app_nil_r.
      * apply Nat.leb_gt in Hfull. apply (IH (acc ++ page)%list (Some (S m))).
        intros m' E. inversion E; subst. exact Hfull.
    + apply (IH (acc ++ page)%list None). discriminate.
Qed.

Lemma pages_of_concat (fuel : nat) :
  forall l : list DriveFile, (List.length l <= fuel)%nat ->
  List.concat (pages_of fuel l) = l.
Proof.
  induction fuel as [|fuel IH]; intros l Hl.
  - destruct l; [reflexivity|simpl in Hl; lia].
  - destruct l as [|x l]; [reflexivity|].
    cbn [pages_of List.concat]. rewrite IH.
    + apply firstn_skipn.
    + rewrite length_skipn. simpl in *. lia.
Qed.

(** X13.  [list_drive_files] goes through the pages of a listing until there
    is no next page or the limit is reached: with a limit [n > 0] it returns
    the first [n] matching objects (all of them when there are fewer), in the
    order of the listing; with no limit, or the limit 0, it returns every
    matching object.  This holds however the service cuts the listing into
    pages. *)
Theorem list_drive_files_limit (service : Drive) (max_results : option nat)
    (query : option string) :
  list_drive_files service max_results query =
    match max_results with
    | Some (S m) => firstn (S m) (matching service query)
    | _ => matching service query
    end /\
  forall pages : list (list DriveFile),
    list_drive_files_loop pages [] max_results =
    match max_results with
    | Some (S m) => firstn (S m) (List.concat pages)
    | _ => List.concat pages
    end.
Proof.
  assert (Hloop : forall pages : list (list DriveFile),
            list_drive_files_loop pages [] max_results =
            match max_results with
            | Some (S m) => firstn (S m) (List.concat pages)
            | _ => List.concat pages
            end).
  { intros pages. rewrite list_drive_files_loop_spec; [reflexivity|].
    intros m _. simpl. lia. }
  split; [|exact Hloop].
  unfold list_drive_files. rewrite Hloop, pages_of_concat by lia. reflexivity.
Qed.

(** ** The file listing and the search *)

Lemma collect_rows_unbound (w : World) (query : option string) (buckets : list string) :
  forall (acc : list Row) (errors : nat),
  collect_rows w buckets Unbound query acc errors = (acc, (errors + List.length buckets)%nat).
Proof.
  induction buckets as [|b buckets IH]; intros acc errors; simpl.
  - now rewrite Nat.add_0_r.
  - rewrite IH. f_equal. lia.
Qed.

(** X14.  The search never lists a file.  For every non-empty keyword
    [search_files] calls [list_files_from_all_buckets] with a query, which
    leaves [max_files] unassigned; reading it raises [UnboundLocalError] in the
    [try] block of every bucket, the [except] branch reports an error for the
    bucket, and no row is collected: with [n > 0] buckets the result is [n]
    error lines and no page, whatever the accounts hold. *)
Theorem search_lists_nothing (w : World) (keyword choice : string) (more : nat -> bool) :
  keyword <> ""%string ->
  search_files w keyword choice more =
    Some (list_files_from_all_buckets w (Some keyword) choice more) /\
  list_files_from_all_buckets w (Some keyword) choice more =
    match bucket_listing w with
    | [] => None
    | buckets => Some {| bucket_errors := List.length buckets; displayed := [] |}
    end.
Proof.
  intros Hk. unfold search_files, list_files_from_all_buckets, given.
  rewrite (falsy_named _ Hk). split; [reflexivity|].
  unfold get_all_authenticated_buckets.
  destruct (bucket_listing w) as [|b l]; [reflexivity|].
  cbn [negb]. rewrite collect_rows_unbound. reflexivity.
Qed.

Lemma search_lists_nothing_witness :
  search_files many_files "n" "4" (fun _ => true) =
    Some (list_files_from_all_buckets many_files (Some "n"%string) "4" (fun _ => true)) /\
  list_files_from_all_buckets many_files (Some "n"%string) "4" (fun _ => true) =
    match bucket_listing many_files with
    | [] => None
    | buckets => Some {| bucket_errors := List.length buckets; displayed := [] |}
    end.
Proof.
  apply (search_lists_nothing many_files "n" "4" (fun _ => true)). discriminate.
Defined.

Lemma collect_rows_bound (w : World) (query : option string) (limit : option nat)
    (buckets : list string) :
  forall (acc : list Row) (errors : nat),
  collect_rows w buckets (Bound limit) query acc errors =
    ((acc ++ flat_map (fun b => map row_of
                                  (list_drive_files (authenticate_account w b) limit query))
                      buckets)%list,
     errors).
Proof.
  induction buckets as [|b buckets IH]; intros acc errors; simpl.
  - now rewrite app_nil_r.
  - now rewrite IH, app_assoc.
Qed.

Lemma enumerate_app {A : Type} (l1 l2 : list A) :
  forall s : nat,
  enumerate (l1 ++ l2) s = (enumerate l1 s ++ enumerate l2 (s + List.length l1))%list.
Proof.
  induction l1 as [|x l1 IH]; intros s; simpl.
  - now rewrite Nat.add_0_r.
  - rewrite IH, Nat.add_succ_r. reflexivity.
Qed.

Lemma enumerate_length {A : Type} (l : list A) :
  forall s : nat, List.length (enumerate l s) = List.length l.
Proof. induction l as [|x l IH]; intros s; simpl; [reflexivity|]. now rewrite IH. Qed.

Lemma enumerate_split {A : Type} (l : list A) (n s : nat) :
  (n <= List.length l)%nat ->
  (enumerate (firstn n l) s ++ enumerate (skipn n l) (s + n))%list = enumerate l s.
Proof.
  intros Hn. rewrite <- (firstn_skipn n l) at 3. rewrite enumerate_app.
  rewrite length_firstn. now replace (Nat.min n (List.length l)) with n by lia.
Qed.

(** What is displayed is an initial part of the rows, numbered from
    [start_index + 1]. *)
Lemma show_pages_prefix (all_files : list Row) (more : nat -> bool) (fuel : nat) :
  forall (start_index shown : nat),
  exists k,
    List.concat (show_pages fuel all_files start_index more shown) =
    enumerate (firstn k (skipn start_index all_files)) (start_index + 1).
Proof.
  induction fuel as [|fuel IH]; intros start shown; cbn [show_pages].
  - exists O. reflexivity.
  - destruct (start <? List.length all_files)%nat eqn:Hlt; [|exists O; reflexivity].
    apply Nat.ltb_lt in Hlt.
    destruct (start + 30 <? List.length all_files)%nat eqn:Hmore.
    + apply Nat.ltb_lt in Hmore. destruct (more shown).
      * destruct (IH (start + 30)%nat (S shown)) as [k Hk].
        exists (30 + k)%nat. cbn [List.concat]. rewrite Hk.
        rewrite <- (enumerate_split (firstn (30 + k) (skipn start all_files)) 30 (start + 1)).
        -- rewrite firstn_firstn, skipn_firstn_comm, skipn_skipn.
           replace (Nat.min 30 (30 + k)) with 30%nat by lia.
           replace (30 + k - 30)%nat with k by lia.
           replace (start + 30 + 1)%nat with (start + 1 + 30)%nat by lia.
           replace (30 + start)%nat with (start + 30)%nat by lia.
           reflexivity.
        -- rewrite length_firstn, length_skipn. lia.
      * exists 30%nat. cbn [List.concat]. now rewrite app_nil_r.
    + exists 30%nat. cbn [List.concat]. now rewrite app_nil_r.
Qed.

(** When every prompt is answered with y, every row is displayed. *)
Lemma show_pages_all (all_files : list Row) (fuel : nat) :
  forall (start_index shown : nat),
  (List.length all_files - start_index <= fuel)%nat ->
  List.concat (show_pages fuel all_files start_index (fun _ => true) shown) =
  enumerate (skipn start_index all_files) (start_index + 1).
Proof.
  induction fuel as [|fuel IH]; intros start shown Hfuel; cbn [show_pages].
  - rewrite skipn_all2 by lia. reflexivity.
  - destruct (start <? List.length all_files)%nat eqn:Hlt.
    + apply Nat.ltb_lt in Hlt.
      destruct (start + 30 <? List.length all_files)%nat eqn:Hmore.
      * apply Nat.ltb_lt in Hmore. cbn [List.concat]. rewrite IH by lia.
        rewrite <- (enumerate_split (skipn start all_files) 30 (start + 1))
          by (rewrite length_skipn; lia).
        rewrite skipn_skipn.
        replace (start + 30 + 1)%nat with (start + 1 + 30)%nat by lia.
        replace (30 + start)%nat with (start + 30)%nat by lia. reflexivity.
      * apply Nat.ltb_ge in Hmore. cbn [List.concat]. rewrite app_nil_r.
        rewrite firstn_all2 by (rewrite length_skipn; lia). reflexivity.
    + apply Nat.ltb_ge in Hlt. rewrite skipn_all2 by lia. reflexivity.
Qed.

Lemma show_pages_size (all_files : list Row) (more : nat -> bool) (fuel : nat) :
  forall (start_index shown : nat),
  Forall (fun page => (1 <= List.length page <= 30)%nat)
         (show_pages fuel all_files start_index more shown).
Proof.
  induction fuel as [|fuel IH]; intros start shown; cbn [show_pages]; [constructor|].
  destruct (start <? List.length all_files)%nat eqn:Hlt; [|constructor].
  apply Nat.ltb_lt in Hlt. constructor.
  - rewrite enumerate_length, length_firstn, length_skipn. lia.
  - destruct (start + 30 <? List.length all_files)%nat; [|constructor].
    destruct (more shown); [apply IH|constructor].
Qed.

(** X15.  Browsing (no query): every listed bucket is read without error, up
    to the limit of the menu choice; the rows of all buckets are sorted by
    name; what is displayed, page after page, is an initial part of that
    sorted list, numbered from 1 without a gap, in pages of at least 1 and at
    most 30 rows; and when every "more?" prompt is answered with y, it is the
    whole list. *)
Theorem browse_lists_sorted (w : World) (query : option string) (choice : string)
    (more : nat -> bool) :
  given query = false ->
  bucket_listing w <> [] ->
  exists L,
    list_files_from_all_buckets w query choice more = Some L /\
    bucket_errors L = O /\
    Forall (fun page => (1 <= List.length page <= 30)%nat) (displayed L) /\
    (exists k,
        List.concat (displayed L) =
        enumerate
          (firstn k
             (Py.sort_by (fun x y => String.leb (row_name x) (row_name y))
                (flat_map
                   (fun b => map row_of
                               (list_drive_files (authenticate_account w b)
                                  (max_files_of choice) query))
                   (bucket_listing w)))) 1) /\
    ((forall n, more n = true) ->
     List.concat (displayed L) =
     enumerate
       (Py.sort_by (fun x y => String.leb (row_name x) (row_name y))
          (flat_map
             (fun b => map row_of
                         (list_drive_files (authenticate_account w b)
                            (max_files_of choice) query))
             (bucket_listing w))) 1).
Proof.
  intros Hq Hl. unfold list_files_from_all_buckets, get_all_authenticated_buckets.
  destruct (bucket_listing w) as [|b l] eqn:El; [contradiction|].
  rewrite Hq, collect_rows_bound. cbn [app].
  set (rows := Py.sort_by (fun x y => String.leb (row_name x) (row_name y))
                 (flat_map
                    (fun b => map row_of
                                (list_drive_files (authenticate_account w b)
                                   (max_files_of choice) query))
                    (b :: l))).
  eexists. split; [reflexivity|]. cbn [bucket_errors displayed].
  split; [reflexivity|]. split; [apply show_pages_size|]. split.
  - destruct (show_pages_prefix rows more (List.length rows) 0 0) as [k Hk].
    exists k. exact Hk.
  - intros Hyes.
    assert (Hext : forall fuel start shown,
              show_pages fuel rows start more shown =
              show_pages fuel rows start (fun _ => true) shown).
    { induction fuel as [|fuel IH]; intros start shown; cbn [show_pages]; [reflexivity|].
      now rewrite Hyes, IH. }
    rewrite Hext, show_pages_all by lia. reflexivity.
Qed.

Lemma browse_lists_sorted_witness :
  exists L,
    list_files_from_all_buckets many_files None "1" (fun _ => true) = Some L /\
    bucket_errors L = O /\
    Forall (fun page => (1 <= List.length page <= 30)%nat) (displayed L) /\
    (exists k,
        List.concat (displayed L) =
        enumerate
          (firstn k
             (Py.sort_by (fun x y => String.leb (row_name x) (row_name y))
                (flat_map
                   (fun b => map row_of
                               (list_drive_files (authenticate_account many_files b)
                                  (max_files_of "1") None))
                   (bucket_listing many_files)))) 1) /\
    ((forall n, (fun _ : nat => true) n = true) ->
     List.concat (displayed L) =
     enumerate
       (Py.sort_by (fun x y => String.leb (row_name x) (row_name y))
          (flat_map
             (fun b => map row_of
                         (list_drive_files (authenticate_account many_files b)
                            (max_files_of "1") None))
             (bucket_listing many_files))) 1).
Proof.
  apply (browse_lists_sorted many_files None "1" (fun _ => true)).
  - reflexivity.
  - discriminate.
Defined.

(** ** Token files and bucket ids *)

Lemma replace_from_without (c0 : ascii) (old' new : string) (s t : string) :
  Tokens.without c0 s = true ->
  Tokens.replace_from (String c0 old') new 0 (s ++ t) =
  (s ++ Tokens.replace_from (String c0 old') new 0 t)%string.
Proof.
  induction s as [|x s IH]; intros H; [reflexivity|].
  simpl in H. apply andb_prop in H. destruct H as [Hx Hs].
  cbn [append Tokens.replace_from String.prefix].
  destruct (ascii_dec c0 x) as [E|_].
  - subst x. rewrite Ascii.eqb_refl in Hx. discriminate.
  - now rewrite IH.
Qed.

Lemma all_digits_without (c : ascii) (s : string) :
  (Ascii.leb "0" c && Ascii.leb c "9") = false ->
  Tokens.all_digits s = true -> Tokens.without c s = true.
Proof.
  intros Hc. induction s as [|x s IH]; intros H; [reflexivity|].
  simpl in *. apply andb_prop in H. destruct H as [Hx Hs].
  rewrite (IH Hs), andb_true_r.
  destruct (Ascii.eqb_spec x c) as [->|_]; [congruence|reflexivity].
Qed.

Lemma string_of_uint_digits (d : Decimal.uint) :
  Tokens.all_digits (NilEmpty.string_of_uint d) = true.
Proof. induction d; simpl; try reflexivity; exact IHd. Qed.

Lemma str_of_nat_digits (n : nat) : Tokens.all_digits (Py.str_of_nat n) = true.
Proof.
  unfold Py.str_of_nat, NilZero.string_of_uint.
  destruct (Nat.to_uint n) eqn:E; try reflexivity;
    rewrite <- E at 1; try (rewrite E; apply string_of_uint_digits).
Qed.

Lemma str_of_nat_inj (a b : nat) : Py.str_of_nat a = Py.str_of_nat b -> a = b.
Proof.
  unfold Py.str_of_nat. intros H.
  assert (Hnn : forall n, Nat.to_uint n <> Decimal.Nil).
  { intros n. rewrite <- (DecimalNat.Unsigned.of_to n) at 1. rewrite DecimalNat.Unsigned.to_of.
    apply DecimalFacts.unorm_nonnil. }
  apply DecimalNat.Unsigned.to_uint_inj.
  pose proof (NilZero.usu _ (Hnn a)) as Ha. pose proof (NilZero.usu _ (Hnn b)) as Hb.
  rewrite H in Ha. congruence.
Qed.

(** The bucket id read off the token file of a decimal id is that id. *)
Lemma bucket_id_token_path (d : string) :
  Tokens.all_digits d = true ->
  String.prefix "bucket_" (Tokens.token_path d) = true /\
  Tokens.bucket_id (Tokens.token_path d) = d.
Proof.
  intros Hd.
  assert (Hp : forall t, String.prefix "bucket_" ("bucket_" ++ t) = true)
    by (intros t; cbn; destruct t; reflexivity).
  split; [apply Hp|].
  unfold Tokens.bucket_id, Tokens.token_path, Tokens.replace.
  rewrite (replace_from_without "." "json" "" "bucket_" (d ++ ".json")) by reflexivity.
  rewrite (replace_from_without "." "json" "" d ".json")
    by (apply all_digits_without; [reflexivity|assumption]).
  assert (Hj : Tokens.replace_from ".json" "" 0 ".json" = ""%string).
  { cbn [Tokens.replace_from].
    replace (String.prefix ".json" ".json") with true by reflexivity.
    reflexivity. }
  rewrite Hj, append_empty.
  assert (Hb : Tokens.replace_from "bucket_" "" 0 ("bucket_" ++ d) =
               Tokens.replace_from "bucket_" "" 0 d).
  { change ("bucket_" ++ d)%string with (String "b" ("ucket_" ++ d)).
    cbn [Tokens.replace_from].
    change (String "b" ("ucket_" ++ d)) with ("bucket_" ++ d)%string.
    rewrite Hp. reflexivity. }
  rewrite Hb.
  rewrite <- (append_empty d) at 1.
  rewrite (replace_from_without "b" "ucket_" "" d "")
    by (apply all_digits_without; [reflexivity|assumption]).
  apply append_empty.
Qed.

Lemma get_all_app (names : list string) (d : string) :
  Tokens.all_digits d = true ->
  map Tokens.bucket_id
    (filter (String.prefix "bucket_") (names ++ [Tokens.token_path d])) =
  (map Tokens.bucket_id (filter (String.prefix "bucket_") names) ++ [d])%list.
Proof.
  intros Hd. destruct (bucket_id_token_path d Hd) as [Hp Hid].
  rewrite filter_app, map_app. cbn [filter]. rewrite Hp. cbn [map]. now rewrite Hid.
Qed.

Lemma get_all_numbered (k : nat) :
  forall start : nat,
  map Tokens.bucket_id
    (filter (String.prefix "bucket_")
       (map (fun n => Tokens.token_path (Py.str_of_nat n)) (seq start k))) =
  map Py.str_of_nat (seq start k).
Proof.
  induction k as [|k IH]; intros start; cbn [seq map filter]; [reflexivity|].
  destruct (bucket_id_token_path _ (str_of_nat_digits start)) as [Hp Hid].
  rewrite Hp. cbn [map]. now rewrite Hid, IH.
Qed.

Lemma lookup_file_In (dir : Tokens.TokenDir) (p : string) (t : Tokens.TokenFile) :
  Tokens.lookup_file dir p = Some t -> In (p, t) dir.
Proof.
  unfold Tokens.lookup_file.
  destruct (find (fun e => String.eqb (fst e) p) dir) as [[q t']|] eqn:Hfind; [|discriminate].
  intros H. inversion H; subst t'. apply find_some in Hfind. destruct Hfind as [Hin Heq].
  simpl in Heq. apply String.eqb_eq in Heq. now subst q.
Qed.

Lemma lookup_file_none (dir : Tokens.TokenDir) (p : string) :
  Tokens.lookup_file dir p = None <-> ~ In p (map fst dir).
Proof.
  unfold Tokens.lookup_file.
  destruct (find (fun e => String.eqb (fst e) p) dir) as [[q t]|] eqn:Hfind.
  - apply find_some in Hfind. destruct Hfind as [Hin Heq]. simpl in Heq.
    apply String.eqb_eq in Heq. subst q. split; [discriminate|].
    intros H. exfalso. apply H. now apply (in_map fst) in Hin.
  - split; [|reflexivity]. intros _ Hin. apply in_map_iff in Hin.
    destruct Hin as ([q t] & Hq & Hin). simpl in Hq. subst q.
    pose proof (find_none _ _ Hfind _ Hin) as H. simpl in H.
    now rewrite String.eqb_refl in H.
Qed.

Lemma write_file_names (dir : Tokens.TokenDir) (p : string) (t : Tokens.TokenFile) :
  map fst (Tokens.write_file dir p t) =
  match Tokens.lookup_file dir p with
  | Some _ => map fst dir
  | None => (map fst dir ++ [p])%list
  end.
Proof.
  unfold Tokens.write_file. destruct (Tokens.lookup_file dir p).
  - rewrite map_map. apply map_ext. intros [q t']. simpl.
    destruct (String.eqb_spec q p); [now subst|reflexivity].
  - now rewrite map_app.
Qed.

Lemma write_file_other (dir : Tokens.TokenDir) (p q : string) (t : Tokens.TokenFile) :
  q <> p -> Tokens.lookup_file (Tokens.write_file dir p t) q = Tokens.lookup_file dir q.
Proof.
  intros Hq. unfold Tokens.write_file.
  destruct (Tokens.lookup_file dir p); unfold Tokens.lookup_file.
  - induction dir as [|[f t'] dir IH]; [reflexivity|]. cbn [map find fst].
    destruct (String.eqb_spec f p) as [->|Hf]; cbn [fst].
    + destruct (String.eqb_spec p q) as [E|_]; [now contradiction Hq|exact IH].
    + destruct (String.eqb f q); [reflexivity|exact IH].
  - induction dir as [|[f t'] dir IH]; cbn [app find fst].
    + destruct (String.eqb_spec p q) as [E|_]; [now contradiction Hq|reflexivity].
    + destruct (String.eqb f q); [reflexivity|exact IH].
Qed.

Lemma write_file_same (dir : Tokens.TokenDir) (p : string) (t : Tokens.TokenFile) :
  Tokens.lookup_file (Tokens.write_file dir p t) p = Some t.
Proof.
  unfold Tokens.write_file.
  destruct (Tokens.lookup_file dir p) as [t0|] eqn:Hl; unfold Tokens.lookup_file in *.
  - induction dir as [|[f t'] dir IH]; [discriminate|]. cbn [map find fst] in *.
    destruct (String.eqb_spec f p) as [->|Hf]; cbn [fst].
    + now rewrite String.eqb_refl.
    + destruct (String.eqb_spec f p) as [E|_]; [contradiction|]. exact (IH Hl).
  - induction dir as [|[f t'] dir IH]; cbn [app find fst] in *.
    + now rewrite String.eqb_refl.
    + destruct (String.eqb f p); [discriminate|]. exact (IH Hl).
Qed.

Lemma filter_perm {A : Type} (f : A -> bool) (l l' : list A) :
  Permutation l l' -> Permutation (filter f l) (filter f l').
Proof.
  induction 1 as [|x l l' _ IH|x y l|l l' l'' _ IH1 _ IH2]; simpl.
  - constructor.
  - destruct (f x); [now constructor|exact IH].
  - destruct (f x), (f y); try reflexivity. apply perm_swap.
  - now transitivity (filter f l').
Qed.

(** The listing of bucket ids follows the names of the directory, whatever
    the order [os.listdir] returns them in. *)
Lemma get_all_perm (listdir : Tokens.TokenDir -> list string) (dir : Tokens.TokenDir)
    (names : list string) :
  Tokens.lists listdir ->
  Permutation (map fst dir) names ->
  Permutation (Tokens.get_all_authenticated_buckets listdir dir)
    (map Tokens.bucket_id (filter (String.prefix "bucket_") names)).
Proof.
  intros Hl Hn. unfold Tokens.get_all_authenticated_buckets.
  apply Permutation_map, filter_perm. now rewrite (Hl dir).
Qed.

(** What [authenticate_account] returns with, when it returns. *)
Lemma authenticate_returns (dir : Tokens.TokenDir) (flow : Tokens.Flow) (id : string)
    (dir' : Tokens.TokenDir) :
  Tokens.authenticate_account dir flow id = inr dir' ->
  (Tokens.lookup_file dir (Tokens.token_path id) = Some Tokens.Valid /\ dir' = dir) \/
  ((Tokens.lookup_file dir (Tokens.token_path id) = Some Tokens.Expired \/
    Tokens.lookup_file dir (Tokens.token_path id) = None) /\
   flow = Tokens.Granted /\
   dir' = Tokens.write_file dir (Tokens.token_path id) Tokens.Valid).
Proof.
  unfold Tokens.authenticate_account.
  destruct (Tokens.lookup_file dir (Tokens.token_path id)) as [[| |]|];
    destruct flow; intros H; inversion H; subst; auto.
Qed.

(** X16.  Token file and bucket id are a round trip for numbered buckets, in
    every order [os.listdir] may list TOKEN_DIR in.  The id read off the name
    [bucket_n.json] is [n].  [authenticate_account(n)] raises [ValueError]
    when the token file is there and holds no credentials; otherwise, the
    log-in being granted, it returns.  Whenever it returns, the token file
    holds valid credentials, no other file of TOKEN_DIR has changed,
    [get_all_authenticated_buckets] lists the id [n], and every name that was
    listed is still listed. *)
Theorem token_round_trip (listdir : Tokens.TokenDir -> list string) (dir : Tokens.TokenDir)
    (flow : Tokens.Flow) (n : nat) :
  Tokens.lists listdir ->
  Tokens.bucket_id (Tokens.token_path (Py.str_of_nat n)) = Py.str_of_nat n /\
  (Tokens.lookup_file dir (Tokens.token_path (Py.str_of_nat n)) = Some Tokens.Unparseable ->
   Tokens.authenticate_account dir flow (Py.str_of_nat n) = inl Py.ValueError) /\
  (Tokens.lookup_file dir (Tokens.token_path (Py.str_of_nat n)) <> Some Tokens.Unparseable ->
   exists dir',
     Tokens.authenticate_account dir Tokens.Granted (Py.str_of_nat n) = inr dir') /\
  (forall dir',
     Tokens.authenticate_account dir flow (Py.str_of_nat n) = inr dir' ->
     Tokens.lookup_file dir' (Tokens.token_path (Py.str_of_nat n)) = Some Tokens.Valid /\
     (forall p, p <> Tokens.token_path (Py.str_of_nat n) ->
                Tokens.lookup_file dir' p = Tokens.lookup_file dir p) /\
     In (Py.str_of_nat n) (Tokens.get_all_authenticated_buckets listdir dir') /\
     (forall f, In f (listdir dir) -> In f (listdir dir'))).
Proof.
  intros Hl.
  destruct (bucket_id_token_path _ (str_of_nat_digits n)) as [Hp Hid].
  split; [exact Hid|]. split; [|split].
  - unfold Tokens.authenticate_account. now intros ->.
  - unfold Tokens.authenticate_account.
    destruct (Tokens.lookup_file dir (Tokens.token_path (Py.str_of_nat n))) as [[| |]|];
      intros H; eauto. now contradiction H.
  - intros dir' Hret.
    assert (Hvalid : Tokens.lookup_file dir' (Tokens.token_path (Py.str_of_nat n))
                     = Some Tokens.Valid).
    { destruct (authenticate_returns _ _ _ _ Hret) as [[Hv ->]|(_ & _ & ->)];
        [exact Hv|apply write_file_same]. }
    split; [exact Hvalid|]. split; [|split].
    + intros p Hp'.
      destruct (authenticate_returns _ _ _ _ Hret) as [[_ ->]|(_ & _ & ->)];
        [reflexivity|now apply write_file_other].
    + unfold Tokens.get_all_authenticated_buckets. rewrite <- Hid at 1.
      apply in_map, filter_In. split; [|exact Hp].
      apply (Permutation_in _ (Permutation_sym (Hl dir'))).
      apply lookup_file_In in Hvalid. now apply (in_map fst) in Hvalid.
    + intros f Hf.
      apply (Permutation_in _ (Permutation_sym (Hl dir'))).
      apply (Permutation_in _ (Hl dir)) in Hf.
      destruct (authenticate_returns _ _ _ _ Hret) as [[_ ->]|(_ & _ & ->)];
        [exact Hf|].
      rewrite write_file_names.
      destruct (Tokens.lookup_file dir (Tokens.token_path (Py.str_of_nat n)));
        [exact Hf|apply in_or_app; now left].
Qed.

Lemma token_round_trip_witness :
  Tokens.bucket_id (Tokens.token_path (Py.str_of_nat 2)) = Py.str_of_nat 2 /\
  (Tokens.lookup_file [("bucket_1.json", Tokens.Valid); ("bucket_2.json", Tokens.Expired)]%string
     (Tokens.token_path (Py.str_of_nat 2)) = Some Tokens.Unparseable ->
   Tokens.authenticate_account
     [("bucket_1.json", Tokens.Valid); ("bucket_2.json", Tokens.Expired)]%string
     Tokens.Granted (Py.str_of_nat 2) = inl Py.ValueError) /\
  (Tokens.lookup_file [("bucket_1.json", Tokens.Valid); ("bucket_2.json", Tokens.Expired)]%string
     (Tokens.token_path (Py.str_of_nat 2)) <> Some Tokens.Unparseable ->
   exists dir',
     Tokens.authenticate_account
       [("bucket_1.json", Tokens.Valid); ("bucket_2.json", Tokens.Expired)]%string
       Tokens.Granted (Py.str_of_nat 2) = inr dir') /\
  (forall dir',
     Tokens.authenticate_account
       [("bucket_1.json", Tokens.Valid); ("bucket_2.json", Tokens.Expired)]%string
       Tokens.Granted (Py.str_of_nat 2) = inr dir' ->
     Tokens.lookup_file dir' (Tokens.token_path (Py.str_of_nat 2)) = Some Tokens.Valid /\
     (forall p, p <> Tokens.token_path (Py.str_of_nat 2) ->
                Tokens.lookup_file dir' p =
                Tokens.lookup_file
                  [("bucket_1.json", Tokens.Valid); ("bucket_2.json", Tokens.Expired)]%string p) /\
     In (Py.str_of_nat 2)
        (Tokens.get_all_authenticated_buckets (fun d => rev (map fst d)) dir') /\
     (forall f,
        In f ((fun d : Tokens.TokenDir => rev (map fst d))
                [("bucket_1.json", Tokens.Valid); ("bucket_2.json", Tokens.Expired)]%string) ->
        In f ((fun d : Tokens.TokenDir => rev (map fst d)) dir'))).
Proof.
  apply (token_round_trip (fun d => rev (map fst d))
           [("bucket_1.json", Tokens.Valid); ("bucket_2.json", Tokens.Expired)]%string
           Tokens.Granted 2).
  intros d. apply Permutation_sym, Permutation_rev.
Defined.

Lemma get_all_numbered_perm (listdir : Tokens.TokenDir -> list string) (dir : Tokens.TokenDir)
    (k : nat) :
  Tokens.lists listdir ->
  Permutation (map fst dir) (map (fun j => Tokens.token_path (Py.str_of_nat j)) (seq 1 k)) ->
  Permutation (Tokens.get_all_authenticated_buckets listdir dir) (map Py.str_of_nat (seq 1 k)).
Proof.
  intros Hl Hk. rewrite <- (get_all_numbered k 1). now apply get_all_perm.
Qed.

Lemma token_path_inj (a b : nat) :
  Tokens.token_path (Py.str_of_nat a) = Tokens.token_path (Py.str_of_nat b) -> a = b.
Proof.
  intros H. apply str_of_nat_inj.
  rewrite <- (proj2 (bucket_id_token_path _ (str_of_nat_digits a))), H.
  apply (proj2 (bucket_id_token_path _ (str_of_nat_digits b))).
Qed.

(** The listing after [authenticate_account] has returned. *)
Lemma authenticate_listing (listdir : Tokens.TokenDir -> list string) (dir : Tokens.TokenDir)
    (flow : Tokens.Flow) (d : string) (dir' : Tokens.TokenDir) :
  Tokens.lists listdir ->
  Tokens.all_digits d = true ->
  Tokens.authenticate_account dir flow d = inr dir' ->
  (Tokens.lookup_file dir (Tokens.token_path d) <> None ->
   Permutation (Tokens.get_all_authenticated_buckets listdir dir')
               (Tokens.get_all_authenticated_buckets listdir dir)) /\
  (Tokens.lookup_file dir (Tokens.token_path d) = None ->
   Permutation (Tokens.get_all_authenticated_buckets listdir dir')
               (d :: Tokens.get_all_authenticated_buckets listdir dir)).
Proof.
  intros Hl Hd Hret.
  assert (Hnames : map fst dir' =
                   match Tokens.lookup_file dir (Tokens.token_path d) with
                   | Some _ => map fst dir
                   | None => (map fst dir ++ [Tokens.token_path d])%list
                   end).
  { destruct (authenticate_returns _ _ _ _ Hret) as [[Hv ->]|(_ & _ & ->)].
    - now rewrite Hv.
    - apply write_file_names. }
  destruct (Tokens.lookup_file dir (Tokens.token_path d)) as [t|]; split; intros H;
    try discriminate; try (now contradiction H).
  - rewrite (get_all_perm listdir dir' (map fst dir) Hl) by (now rewrite Hnames).
    symmetry. now apply get_all_perm.
  - rewrite (get_all_perm listdir dir' (map fst dir ++ [Tokens.token_path d])%list Hl)
      by (now rewrite Hnames).
    rewrite (get_all_app _ _ Hd).
    rewrite <- Permutation_cons_append. constructor.
    symmetry. now apply get_all_perm.
Qed.

(** X17.  [add_new_bucket] takes the number of listed buckets plus one as the
    new bucket number [n], in every order [os.listdir] may list TOKEN_DIR in.
    When a file [bucket_n.json] is there and holds no credentials,
    [authenticate_account] raises [ValueError] and nothing is announced;
    otherwise, the log-in being granted, "Bucket n added." is announced.
    Whenever it is announced, a bucket has been added only when TOKEN_DIR had
    no file [bucket_n.json]: then the ids listed are those listed before and
    [n]; when the file was there (a token file with a lower number had been
    removed), the ids listed are those listed before.  From token files
    numbered 1 to [k] it makes the ids 1 to [k + 1]. *)
Theorem add_new_bucket_effect (listdir : Tokens.TokenDir -> list string)
    (dir : Tokens.TokenDir) (flow : Tokens.Flow) :
  Tokens.lists listdir ->
  (Tokens.lookup_file dir
     (Tokens.token_path
        (Py.str_of_nat (List.length (Tokens.get_all_authenticated_buckets listdir dir) + 1)))
     = Some Tokens.Unparseable ->
   Tokens.add_new_bucket listdir dir flow = inl Py.ValueError) /\
  (Tokens.lookup_file dir
     (Tokens.token_path
        (Py.str_of_nat (List.length (Tokens.get_all_authenticated_buckets listdir dir) + 1)))
     <> Some Tokens.Unparseable ->
   exists dir',
     Tokens.add_new_bucket listdir dir Tokens.Granted =
       inr ((List.length (Tokens.get_all_authenticated_buckets listdir dir) + 1)%nat, dir')) /\
  (forall n dir',
     Tokens.add_new_bucket listdir dir flow = inr (n, dir') ->
     n = (List.length (Tokens.get_all_authenticated_buckets listdir dir) + 1)%nat /\
     (Tokens.lookup_file dir (Tokens.token_path (Py.str_of_nat n)) <> None ->
      Permutation (Tokens.get_all_authenticated_buckets listdir dir')
                  (Tokens.get_all_authenticated_buckets listdir dir)) /\
     (Tokens.lookup_file dir (Tokens.token_path (Py.str_of_nat n)) = None ->
      Permutation (Tokens.get_all_authenticated_buckets listdir dir')
                  (Py.str_of_nat n :: Tokens.get_all_authenticated_buckets listdir dir))) /\
  (forall k,
     Permutation (map fst dir)
       (map (fun j => Tokens.token_path (Py.str_of_nat j)) (seq 1 k)) ->
     exists dir',
       Tokens.add_new_bucket listdir dir Tokens.Granted = inr (S k, dir') /\
       Permutation (Tokens.get_all_authenticated_buckets listdir dir')
                   (map Py.str_of_nat (seq 1 (S k)))).
Proof.
  intros Hl. unfold Tokens.add_new_bucket.
  set (n := (List.length (Tokens.get_all_authenticated_buckets listdir dir) + 1)%nat).
  assert (Hgranted :
            Tokens.lookup_file dir (Tokens.token_path (Py.str_of_nat n))
              <> Some Tokens.Unparseable ->
            exists dir', Tokens.authenticate_account dir Tokens.Granted (Py.str_of_nat n)
                         = inr dir').
  { unfold Tokens.authenticate_account.
    destruct (Tokens.lookup_file dir (Tokens.token_path (Py.str_of_nat n))) as [[| |]|];
      intros H; eauto. now contradiction H. }
  split; [|split; [|split]].
  - unfold Tokens.authenticate_account. now intros ->.
  - intros H. destruct (Hgranted H) as [dir' ->]. now exists dir'.
  - intros m dir'.
    destruct (Tokens.authenticate_account dir flow (Py.str_of_nat n)) as [e|d] eqn:Hret;
      [discriminate|].
    intros H. inversion H; subst m d. split; [reflexivity|].
    exact (authenticate_listing listdir dir flow _ dir' Hl (str_of_nat_digits n) Hret).
  - intros k Hk.
    pose proof (get_all_numbered_perm listdir dir k Hl Hk) as Hids.
    assert (Hn : n = S k).
    { unfold n. rewrite (Permutation_length Hids), length_map, length_seq. lia. }
    assert (Hnone : Tokens.lookup_file dir (Tokens.token_path (Py.str_of_nat n)) = None).
    { apply lookup_file_none. intros Hin.
      apply (Permutation_in _ Hk) in Hin. apply in_map_iff in Hin.
      destruct Hin as (j & Hj & Hin). apply in_seq in Hin.
      apply token_path_inj in Hj. lia. }
    destruct Hgranted as [dir' Hret]; [rewrite Hnone; discriminate|].
    rewrite Hret. exists dir'. split; [now rewrite Hn|].
    destruct (authenticate_listing listdir dir _ _ dir' Hl (str_of_nat_digits n) Hret)
      as [_ Hnew].
    rewrite (Hnew Hnone), Hids, Hn, (seq_S k 1), map_app.
    exact (Permutation_cons_append (map Py.str_of_nat (seq 1 k)) (Py.str_of_nat (S k))).
Qed.

Lemma add_new_bucket_effect_witness :
  Tokens.lists (fun d => rev (map fst d)) /\
  exists dir',
    Tokens.add_new_bucket (fun d => rev (map fst d))
      [("bucket_1.json", Tokens.Valid); ("bucket_2.json", Tokens.Valid)]%string
      Tokens.Granted = inr (3%nat, dir') /\
    Permutation
      (Tokens.get_all_authenticated_buckets (fun d => rev (map fst d)) dir')
      (map Py.str_of_nat (seq 1 3)).
Proof.
  assert (Hl : Tokens.lists (fun d => rev (map fst d)))
    by (intros d; apply Permutation_sym, Permutation_rev).
  split; [exact Hl|].
  apply (proj2 (proj2 (proj2
           (add_new_bucket_effect (fun d => rev (map fst d))
              [("bucket_1.json", Tokens.Valid); ("bucket_2.json", Tokens.Valid)]%string
              Tokens.Granted Hl))) 2%nat).
  reflexivity.
Defined.

(** X21.  When TOKEN_DIR is in order, [authenticate_account] is a look-up:
    if every file is named [bucket_n.json] for a number [n] and holds valid
    credentials, then for every id that [get_all_authenticated_buckets]
    lists, [authenticate_account] returns with TOKEN_DIR as it was, whatever
    the log-in flow would do.  When it is not, the listing can grow: for a
    listed name whose id has no token file ([bucket_x] gives the id [x], and
    there is no [bucket_x.json]), [authenticate_account] of that id creates
    the token file, and one more id is listed afterwards. *)
Theorem tokens_in_order_stable (listdir : Tokens.TokenDir -> list string)
    (dir : Tokens.TokenDir) (flow : Tokens.Flow) :
  Tokens.lists listdir ->
  ((forall f t, In (f, t) dir ->
      t = Tokens.Valid /\ exists n, f = Tokens.token_path (Py.str_of_nat n)) ->
   forall id, In id (Tokens.get_all_authenticated_buckets listdir dir) ->
              Tokens.authenticate_account dir flow id = inr dir) /\
  (forall f, In f (listdir dir) -> String.prefix "bucket_" f = true ->
     Tokens.lookup_file dir (Tokens.token_path (Tokens.bucket_id f)) = None ->
     exists dir',
       Tokens.authenticate_account dir Tokens.Granted (Tokens.bucket_id f) = inr dir' /\
       map fst dir' = (map fst dir ++ [Tokens.token_path (Tokens.bucket_id f)])%list /\
       List.length (Tokens.get_all_authenticated_buckets listdir dir') =
         S (List.length (Tokens.get_all_authenticated_buckets listdir dir))).
Proof.
  intros Hl. split.
  - intros Horder id Hid. unfold Tokens.get_all_authenticated_buckets in Hid.
    apply in_map_iff in Hid. destruct Hid as (f & <- & Hf).
    apply filter_In in Hf. destruct Hf as [Hf _].
    apply (Permutation_in _ (Hl dir)) in Hf. apply in_map_iff in Hf.
    destruct Hf as ([f' t] & Hf' & Hin). simpl in Hf'. subst f'.
    destruct (Horder f t Hin) as [_ [n ->]].
    rewrite (proj2 (bucket_id_token_path _ (str_of_nat_digits n))).
    unfold Tokens.authenticate_account.
    destruct (Tokens.lookup_file dir (Tokens.token_path (Py.str_of_nat n))) as [t'|] eqn:Hlook.
    + apply lookup_file_In in Hlook. destruct (Horder _ _ Hlook) as [-> _]. reflexivity.
    + exfalso. apply lookup_file_none in Hlook. apply Hlook.
      now apply (in_map fst) in Hin.
  - intros f Hf Hpre Hnone.
    exists (Tokens.write_file dir (Tokens.token_path (Tokens.bucket_id f)) Tokens.Valid).
    assert (Hnames : map fst (Tokens.write_file dir (Tokens.token_path (Tokens.bucket_id f))
                                Tokens.Valid)
                     = (map fst dir ++ [Tokens.token_path (Tokens.bucket_id f)])%list)
      by (now rewrite write_file_names, Hnone).
    split; [|split; [exact Hnames|]].
    + unfold Tokens.authenticate_account. now rewrite Hnone.
    + rewrite (Permutation_length (get_all_perm listdir _ _ Hl (Permutation_refl _))).
      rewrite (Permutation_length (get_all_perm listdir dir _ Hl (Permutation_refl _))).
      rewrite Hnames, filter_app, map_app, length_app.
      assert (Hp : String.prefix "bucket_" (Tokens.token_path (Tokens.bucket_id f)) = true)
        by (unfold Tokens.token_path; cbn; destruct (Tokens.bucket_id f); reflexivity).
      cbn [filter]. rewrite Hp. cbn [map List.length]. lia.
Qed.

Lemma tokens_in_order_stable_witness :
  Tokens.lists (fun d => rev (map fst d)) /\
  (forall id,
     In id (Tokens.get_all_authenticated_buckets (fun d => rev (map fst d))
              [("bucket_1.json", Tokens.Valid); ("bucket_2.json", Tokens.Valid)]%string) ->
     Tokens.authenticate_account
       [("bucket_1.json", Tokens.Valid); ("bucket_2.json", Tokens.Valid)]%string
       (Tokens.Refused Py.FileNotFoundError) id =
     inr [("bucket_1.json", Tokens.Valid); ("bucket_2.json", Tokens.Valid)]%string).
Proof.
  assert (Hl : Tokens.lists (fun d => rev (map fst d)))
    by (intros d; apply Permutation_sym, Permutation_rev).
  split; [exact Hl|].
  apply (proj1 (tokens_in_order_stable (fun d => rev (map fst d))
                  [("bucket_1.json", Tokens.Valid); ("bucket_2.json", Tokens.Valid)]%string
                  (Tokens.Refused Py.FileNotFoundError) Hl)).
  intros f t [H|[H|[]]]; inversion H; subst; (split; [reflexivity|]).
  - now exists 1%nat.
  - now exists 2%nat.
Defined.

(** ** The scan after a chunked upload *)

Lemma read_at_short (file : bytes) (offset n : Z) : 0 <= n -> size (read_at file offset n) <= n.
Proof.
  intros Hn. unfold size, read_at. rewrite length_firstn. lia.
Qed.

Lemma chunk_loop_placed (w0 : World) (file : bytes) (name mimetype : string)
    (ids : list string) (fuel : nat) :
  forall (w : World) (fs : list (Z * string)) (offset : Z) (chunk_index : nat)
         (cs : list ChunkRecord) (placed : list (ChunkRecord * bytes))
         (w1 : World) (cs1 : list ChunkRecord),
  placed_in w0 w file name mimetype ids cs placed ->
  (forall e, In e fs -> fst e < size file /\ In (snd e) ids) ->
  chunk_loop fuel w file name mimetype (size file) fs offset chunk_index cs
    = LoopExit w1 cs1 ->
  exists placed1, placed_in w0 w1 file name mimetype ids cs1 placed1.
Proof.
  induction fuel as [|fuel IH];
    intros w fs offset chunk_index cs placed w1 cs1 Hinv Hfs H; [discriminate|].
  cbn [chunk_loop] in H.
  destruct (offset <? size file) eqn:Hlt; [|inversion H; subst; eauto].
  apply Z.ltb_lt in Hlt.
  destruct (select_bucket (sort_asc fs) 0) as [[[i f] b]|] eqn:Hsel;
    [|inversion H; subst; eauto].
  destruct (Py.falsy b); [inversion H; subst; eauto|].
  destruct (upload_chunk (authenticate_account w b)
              (read_at file offset (Z.min f (size file - offset))) mimetype name chunk_index)
    as [[| | | | |[|]| |]|[id d']] eqn:Hup; try discriminate.
  destruct (select_smallest _ _ _ _ Hsel) as (Hpos & Hin & _).
  destruct (Hfs _ Hin) as [Hf Hb]. simpl in Hf, Hb.
  set (c := Z.min f (size file - offset)) in *.
  set (newc := {| chunk_name := (name ++ "_part" ++ Py.str_of_nat (chunk_index + 1))%string;
                  file_id := id; bucket := b |}) in *.
  set (body := read_at file offset c) in *.
  unfold upload_chunk in Hup.
  destruct (files_create_ok _ _ _ _ _ _ Hup) as [_ Hfiles].
  destruct Hinv as (Hcs & Hdrive & Hall).
  apply (IH _ _ _ _ _ (placed ++ [(newc, body)])%list) in H; [exact H| |].
  - split; [|split].
    + rewrite map_app, Hcs. reflexivity.
    + intros b0.
      change (drive_of (set_drive w b d') b0)
        with (if String.eqb b0 b then d' else drive_of w b0).
      unfold on_bucket. rewrite filter_app, map_app. cbn [filter fst bucket newc].
      rewrite (String.eqb_sym b b0).
      destruct (String.eqb_spec b0 b) as [->|_].
      * unfold authenticate_account in Hfiles. rewrite Hfiles, Hdrive, <- app_assoc.
        reflexivity.
      * cbn [map]. rewrite app_nil_r. apply Hdrive.
    + intros cb Hcb. apply in_app_or in Hcb. destruct Hcb as [Hcb|[<-|[]]].
      * destruct (Hall cb Hcb) as (Hget & Hsz & Hid & Hname).
        split; [|auto].
        change (drive_of (set_drive w b d') (bucket (fst cb)))
          with (if String.eqb (bucket (fst cb)) b then d' else drive_of w (bucket (fst cb))).
        destruct (String.eqb_spec (bucket (fst cb)) b) as [E|_]; [|assumption].
        rewrite E in Hget. eapply files_get_kept; eassumption.
      * cbn [fst snd]. split; [|split; [|split]].
        -- change (drive_of (set_drive w b d') (bucket newc))
             with (if String.eqb b b then d' else drive_of w b).
           rewrite String.eqb_refl. apply (files_get_created _ _ _ _ _ _ Hup).
        -- pose proof (read_at_short file offset c). unfold body, c in *. lia.
        -- exact Hb.
        -- exists chunk_index. reflexivity.
  - intros e He. apply set_free_In in He.
    destruct He as [He|[Hv [old Hold]]].
    + apply Hfs. now apply (Permutation_in _ (sort_asc_perm fs)).
    + apply (Permutation_in _ (sort_asc_perm fs)) in Hold.
      destruct (Hfs _ Hold) as [_ Hid]. simpl in Hid.
      split; [unfold c in *; lia|exact Hid].
Qed.

Lemma append_assoc (a b c : string) : ((a ++ b) ++ c)%string = (a ++ b ++ c)%string.
Proof. induction a as [|x a IH]; simpl; congruence. Qed.

Lemma prefix_append (p t : string) : String.prefix p (p ++ t) = true.
Proof.
  induction p as [|x p IH]; simpl.
  - now destruct t.
  - destruct (ascii_dec x x) as [_|N]; [exact IH|now contradiction N].
Qed.

Lemma contains_part (name : string) (k : nat) :
  Py.contains (name ++ "_part") (name ++ part_suffix k) = true.
Proof.
  unfold part_suffix. rewrite <- append_assoc.
  pose proof (prefix_append (name ++ "_part") (Py.str_of_nat (k + 1))) as H.
  destruct ((name ++ "_part") ++ Py.str_of_nat (k + 1))%string;
    cbn [Py.contains]; now rewrite H.
Qed.

Lemma part_name_other (name : string) (k : nat) :
  String.eqb (name ++ part_suffix k) name = false.
Proof.
  apply String.eqb_neq. intros E.
  rewrite <- (append_empty name) in E at 2. apply append_inj in E.
  now apply part_suffix_not_empty in E.
Qed.

Lemma on_bucket_single (b : string) (placed : list (ChunkRecord * bytes)) :
  NoDup (map bucket (map fst placed)) ->
  on_bucket b placed = [] \/ exists cb, on_bucket b placed = [cb].
Proof.
  unfold on_bucket. induction placed as [|cb placed IH]; intros Hnd; [now left|].
  simpl in Hnd. inversion Hnd as [|? ? Hnotin Hnd']; subst. simpl.
  destruct (String.eqb_spec (bucket (fst cb)) b) as [E|_]; [|now apply IH].
  right. exists cb. f_equal.
  destruct (filter (fun cb0 => String.eqb (bucket (fst cb0)) b) placed) as [|cb' rest] eqn:F;
    [reflexivity|].
  exfalso. apply Hnotin.
  assert (Hin : In cb' (filter (fun cb0 => String.eqb (bucket (fst cb0)) b) placed))
    by (rewrite F; now left).
  apply filter_In in Hin. destruct Hin as [Hin Hb]. apply String.eqb_eq in Hb.
  rewrite E, <- Hb. apply in_map, in_map. exact Hin.
Qed.

(** What the two queries of the scan find in a bucket that held nothing with
    such a name before the chunks were placed. *)
Lemma scan_queries (w0 w : World) (file : bytes) (name mimetype : string)
    (ids : list string) (cs : list ChunkRecord) (placed : list (ChunkRecord * bytes))
    (b : string) :
  placed_in w0 w file name mimetype ids cs placed ->
  files_list_named (drive_of w0 b) name = [] ->
  files_list_containing (drive_of w0 b) (name ++ "_part")%string = [] ->
  files_list_named (drive_of w b) name = [] /\
  files_list_containing (drive_of w b) (name ++ "_part")%string =
    map (chunk_object mimetype) (on_bucket b placed).
Proof.
  intros (_ & Hdrive & Hall) Hnamed Hparts.
  unfold files_list_named, files_list_containing in *.
  rewrite Hdrive, !filter_app, Hnamed, Hparts. cbn [app].
  assert (Hsub : forall cb, In cb (on_bucket b placed) -> In cb placed)
    by (intros cb Hcb; unfold on_bucket in Hcb; now apply filter_In in Hcb).
  induction (on_bucket b placed) as [|cb l IH]; [now split|].
  destruct (Hall cb (Hsub cb (or_introl eq_refl))) as (_ & _ & _ & k & Hk).
  cbn [map filter chunk_object df_name]. rewrite Hk, part_name_other, contains_part.
  destruct IH as [IH1 IH2]; [intros cb0 H0; apply Hsub; now right|].
  split; [exact IH1|]. now rewrite IH2.
Qed.

(** With every chunk on a bucket of its own, the scan merges one chunk. *)
Lemma scan_takes_one_chunk (w0 w : World) (file : bytes) (name mimetype : string)
    (ids : list string) (cs : list ChunkRecord) (placed : list (ChunkRecord * bytes)) :
  placed_in w0 w file name mimetype ids cs placed ->
  NoDup (map bucket cs) ->
  forall l : list string,
  (forall b, In b l ->
     files_list_named (drive_of w0 b) name = [] /\
     files_list_containing (drive_of w0 b) (name ++ "_part")%string = []) ->
  (exists cb, In cb placed /\ In (bucket (fst cb)) l) ->
  forall dir : Dir,
  exists dir' body,
    scan_buckets w l name dir = (dir', ScanMerged) /\
    dir' name = Some body /\ size body < size file.
Proof.
  intros Hinv Hnd. pose proof Hinv as (Hcs & _ & Hall). rewrite Hcs in Hnd.
  induction l as [|b l IH]; intros Hclean (cb0 & Hcb0 & Hb0) dir; [destruct Hb0|].
  destruct (Hclean b (or_introl eq_refl)) as [Hn0 Hp0].
  destruct (scan_queries _ _ _ _ _ _ _ _ b Hinv Hn0 Hp0) as [Hn Hp].
  cbn [scan_buckets]. unfold authenticate_account. rewrite Hn, Hp.
  destruct (on_bucket_single b placed Hnd) as [E|[cb E]]; rewrite E; cbn [map].
  - apply IH.
    + intros b' Hb'. apply Hclean. now right.
    + exists cb0. split; [assumption|]. destruct Hb0 as [Eb|Hb0]; [|assumption].
      exfalso. assert (Hin : In cb0 (on_bucket b placed)).
      { apply filter_In. split; [assumption|]. apply String.eqb_eq. now symmetry. }
      rewrite E in Hin. destruct Hin.
  - assert (Hin : In cb (on_bucket b placed)) by (rewrite E; now left).
    apply filter_In in Hin. destruct Hin as [Hin Hb]. apply String.eqb_eq in Hb.
    destruct (Hall cb Hin) as (Hget & Hsz & _ & k & Hk). rewrite Hb in Hget.
    cbn [Py.sort_by Py.insert download_parts]. unfold download_file.
    cbn [chunk_object df_id]. rewrite Hget. cbn [chunk_object df_name df_body app].
    exists (fun x => if String.eqb x (chunk_name (fst cb)) then None
                     else write (write dir (chunk_name (fst cb)) (snd cb)) name
                            (snd cb ++ [])%list x),
           (snd cb ++ [])%list.
    split; [|split].
    + unfold merge_and_clean, merge_chunks, Py.sorted.
      cbn [Py.sort_by Py.insert read_chunks remove_all].
      unfold write at 1 2. rewrite Hk, part_name_other, String.eqb_refl.
      cbn [remove_all]. unfold remove, write at 1.
      rewrite part_name_other.
      unfold write at 1. rewrite String.eqb_refl. reflexivity.
    + rewrite Hk, (String.eqb_sym name), part_name_other. unfold write.
      now rewrite String.eqb_refl.
    + now rewrite app_nil_r.
Qed.

Lemma scan_buckets_ext (w v : World) (name : string) (l : list string) :
  (forall b, drive_of w b = drive_of v b) ->
  forall dir : Dir, scan_buckets w l name dir = scan_buckets v l name dir.
Proof.
  intros Hext. induction l as [|b l IH]; intros dir; [reflexivity|].
  cbn [scan_buckets]. unfold authenticate_account. rewrite Hext.
  destruct (files_list_named (drive_of v b) name); [|reflexivity].
  destruct (files_list_containing (drive_of v b) (name ++ "_part")%string) as [|p ps];
    [apply IH|].
  destruct (download_parts (drive_of v b)
              (Py.sort_by (fun x y => String.leb (df_name x) (df_name y)) (p :: ps)) dir [])
    as [dir' [|c cs]]; [apply IH|reflexivity].
Qed.

(** A completed upload of a file no bucket has room for went through the
    chunk loop, and the file is not empty. *)
Lemma upload_complete_chunked (w : World) (file : bytes) (name mimetype : string)
    (w' : World) :
  upload_file w file name mimetype = (w', UploadComplete) ->
  (forall b, In b (bucket_listing w) -> reported_free w b < size file) ->
  0 < size file /\
  exists w1 cs,
    chunk_loop (S (List.length (sort_desc (candidates w)))) w file name mimetype
      (size file) (sort_desc (candidates w)) 0 0 [] = LoopExit w1 cs /\
    w' = set_metadata w1
           (MetaList (existing_metadata (metadata_file w1) ++
                        [{| file_name := name; chunks := cs |}])).
Proof.
  unfold upload_file. rewrite snapshot_listing. intros H Hsmall.
  destruct (total_free w <? size file); [discriminate|].
  destruct (sort_desc (candidates w)) as [|[best_free best] rest] eqn:Hs; [discriminate|].
  destruct (sort_desc_head _ _ _ _ Hs) as [Hbest _].
  apply candidates_In in Hbest. destruct Hbest as (Hin & Hf & Hpos).
  pose proof (Hsmall best Hin) as Hlt. rewrite <- Hf in Hlt.
  replace (best_free >=? size file) with false in H
    by (symmetry; rewrite Z.geb_leb; apply Z.leb_gt; lia).
  split; [lia|].
  destruct (chunk_loop (S (List.length ((best_free, best) :: rest))) w file name mimetype
              (size file) ((best_free, best) :: rest) 0 0 []) as [w1 cs|w1 e|];
    try discriminate.
  exists w1, cs. split; [reflexivity|]. now apply update_metadata_complete in H.
Qed.

(** X18.  The scan never restores a chunked upload.  When the bucket ids are
    distinct and non-empty, no listed bucket has room for the whole file, no
    listed bucket held an object named as the file or with a name containing
    [name_part], the upload completes, and the metadata document is then lost
    (the file is missing, has no bytes, or holds text that is not JSON),
    [download_from_all_buckets] merges the one chunk of the first listed
    bucket that holds one and stops: the file it leaves under the name is
    shorter than the uploaded file, so it is not the uploaded file.  When the
    document has become bytes that are not text, there is no scan: [json.load]
    raises [UnicodeDecodeError], which leaves [download_from_all_buckets], and
    nothing is fetched. *)
Theorem scan_never_restores_chunked (w : World) (file : bytes) (name mimetype : string)
    (w' : World) (m : MetadataFile) (dir : Dir) :
  upload_file w file name mimetype = (w', UploadComplete) ->
  NoDup (bucket_listing w) ->
  (forall b, In b (bucket_listing w) -> b <> ""%string) ->
  (forall b, In b (bucket_listing w) -> reported_free w b < size file) ->
  (forall b, In b (bucket_listing w) ->
     files_list_named (drive_of w b) name = [] /\
     files_list_containing (drive_of w b) (name ++ "_part")%string = []) ->
  unreadable m = true ->
  (exists dir' body,
      download_from_all_buckets (set_metadata w' m) name dir = (dir', ScanMerged) /\
      dir' name = Some body /\ size body < size file) /\
  fst (download_from_all_buckets (set_metadata w' m) name dir) name <> Some file /\
  download_from_all_buckets (set_metadata w' MetaUndecodable) name dir =
    (dir, DownloadRaised Py.UnicodeDecodeError).
Proof.
  intros Hup Hnd Hids Hsmall Hclean Hm.
  cut ((exists dir' body,
           download_from_all_buckets (set_metadata w' m) name dir = (dir', ScanMerged) /\
           dir' name = Some body /\ size body < size file) /\
       fst (download_from_all_buckets (set_metadata w' m) name dir) name <> Some file).
  { intros [H1 H2]. split; [exact H1|]. split; [exact H2|reflexivity]. }
  destruct (upload_complete_chunked _ _ _ _ _ Hup Hsmall) as (Hsize & w1 & cs & Hloop & ->).
  assert (Hentries : forall e, In e (sort_desc (candidates w)) ->
            0 < fst e /\ In (snd e) (bucket_listing w)).
  { intros [f b] He. apply (Permutation_in _ (sort_desc_perm _)) in He.
    apply candidates_In in He. simpl. tauto. }
  destruct (chunk_loop_complete file name mimetype
              (S (List.length (sort_desc (candidates w)))) w (sort_desc (candidates w))
              0 [] [] w1 cs) as (_ & _ & bodies & Hst & Hcat); try reflexivity;
    try exact Hloop.
  { lia. }
  { intros e He. destruct (Hentries e He) as [Hpos Hin]. split; [lia|]. now apply Hids. }
  { rewrite (table_sum_perm _ _ (sort_desc_perm _)).
    pose proof (total_free_le_candidates w).
    destruct (upload_complete_inv _ _ _ _ _ Hup) as [Hfit _]. lia. }
  { constructor. }
  destruct (chunk_loop_placed w file name mimetype (bucket_listing w)
              (S (List.length (sort_desc (candidates w)))) w (sort_desc (candidates w))
              0 0 [] [] w1 cs) as [placed Hplaced]; try exact Hloop.
  { split; [reflexivity|]. split; [|intros cb []].
    intros b. cbn [on_bucket filter map]. now rewrite app_nil_r. }
  { intros [f b] He. destruct (Hentries _ He) as [_ Hin]. simpl in *.
    split; [|exact Hin].
    apply (Permutation_in _ (sort_desc_perm _)) in He. apply candidates_In in He.
    destruct He as (Hb & -> & _). now apply Hsmall. }
  assert (Hbuckets : NoDup (map bucket cs)).
  { apply (chunk_loop_buckets _ _ _ _ _ _ _ _ _ _ _ _) in Hloop; [exact Hloop| |constructor|].
    - eapply Permutation_NoDup; [|exact (candidates_NoDup w Hnd)].
      apply Permutation_map, Permutation_sym, sort_desc_perm.
    - intros c e []. }
  assert (Hsome : exists cb, In cb placed /\ In (bucket (fst cb)) (bucket_listing w)).
  { destruct Hplaced as (Hcs & _ & Hall).
    destruct placed as [|cb placed].
    - exfalso. simpl in Hcs. subst cs. inversion Hst as [|]; subst bodies.
      simpl in Hcat. rewrite <- Hcat in Hsize. unfold size in Hsize. simpl in Hsize. lia.
    - exists cb. split; [now left|]. now destruct (Hall cb (or_introl eq_refl)) as (_ & _ & H & _). }
  destruct (scan_takes_one_chunk w w1 file name mimetype (bucket_listing w) cs placed
              Hplaced Hbuckets (bucket_listing w) Hclean Hsome dir)
    as (dir' & body & Hscan & Hread & Hshort).
  destruct (chunk_loop_frame file name mimetype (size file)
              (S (List.length (sort_desc (candidates w)))) w (sort_desc (candidates w))
              0 0 [] w1) as (_ & Hlisting & _); [now rewrite Hloop|].
  assert (Hdl : download_from_all_buckets
                  (set_metadata
                     (set_metadata w1
                        (MetaList (existing_metadata (metadata_file w1) ++
                                     [{| file_name := name; chunks := cs |}]))) m) name dir
                = (dir', ScanMerged)).
  { unfold download_from_all_buckets, get_all_authenticated_buckets.
    cbn [metadata_file set_metadata bucket_listing]. rewrite Hlisting.
    rewrite (scan_buckets_ext _ w1 name (bucket_listing w)) by reflexivity.
    rewrite Hscan. destruct m; try discriminate; reflexivity. }
  split.
  - exists dir', body. auto.
  - rewrite Hdl. cbn [fst]. rewrite Hread. intros E. inversion E; subst. lia.
Qed.

Lemma scan_never_restores_chunked_witness :
  (exists dir' body,
      download_from_all_buckets
        (set_metadata (fst (upload_file ten_and_five twelve_bytes "f" "m")) MetaMissing)
        "f" no_files = (dir', ScanMerged) /\
      dir' "f"%string = Some body /\ size body < size twelve_bytes) /\
  fst (download_from_all_buckets
         (set_metadata (fst (upload_file ten_and_five twelve_bytes "f" "m")) MetaMissing)
         "f" no_files) "f"%string <> Some twelve_bytes /\
  download_from_all_buckets
    (set_metadata (fst (upload_file ten_and_five twelve_bytes "f" "m")) MetaUndecodable)
    "f" no_files
  = (no_files, DownloadRaised Py.UnicodeDecodeError).
Proof.
  apply (scan_never_restores_chunked ten_and_five twelve_bytes "f" "m").
  - reflexivity.
  - constructor; [intros [H|[]]; discriminate|]. constructor; [intros []|constructor].
  - intros b [<-|[<-|[]]]; discriminate.
  - intros b [<-|[<-|[]]]; reflexivity.
  - intros b [<-|[<-|[]]]; split; reflexivity.
  - reflexivity.
Defined.

Lemma write_keeps (dir : Dir) (name : string) (b : bytes) (p : string) :
  dir p <> None -> write dir name b p <> None.
Proof.
  unfold write. intros H. destruct (String.eqb p name); [discriminate|exact H].
Qed.

Lemma download_chunks_fails (w : World) (c : ChunkRecord) (post : list ChunkRecord) :
  files_get (authenticate_account w (bucket c)) (file_id c) = None ->
  forall (pre : list ChunkRecord) (dir : Dir) (paths : list string),
  (forall c', In c' pre ->
     files_get (authenticate_account w (bucket c')) (file_id c') <> None) ->
  exists dir',
    download_chunks w (pre ++ c :: post) dir paths = (dir', None) /\
    (forall p, dir p <> None -> dir' p <> None) /\
    (forall c' f, In c' pre ->
       files_get (authenticate_account w (bucket c')) (file_id c') = Some f ->
       dir' (df_name f) <> None).
Proof.
  intros Hgone. induction pre as [|c0 pre IH]; intros dir paths Hpre.
  - exists dir. cbn [app download_chunks]. unfold download_file. rewrite Hgone.
    split; [reflexivity|]. split; [auto|intros c' f []].
  - destruct (files_get (authenticate_account w (bucket c0)) (file_id c0)) as [f0|] eqn:Hf0;
      [|exfalso; exact (Hpre c0 (or_introl eq_refl) Hf0)].
    destruct (IH (write dir (df_name f0) (df_body f0)) (paths ++ [df_name f0])%list)
      as (dir' & Hrun & Hkeep & Hfetched).
    { intros c' Hc'. apply Hpre. now right. }
    exists dir'. cbn [app download_chunks]. unfold download_file at 1. rewrite Hf0.
    split; [exact Hrun|]. split.
    + intros p Hp. apply Hkeep. now apply write_keeps.
    + intros c' f [<-|Hin] Hf.
      * rewrite Hf0 in Hf. inversion Hf; subst f. apply Hkeep.
        unfold write. now rewrite String.eqb_refl.
      * now apply (Hfetched c' f).
Qed.

(** X19.  A chunk that cannot be fetched aborts the download and nothing is
    cleaned up.  When the record of the file lists several chunks (or one chunk
    not named as the file) and the object of one of them is gone while those
    before it can be fetched, [download_using_metadata] ends with "Failed to
    download chunk.": every file that was in the directory is still there, and
    so is every chunk object fetched before the failure. *)
Theorem missing_chunk_aborts (w : World) (file_name : string) (dir : Dir)
    (metadata_list : list FileRecord) (target : FileRecord)
    (pre : list ChunkRecord) (c : ChunkRecord) (post : list ChunkRecord) :
  metadata_file w = MetaList metadata_list ->
  lookup metadata_list file_name = Some target ->
  chunks target = (pre ++ c :: post)%list ->
  is_single (chunks target) file_name = None ->
  (forall c', In c' pre ->
     files_get (authenticate_account w (bucket c')) (file_id c') <> None) ->
  files_get (authenticate_account w (bucket c)) (file_id c) = None ->
  exists dir',
    download_using_metadata w file_name dir = (dir', ChunkFailed) /\
    (forall p, dir p <> None -> dir' p <> None) /\
    (forall c' f, In c' pre ->
       files_get (authenticate_account w (bucket c')) (file_id c') = Some f ->
       dir' (df_name f) <> None).
Proof.
  intros Hmeta Hlook Hchunks Hsingle Hpre Hgone.
  destruct (download_chunks_fails w c post Hgone pre dir [] Hpre)
    as (dir' & Hrun & Hkeep & Hfetched).
  exists dir'. unfold download_using_metadata.
  rewrite Hmeta, Hlook. cbv zeta. rewrite Hsingle, Hchunks, Hrun. auto.
Qed.

Lemma missing_chunk_aborts_witness :
  exists dir',
    download_using_metadata
      (set_metadata (fst (upload_file ten_and_five twelve_bytes "f" "m"))
         (MetaList [{| file_name := "f";
                       chunks := [{| chunk_name := "f_part1"; file_id := 1; bucket := "B" |};
                                  {| chunk_name := "f_part2"; file_id := 2; bucket := "A" |}] |}]))
      "f" no_files = (dir', ChunkFailed) /\
    (forall p, no_files p <> None -> dir' p <> None) /\
    (forall c' f,
       In c' [{| chunk_name := "f_part1"; file_id := 1; bucket := "B" |}] ->
       files_get
         (authenticate_account
            (set_metadata (fst (upload_file ten_and_five twelve_bytes "f" "m"))
               (MetaList [{| file_name := "f";
                             chunks := [{| chunk_name := "f_part1"; file_id := 1;
                                           bucket := "B" |};
                                        {| chunk_name := "f_part2"; file_id := 2;
                                           bucket := "A" |}] |}]))
            (bucket c')) (file_id c') = Some f ->
       dir' (df_name f) <> None).
Proof.
  apply (missing_chunk_aborts _ "f" no_files
           [{| file_name := "f";
               chunks := [{| chunk_name := "f_part1"; file_id := 1; bucket := "B" |};
                          {| chunk_name := "f_part2"; file_id := 2; bucket := "A" |}] |}]
           {| file_name := "f";
              chunks := [{| chunk_name := "f_part1"; file_id := 1; bucket := "B" |};
                         {| chunk_name := "f_part2"; file_id := 2; bucket := "A" |}] |}
           [{| chunk_name := "f_part1"; file_id := 1; bucket := "B" |}]
           {| chunk_name := "f_part2"; file_id := 2; bucket := "A" |} []).
  - reflexivity.
  - reflexivity.
  - reflexivity.
  - reflexivity.
  - intros c' [<-|[]]. vm_compute. discriminate.
  - reflexivity.
Defined.

(** ** Exhaustion in the middle of an upload *)









(** ** A metadata document that cannot be read *)

(** What an upload does to the accounts does not depend on the metadata
    document. *)
Lemma upload_file_drives (w : World) (m : MetadataFile) (file : bytes)
    (name mimetype b : string) :
  drive_of (fst (upload_file (set_metadata w m) file name mimetype)) b =
  drive_of (fst (upload_file w file name mimetype)) b.
Proof.
  unfold upload_file. rewrite !snapshot_listing.
  change (candidates (set_metadata w m)) with (candidates w).
  change (total_free (set_metadata w m)) with (total_free w).
  destruct (total_free w <? size file); [reflexivity|].
  destruct (sort_desc (candidates w)) as [|[best_free best] rest]; [reflexivity|].
  destruct (best_free >=? size file).
  - change (authenticate_account (set_metadata w m) best) with (authenticate_account w best).
    destruct (files_create (authenticate_account w best) name mimetype file)
      as [e|[id service']]; [reflexivity|].
    set (r := {| file_name := name;
                 chunks := [{| chunk_name := name; file_id := id; bucket := best |}] |}).
    destruct (update_metadata_frame (set_drive (set_metadata w m) best service') r)
      as (_ & -> & _).
    destruct (update_metadata_frame (set_drive w best service') r) as (_ & -> & _).
    reflexivity.
  - rewrite chunk_loop_metadata.
    destruct (chunk_loop (S (List.length ((best_free, best) :: rest))) w file name mimetype
                (size file) ((best_free, best) :: rest) 0 0 []) as [w1 cs|w1 e|];
      [|reflexivity|reflexivity].
    destruct (update_metadata_frame (set_metadata w1 m) {| file_name := name; chunks := cs |})
      as (_ & -> & _).
    destruct (update_metadata_frame w1 {| file_name := name; chunks := cs |}) as (_ & -> & _).
    reflexivity.
Qed.

Lemma stored_ext (w v : World) (c : ChunkRecord) (body : bytes) :
  (forall b, drive_of w b = drive_of v b) -> stored w c body -> stored v c body.
Proof.
  intros Hext (f & Hget & Hname & Hbody). exists f.
  unfold authenticate_account in *. rewrite <- Hext. auto.
Qed.

(** The chunks of the record a completed upload appends hold the file. *)
Lemma upload_covers_core (w : World) (file : bytes) (name mimetype : string) (w' : World) :
  upload_file w file name mimetype = (w', UploadComplete) ->
  (forall b, In b (bucket_listing w) -> b <> ""%string) ->
  exists cs bodies,
    metadata_file w' =
      MetaList (existing_metadata (metadata_file w) ++ [{| file_name := name; chunks := cs |}]) /\
    uploaded_chunks w' = cs /\
    Forall2 (stored w') cs bodies /\
    List.concat bodies = file.
Proof.
  intros Hup Hids.
  destruct (upload_complete_inv _ _ _ _ _ Hup)
    as [Hfit [(best & id & service' & Hc & ->)|(w1 & cs & Hloop & ->)]].
  - exists [{| chunk_name := name; file_id := id; bucket := best |}], [file].
    split; [reflexivity|]. split; [apply uploaded_chunks_last|]. split.
    + constructor; [|constructor].
      change (stored (set_drive w best service')
                {| chunk_name := name; file_id := id; bucket := best |} file).
      eapply stored_new. exact Hc.
    + simpl. apply app_nil_r.
  - destruct (chunk_loop_complete file name mimetype
                (S (List.length (sort_desc (candidates w)))) w (sort_desc (candidates w))
                0 [] [] w1 cs) as (Hmeta & _ & bodies & Hst & Hcat).
    + pose proof (Zle_0_nat (List.length file)). unfold size. lia.
    + intros [f b] He. apply (Permutation_in _ (sort_desc_perm _)) in He.
      apply candidates_In in He. destruct He as (Hin & _ & Hpos).
      split; [simpl; lia|]. simpl. now apply Hids.
    + rewrite (table_sum_perm _ _ (sort_desc_perm _)).
      pose proof (total_free_le_candidates w). lia.
    + reflexivity.
    + constructor.
    + reflexivity.
    + exact Hloop.
    + exists cs, bodies. cbn [metadata_file set_metadata]. rewrite Hmeta.
      split; [reflexivity|]. split; [apply uploaded_chunks_last|]. split; assumption.
Qed.

(** C8 (corruption resilience), where it fails.  The pool has room and the
    snapshot is accurate, so that the upload completes over a missing
    document; but [metadata.json] holds bytes that are not text.  The chunks
    are placed as they are over a missing document, account for account, and
    they hold the file; then [json.load] raises [UnicodeDecodeError], which
    the [except json.JSONDecodeError] clause of the "#Update metadata" block
    does not name: the upload ends with that error, the document is not
    reset and no record is written. *)
Theorem undecodable_metadata_raises (w : World) (file : bytes) (name mimetype : string) :
  NoDup (bucket_listing w) ->
  (forall b, In b (bucket_listing w) -> b <> ""%string) ->
  (forall b, In b (bucket_listing w) -> 0 < reported_free w b ->
     create_fault (drive_of w b) = false /\ reported_free w b <= room (drive_of w b)) ->
  size file <= total_free w ->
  (exists b, In b (bucket_listing w) /\ 0 < reported_free w b) ->
  metadata_file w = MetaUndecodable ->
  snd (upload_file w file name mimetype) = UploadRaised Py.UnicodeDecodeError /\
  metadata_file (fst (upload_file w file name mimetype)) = MetaUndecodable /\
  snd (upload_file (set_metadata w MetaMissing) file name mimetype) = UploadComplete /\
  (forall b,
     drive_of (fst (upload_file w file name mimetype)) b =
     drive_of (fst (upload_file (set_metadata w MetaMissing) file name mimetype)) b) /\
  exists bodies,
    Forall2 (stored (fst (upload_file w file name mimetype)))
      (uploaded_chunks (fst (upload_file (set_metadata w MetaMissing) file name mimetype)))
      bodies /\
    List.concat bodies = file.
Proof.
  intros Hnd Hids Hhonest Hfit Hsome Hm.
  pose proof (upload_completes_core w file name mimetype Hnd Hids Hhonest Hfit Hsome) as Hend.
  rewrite Hm in Hend.
  pose proof (upload_completes_core (set_metadata w MetaMissing) file name mimetype
                Hnd Hids Hhonest Hfit Hsome) as Hsib.
  cbn [metadata_file set_metadata] in Hsib.
  assert (Hdrives : forall b,
            drive_of (fst (upload_file w file name mimetype)) b =
            drive_of (fst (upload_file (set_metadata w MetaMissing) file name mimetype)) b)
    by (intros b; symmetry; apply upload_file_drives).
  split; [exact Hend|]. split; [|split; [exact Hsib|split; [exact Hdrives|]]].
  - destruct (upload_file_frame w file name mimetype) as (_ & _ & _ & Hkeep & _).
    rewrite Hkeep, Hm; [reflexivity|]. rewrite Hend. discriminate.
  - destruct (upload_file (set_metadata w MetaMissing) file name mimetype) as [v o] eqn:Hup.
    cbn [fst snd] in *. subst o.
    destruct (upload_covers_core _ _ _ _ _ Hup Hids) as (cs & bodies & _ & -> & Hst & Hcat).
    exists bodies. split; [|exact Hcat].
    eapply Forall2_impl; [|exact Hst].
    intros c body Hc. apply (stored_ext v); [|exact Hc].
    intros b. symmetry. apply Hdrives.
Qed.

Lemma undecodable_metadata_raises_witness :
  snd (upload_file (set_metadata ten_and_five MetaUndecodable) twelve_bytes "f" "m")
    = UploadRaised Py.UnicodeDecodeError /\
  metadata_file (fst (upload_file (set_metadata ten_and_five MetaUndecodable)
                        twelve_bytes "f" "m")) = MetaUndecodable /\
  snd (upload_file (set_metadata (set_metadata ten_and_five MetaUndecodable) MetaMissing)
         twelve_bytes "f" "m") = UploadComplete /\
  (forall b,
     drive_of (fst (upload_file (set_metadata ten_and_five MetaUndecodable)
                      twelve_bytes "f" "m")) b =
     drive_of (fst (upload_file (set_metadata (set_metadata ten_and_five MetaUndecodable)
                                   MetaMissing) twelve_bytes "f" "m")) b) /\
  exists bodies,
    Forall2 (stored (fst (upload_file (set_metadata ten_and_five MetaUndecodable)
                            twelve_bytes "f" "m")))
      (uploaded_chunks
         (fst (upload_file (set_metadata (set_metadata ten_and_five MetaUndecodable)
                              MetaMissing) twelve_bytes "f" "m")))
      bodies /\
    List.concat bodies = twelve_bytes.
Proof.
  apply (undecodable_metadata_raises (set_metadata ten_and_five MetaUndecodable)
           twelve_bytes "f" "m").
  - constructor; [intros [H|[]]; discriminate|]. constructor; [intros []|constructor].
  - intros b [<-|[<-|[]]]; discriminate.
  - intros b [<-|[<-|[]]] _; vm_compute; (split; [reflexivity|discriminate]).
  - vm_compute. discriminate.
  - exists "A"%string. split; [now left|reflexivity].
  - reflexivity.
Defined.

(** X22.  Where the metadata document is read as the empty sequence: when the
    file is missing, has no bytes, or holds text that is not JSON, and the
    pool has room and the snapshot is accurate (distinct, non-empty bucket
    ids, every bucket that reports free space above 0 accepts that many
    bytes, the reports sum to at least the size of the file, and some bucket
    reports free space above 0), the upload completes; the rewritten document
    is an array holding exactly one record, with the uploaded name, and the
    chunks of that record can be fetched and hold, in order, the bytes of the
    file. *)
Theorem unreadable_metadata_reset (w : World) (file : bytes) (name mimetype : string) :
  NoDup (bucket_listing w) ->
  (forall b, In b (bucket_listing w) -> b <> ""%string) ->
  (forall b, In b (bucket_listing w) -> 0 < reported_free w b ->
     create_fault (drive_of w b) = false /\ reported_free w b <= room (drive_of w b)) ->
  size file <= total_free w ->
  (exists b, In b (bucket_listing w) /\ 0 < reported_free w b) ->
  unreadable (metadata_file w) = true ->
  existing_metadata (metadata_file w) = [] /\
  exists w' cs bodies,
    upload_file w file name mimetype = (w', UploadComplete) /\
    metadata_file w' = MetaList [{| file_name := name; chunks := cs |}] /\
    Forall2 (stored w') cs bodies /\
    List.concat bodies = file.
Proof.
  intros Hnd Hids Hhonest Hfit Hsome Hm.
  assert (He : existing_metadata (metadata_file w) = [])
    by (destruct (metadata_file w); try discriminate; reflexivity).
  split; [exact He|].
  pose proof (upload_completes_core w file name mimetype Hnd Hids Hhonest Hfit Hsome) as Hend.
  assert (Hdone : snd (upload_file w file name mimetype) = UploadComplete)
    by (rewrite Hend; destruct (metadata_file w); try discriminate; reflexivity).
  destruct (upload_file w file name mimetype) as [w' o] eqn:Hup. cbn [snd] in Hdone. subst o.
  destruct (upload_covers_core _ _ _ _ _ Hup Hids) as (cs & bodies & Hmeta & _ & Hst & Hcat).
  exists w', cs, bodies. split; [reflexivity|]. rewrite Hmeta, He. auto.
Qed.

Lemma unreadable_metadata_reset_witness :
  existing_metadata (metadata_file (set_metadata ten_and_five MetaCorrupt)) = [] /\
  exists w' cs bodies,
    upload_file (set_metadata ten_and_five MetaCorrupt) twelve_bytes "f" "m"
      = (w', UploadComplete) /\
    metadata_file w' = MetaList [{| file_name := "f"; chunks := cs |}] /\
    Forall2 (stored w') cs bodies /\
    List.concat bodies = twelve_bytes.
Proof.
  apply (unreadable_metadata_reset (set_metadata ten_and_five MetaCorrupt)
           twelve_bytes "f" "m").
  - constructor; [intros [H|[]]; discriminate|]. constructor; [intros []|constructor].
  - intros b [<-|[<-|[]]]; discriminate.
  - intros b [<-|[<-|[]]] _; vm_compute; (split; [reflexivity|discriminate]).
  - vm_compute. discriminate.
  - exists "A"%string. split; [now left|reflexivity].
  - reflexivity.
Defined.
